(** * bun-repl: the remote evaluation engine of [src/repl.ts]

    A shallow embedding of the inspection fallback chain ([SafeInspect]),
    the request/response correlation of [REPLServer] ([request],
    [onmessage]), the evaluation driver ([REPLServer.eval]), the print
    decision of [start] and the top-level-await rewrite
    ([tryProcessTopLevelAwait]), followed by the properties proved about
    them.

    Conventions.  Strings are sequences of characters with code below 256
    ([ascii]); on this alphabet code units and code points coincide.
    Synchronous JavaScript code that may throw lives in the monad [M]: a
    state transformer whose result is either a normal completion or a
    thrown value, the state reached at the throw being kept (a [catch]
    block observes every mutation made before the throw). *)

From Stdlib Require Import String Ascii NArith ZArith List Bool Lia DecimalString DecimalN Sorted.
From stdpp Require Import base option gmap list.

Open Scope string_scope.

(** ** JavaScript values, thrown values, completions *)

(** The values the engine handles locally.  Objects are opaque references. *)
Inductive any : Type :=
| JSUndefined
| JSNull
| JSBoolean (b : bool)
| JSNumber (z : Z)
| JSBigInt (z : Z)
| JSString (s : string)
| JSSymbol (description : string)
| JSObject (ref : N).

(** Anything a [throw] statement or a failing builtin can raise. *)
Inductive exn : Type :=
| EvalError (message : string)
| SyntaxError (message : string)
| TypeError (message : string)
| ThrownValue (v : any)
| ErrorWith (code : option string) (message : string).

Inductive Completion (A : Type) : Type :=
| Normal (a : A)
| Throw (e : exn).
Arguments Normal {A} a.
Arguments Throw {A} e.

Definition M (W A : Type) : Type := W -> Completion A * W.

Definition ret {W A} (a : A) : M W A := fun w => (Normal a, w).

Definition bind {W A B} (m : M W A) (k : A -> M W B) : M W B :=
  fun w => match m w with
           | (Normal a, w') => k a w'
           | (Throw e, w') => (Throw e, w')
           end.

Definition throw {W A} (e : exn) : M W A := fun w => (Throw e, w).

(** [try { m } catch (e) { h e }] *)
Definition try_catch {W A} (m : M W A) (h : exn -> M W A) : M W A :=
  fun w => match m w with
           | (Normal a, w') => (Normal a, w')
           | (Throw e, w') => h e w'
           end.

Definition lift {W A} (c : Completion A) : M W A := fun w => (c, w).
Definition gets {W A} (f : W -> A) : M W A := fun w => (Normal (f w), w).
Definition modify {W} (f : W -> W) : M W unit := fun w => (Normal tt, f w).

Declare Scope js_scope.
Delimit Scope js_scope with js.
Notation "x <- c1 ;; c2" := (bind c1 (fun x => c2))
  (at level 100, c1 at next level, right associativity) : js_scope.
Notation "c1 ;; c2" := (bind c1 (fun _ => c2))
  (at level 100, right associativity) : js_scope.
Open Scope js_scope.

(** A JavaScript value is falsy when it is [undefined], [false] or the
    empty string (the only falsy shapes of the optional members below). *)
Definition truthy_bool (b : option bool) : bool :=
  match b with Some true => true | _ => false end.

Definition truthy_string (s : option string) : bool :=
  match s with Some "" => false | Some _ => true | None => false end.

(** ** Console and colour constants *)

(** The module [./colors] (imported as [$]) is a table of escape
    sequences; only these entries are used by the modelled code. *)
Record Colors : Type := {
  red : string;
  yellow : string;
  dim : string;
  reset : string
}.

Inductive ConsoleEntry : Type :=
| console_log (text : option string)
| console_error (text : option string)
| console_warn (text : string)
| ws_message_error (err : exn) (received : string).

Definition Console : Type := list ConsoleEntry.

Definition emit (e : ConsoleEntry) (out : Console) : Console := (out ++ [e])%list.

(** ** The inspection fallback chain *)

Inductive Depth : Type :=
| DepthUndefined | DepthNull | DepthNumber (n : N) | DepthInfinity.

Inductive SortedOption : Type :=
| SortedUndefined | SortedBoolean (b : bool) | SortedFunction.

(** [utl.InspectOptions], as a plain data object. *)
Record InspectOptions : Type := {
  depth : Depth;
  sorted : SortedOption;
  colors : option bool;
  showProxy : option bool
}.

Definition set_depth (d : Depth) (o : InspectOptions) : InspectOptions :=
  {| depth := d; sorted := sorted o; colors := colors o; showProxy := showProxy o |}.

Definition set_sorted (s : SortedOption) (o : InspectOptions) : InspectOptions :=
  {| depth := depth o; sorted := s; colors := colors o; showProxy := showProxy o |}.

(** The adjustments made to the options before the native inspector runs. *)
Definition native_options (opts : InspectOptions) : InspectOptions :=
  let opts := match depth opts with
              | DepthNull => set_depth DepthInfinity opts
              | _ => opts
              end in
  match sorted opts with
  | SortedFunction => set_sorted (SortedBoolean true) opts
  | _ => opts
  end.

Definition inspection_failed_warning (C : Colors) : string :=
  yellow C ++ dim C ++ "All value inspection methods failed, this should not happen!" ++ reset C.

Section Inspection.

(** The two inspectors ([utl.inspect] of [./utl], [inspect] of [bun]) and
    the coercion [val + ''] are supplied by the runtime. *)
Variable C : Colors.
Variable utl_inspect : any -> InspectOptions -> Completion string.
Variable bunInspect : any -> InspectOptions -> Completion string.
Variable concat_empty : any -> Completion any.

Definition SafeInspect (val : any) (opts : InspectOptions) : M Console string :=
  try_catch
    (try_catch
       (lift (utl_inspect val opts))
       (fun _ => lift (bunInspect val (native_options opts))))
    (fun _ =>
       try_catch
         (modify (emit (console_warn (inspection_failed_warning C))) ;;
          str <- lift (concat_empty val) ;;
          ret (match str with JSString s => s | _ => "" end))
         (fun _ => ret "")).

End Inspection.

(** ** The request/response correlation layer of [REPLServer] *)

(** [++n] on a JavaScript number holding a non-negative integer: exact
    while the successor is representable, that is below [2^53]; at [2^53]
    the sum rounds back to [2^53].  Larger values are never produced by a
    counter that starts at 0. *)
Definition MAX_EXACT : N := 2 ^ 53.

Definition number_increment (n : N) : N :=
  if (n <? MAX_EXACT)%N then (n + 1)%N else n.

(** The [error] member of a failure reply. *)
Record ErrorInfo : Type := {
  code : option string;
  message : string
}.

(** The [id] member of a decoded frame: a number with a non-negative
    integer value, or anything else (absent, a string, a fraction, ...),
    kept with its rendering in a template literal. *)
Inductive JsonId : Type :=
| IdNumber (n : N)
| IdOther (rendering : string).

Definition decimal (n : N) : string :=
  DecimalString.NilZero.string_of_uint (N.to_uint n).

Definition render_id (id : JsonId) : string :=
  match id with
  | IdNumber n => decimal n
  | IdOther r => r
  end.

(** [event.data] of a WebSocket message. *)
Inductive WsData : Type :=
| DataArrayBuffer (bytes : list Byte.byte)
| DataBuffer (bytes : list Byte.byte)
| DataString (s : string).

Section Correlation.

(** [Payload] is the type of the [result] member of a reply
    ([JSC.ResponseMap[...]]), [Params] that of the [params] of a request. *)
Context {Payload Params : Type}.

(** What [JSON.parse] returned, as far as [onmessage] looks at it. *)
Inductive ResponseData : Type :=
| DNull
| DPrimitive
| DObject (id : JsonId) (error : option ErrorInfo) (result : option Payload).

(** Runtime services: the two UTF-8 decoders and [JSON.parse]. *)
Variable TextDecoder_decode : list Byte.byte -> string.
Variable BufferToString : list Byte.byte -> string.
Variable JSONParse : string -> Completion ResponseData.

Definition wsDataToString (data : WsData) : string :=
  match data with
  | DataArrayBuffer b => TextDecoder_decode b
  | DataBuffer b => BufferToString b
  | DataString s => s
  end.

Inductive PromiseState : Type :=
| Pending
| Fulfilled (value : Payload)
| Rejected (reason : ErrorInfo).

(** [JSCResponsePromiseCallbacks]: the [resolve] and [reject] functions of
    one promise, identified by the promise they settle. *)
Record JSCResponsePromiseCallbacks : Type := {
  promise : N
}.

(** [JSC.Request] *)
Record Request : Type := {
  req_id : N;
  req_method : string;
  req_params : Params
}.

(** The private state of a [REPLServer], the promises created by
    [request] ([created] counts them and names the next one) and what was
    written to the socket and to the console. *)
Record Conn : Type := {
  reqID : N;
  pendingReqs : gmap N JSCResponsePromiseCallbacks;
  promises : gmap N PromiseState;
  created : N;
  sent : list Request;
  console : Console
}.

Definition initial : Conn :=
  {| reqID := 0; pendingReqs := ∅; promises := ∅; created := 0; sent := []; console := [] |}.

Definition set_reqID (n : N) (s : Conn) : Conn :=
  {| reqID := n; pendingReqs := pendingReqs s; promises := promises s; created := created s;
     sent := sent s; console := console s |}.

Definition set_pendingReqs (t : gmap N JSCResponsePromiseCallbacks) (s : Conn) : Conn :=
  {| reqID := reqID s; pendingReqs := t; promises := promises s; created := created s;
     sent := sent s; console := console s |}.

Definition set_promises (p : gmap N PromiseState) (s : Conn) : Conn :=
  {| reqID := reqID s; pendingReqs := pendingReqs s; promises := p; created := created s;
     sent := sent s; console := console s |}.

Definition set_created (n : N) (s : Conn) : Conn :=
  {| reqID := reqID s; pendingReqs := pendingReqs s; promises := promises s; created := n;
     sent := sent s; console := console s |}.

Definition set_sent (l : list Request) (s : Conn) : Conn :=
  {| reqID := reqID s; pendingReqs := pendingReqs s; promises := promises s; created := created s;
     sent := l; console := console s |}.

Definition set_console (c : Console) (s : Conn) : Conn :=
  {| reqID := reqID s; pendingReqs := pendingReqs s; promises := promises s; created := created s;
     sent := sent s; console := c |}.

(** [new Promise(executor)]: a fresh pending promise. *)
Definition new_Promise : M Conn N :=
  p <- gets created ;;
  modify (fun s => set_created (N.succ p) (set_promises (<[p := Pending]> (promises s)) s)) ;;
  ret p.

(** Settling a promise has an effect only while it is pending. *)
Definition settle (p : N) (st : PromiseState) : M Conn unit :=
  modify (fun s =>
    match promises s !! p with
    | Some Pending => set_promises (<[p := st]> (promises s)) s
    | _ => s
    end).

Definition resolve (cb : JSCResponsePromiseCallbacks) (value : Payload) : M Conn unit :=
  settle (promise cb) (Fulfilled value).

Definition reject (cb : JSCResponsePromiseCallbacks) (reason : ErrorInfo) : M Conn unit :=
  settle (promise cb) (Rejected reason).

(** [Map.prototype.get] on a table keyed by numbers: only a number can
    find an entry. *)
Definition MapGet (t : gmap N JSCResponsePromiseCallbacks) (id : JsonId)
  : option JSCResponsePromiseCallbacks :=
  match id with
  | IdNumber n => t !! n
  | IdOther _ => None
  end.

Definition MapDelete (t : gmap N JSCResponsePromiseCallbacks) (id : JsonId)
  : gmap N JSCResponsePromiseCallbacks :=
  match id with
  | IdNumber n => delete n t
  | IdOther _ => t
  end.

(** [REPLServer.request]: returns the promise whose callbacks were
    registered.  The socket is open (the first call is made from [onopen]),
    so [send] appends the frame to what was written. *)
Definition request (method : string) (params : Params) : M Conn N :=
  modify (fun s => set_reqID (number_increment (reqID s)) s) ;;
  id <- gets reqID ;;
  response <- new_Promise ;;
  key <- gets reqID ;;
  modify (fun s => set_pendingReqs (<[key := {| promise := response |}]> (pendingReqs s)) s) ;;
  modify (fun s => set_sent (sent s ++ [ {| req_id := id; req_method := method; req_params := params |} ])%list s) ;;
  ret response.

(** The [onmessage] handler installed by the constructor. *)
Definition onmessage (event_data : WsData) : M Conn unit :=
  try_catch
    (data <- lift (JSONParse (wsDataToString event_data)) ;;
     match data with
     | DNull => throw (TypeError "Right side of assignment cannot be destructured")
     | DPrimitive =>
         throw (ThrownValue (JSString "Received message for unknown request ID: undefined"))
     | DObject id error result =>
         table <- gets pendingReqs ;;
         match MapGet table id with
         | Some promiseRef =>
             modify (fun s => set_pendingReqs (MapDelete (pendingReqs s) id) s) ;;
             match error, result with
             | Some e, _ => reject promiseRef e
             | None, Some r => resolve promiseRef r
             | None, None =>
                 throw (ThrownValue (JSString
                   ("Received response with no result or error: " ++ render_id id)))
             end
         | None =>
             throw (ThrownValue (JSString
               ("Received message for unknown request ID: " ++ render_id id)))
         end
     end)
    (fun err =>
       modify (fun s =>
         set_console (emit (ws_message_error err (wsDataToString event_data)) (console s)) s)).

(** What awaiting the promise returned by [request] yields once the inner
    promise has settled: the [catch] handler turns a rejection reason
    into [ObjectAssign(new Error, reason)]. *)
Definition response_of (st : PromiseState) : option (Completion Payload) :=
  match st with
  | Pending => None
  | Fulfilled v => Some (Normal v)
  | Rejected r => Some (Throw (ErrorWith (code r) (message r)))
  end.

(** Runs of the layer: calls of [request] interleaved with inbound frames. *)
Inductive Event : Type :=
| Call (method : string) (params : Params)
| Inbound (data : WsData).

Definition step (ev : Event) (s : Conn) : Conn :=
  match ev with
  | Call m p => snd (request m p s)
  | Inbound d => snd (onmessage d s)
  end.

Definition run (evs : list Event) (s : Conn) : Conn :=
  fold_left (fun s ev => step ev s) evs s.

(** The ids handed out by the calls of a run, oldest first. *)
Fixpoint allocated (evs : list Event) (s : Conn) : list N :=
  match evs with
  | [] => []
  | ev :: evs' =>
      match ev with
      | Call _ _ => [reqID (step ev s)]
      | Inbound _ => []
      end ++ allocated evs' (step ev s)
  end%list.

Inductive reachable : Conn -> Prop :=
| reachable_initial : reachable initial
| reachable_step ev s : reachable s -> reachable (step ev s).

End Correlation.

(** ** String primitives *)

(** [WhiteSpace] and [LineTerminator] code points below 256: TAB, LF, VT,
    FF, CR, SP and NBSP.  This is the set removed by [trim], skipped by
    [BigInt] and matched by [\s]. *)
Definition is_whitespace (c : ascii) : bool :=
  let n := N_of_ascii c in
  ((n =? 9) || (n =? 10) || (n =? 11) || (n =? 12) || (n =? 13) || (n =? 32) || (n =? 160))%N.

Fixpoint trim_start (s : string) : string :=
  match s with
  | String c r => if is_whitespace c then trim_start r else s
  | EmptyString => EmptyString
  end.

Fixpoint trim_end (s : string) : string :=
  match s with
  | EmptyString => EmptyString
  | String c r =>
      match trim_end r with
      | EmptyString => if is_whitespace c then EmptyString else String c EmptyString
      | r' => String c r'
      end
  end.

(** [String.prototype.trim] *)
Definition StringTrim (s : string) : string := trim_end (trim_start s).

(** [s.slice(0, -1)]: all but the last character. *)
Fixpoint slice_0_m1 (s : string) : string :=
  match s with
  | EmptyString => EmptyString
  | String c EmptyString => EmptyString
  | String c r => String c (slice_0_m1 r)
  end.

Definition digit_value (c : ascii) : option N :=
  let n := N_of_ascii c in
  if ((48 <=? n) && (n <=? 57))%N then Some (n - 48)%N
  else if ((97 <=? n) && (n <=? 102))%N then Some (n - 87)%N
  else if ((65 <=? n) && (n <=? 70))%N then Some (n - 55)%N
  else None.

Fixpoint digits (radix : N) (s : string) (acc : N) : option N :=
  match s with
  | EmptyString => Some acc
  | String c r =>
      match digit_value c with
      | Some d => if (d <? radix)%N then digits radix r (acc * radix + d)%N else None
      | None => None
      end
  end.

(** One or more digits of the given radix. *)
Definition numeral (radix : N) (s : string) : option Z :=
  match s with
  | EmptyString => None
  | _ => Z.of_N <$> digits radix s 0%N
  end.

(** [StringToBigInt]: surrounding white space is ignored, the empty text
    is zero, a decimal numeral may carry a sign, and the prefixes [0x],
    [0o], [0b] (either case) introduce unsigned numerals. *)
Definition StringToBigInt (s : string) : option Z :=
  match StringTrim s with
  | EmptyString => Some 0%Z
  | String "0" (String "x" r) | String "0" (String "X" r) => numeral 16 r
  | String "0" (String "o" r) | String "0" (String "O" r) => numeral 8 r
  | String "0" (String "b" r) | String "0" (String "B" r) => numeral 2 r
  | String "+" r => numeral 10 r
  | String "-" r => Z.opp <$> numeral 10 r
  | t => numeral 10 t
  end.

(** [BigInt(text)] *)
Definition BigInt (text : string) : Completion Z :=
  match StringToBigInt text with
  | Some z => Normal z
  | None => Throw (SyntaxError ("Failed to parse String to BigInt"))
  end.

(** ** Remote values ([JSC.Runtime]) *)

Inductive RemoteObjectType : Type :=
| type_string | type_number | type_bigint | type_boolean
| type_symbol | type_undefined | type_object | type_function.

Inductive RemoteObjectSubtype : Type :=
| subtype_array | subtype_map | subtype_set | subtype_weakmap | subtype_weakset
| subtype_error | subtype_null | subtype_date | subtype_regexp | subtype_class
| subtype_proxy | subtype_weakref | subtype_iterator.

Module PropertyPreview.
Record t : Type := {
  name : string;
  value : option string
}.
End PropertyPreview.

Record ObjectPreview : Type := {
  properties : option (list PropertyPreview.t)
}.

(** [EvalRemoteObject]: a [RemoteObject] of the protocol together with the
    two members [eval] adds to it.  [value] is the [value] member when it
    is a string, the only shape [eval] reads. *)
Record RemoteObject : Type := {
  type : RemoteObjectType;
  subtype : option RemoteObjectSubtype;
  objectId : option string;
  className : option string;
  description : option string;
  preview : option ObjectPreview;
  value : option string;
  wasThrown : option bool;
  wasRejectedPromise : option bool
}.

Definition set_wasThrown (b : option bool) (o : RemoteObject) : RemoteObject :=
  {| type := type o; subtype := subtype o; objectId := objectId o;
     className := className o; description := description o; preview := preview o;
     value := value o; wasThrown := b; wasRejectedPromise := wasRejectedPromise o |}.

Definition set_wasRejectedPromise (b : option bool) (o : RemoteObject) : RemoteObject :=
  {| type := type o; subtype := subtype o; objectId := objectId o;
     className := className o; description := description o; preview := preview o;
     value := value o; wasThrown := wasThrown o; wasRejectedPromise := b |}.

(** The shape shared by the replies to [Runtime.evaluate],
    [Runtime.awaitPromise] and [Runtime.callFunctionOn]. *)
Module Response.
Record t : Type := {
  result : RemoteObject;
  wasThrown : option bool
}.
End Response.

#[global] Instance RemoteObjectType_eq_dec : EqDecision RemoteObjectType.
Proof. solve_decision. Defined.

#[global] Instance RemoteObjectSubtype_eq_dec : EqDecision RemoteObjectSubtype.
Proof. solve_decision. Defined.

(** [REPLServer.typeof] and [REPLServer.subtypeof] *)
Definition typeof (v : RemoteObject) (expected : RemoteObjectType) : bool :=
  bool_decide (type v = expected).

Definition subtypeof (v : RemoteObject) (expected : RemoteObjectSubtype) : bool :=
  bool_decide (subtype v = Some expected).

(** [v.className === name] *)
Definition is_class (v : RemoteObject) (name : string) : bool :=
  match className v with
  | Some c => String.eqb c name
  | None => false
  end.

(** [preview.properties?.find(p => p.name === 'status')?.value === 'rejected'] *)
Definition status_rejected (pv : ObjectPreview) : bool :=
  match properties pv with
  | Some ps =>
      match List.find (fun p => String.eqb (PropertyPreview.name p) "status") ps with
      | Some p =>
          match PropertyPreview.value p with
          | Some v => String.eqb v "rejected"
          | None => false
          end
      | None => false
      end
  | None => false
  end.

(** ** The evaluation driver [REPLServer.eval] *)

(** The requests [eval] sends.  The function text of
    [Runtime.callFunctionOn] is a template; [FunctionDeclaration] records
    the three interpolated conditions. *)
Record FunctionDeclaration : Type := {
  decl_wasThrown : option bool;
  decl_subtype_is_error : bool;
  decl_colors : bool
}.

Inductive RuntimeRequest : Type :=
| Runtime_evaluate (expression : string) (generatePreview : bool)
| Runtime_awaitPromise (promiseObjectId : string) (generatePreview : bool)
| Runtime_callFunctionOn (globalObject : string) (functionDeclaration : FunctionDeclaration)
    (arguments : list RemoteObject).

(** The third argument of [eval]. *)
Record ExtraOut : Type := {
  errored : option bool;
  noPrintError : option bool
}.

(** The properties of the global object that [eval] touches, and
    [repl?.writer?.options] ([None] when the chain ends in a nullish
    value). *)
Record Globals : Type := {
  underscore : any;
  underscore_error : any;
  bunReplInternals : bool;
  writer_options : option InspectOptions
}.

(** [Reflect.set(GLOBAL, thrown ? '_error' : '_', v)] *)
Definition Reflect_set (thrown : bool) (v : any) (g : Globals) : Globals :=
  if thrown
  then {| underscore := underscore g; underscore_error := v;
          bunReplInternals := bunReplInternals g; writer_options := writer_options g |}
  else {| underscore := v; underscore_error := underscore_error g;
          bunReplInternals := bunReplInternals g; writer_options := writer_options g |}.

Definition set_bunReplInternals (b : bool) (g : Globals) : Globals :=
  {| underscore := underscore g; underscore_error := underscore_error g;
     bunReplInternals := b; writer_options := writer_options g |}.

(** A session: the global object, the requests issued so far, the console
    and the object passed as [extraOut] (if any). *)
Record Session : Type := {
  globalObjectID : string;
  GLOBAL : Globals;
  issued : list RuntimeRequest;
  out : Console;
  extraOut : option ExtraOut
}.

Definition set_GLOBAL (g : Globals) (s : Session) : Session :=
  {| globalObjectID := globalObjectID s; GLOBAL := g; issued := issued s;
     out := out s; extraOut := extraOut s |}.

Definition set_issued (l : list RuntimeRequest) (s : Session) : Session :=
  {| globalObjectID := globalObjectID s; GLOBAL := GLOBAL s; issued := l;
     out := out s; extraOut := extraOut s |}.

Definition set_out (c : Console) (s : Session) : Session :=
  {| globalObjectID := globalObjectID s; GLOBAL := GLOBAL s; issued := issued s;
     out := c; extraOut := extraOut s |}.

Definition set_extraOut (e : option ExtraOut) (s : Session) : Session :=
  {| globalObjectID := globalObjectID s; GLOBAL := GLOBAL s; issued := issued s;
     out := out s; extraOut := e |}.

(** Running a computation that only writes to the console. *)
Definition on_console {A} (m : M Console A) : M Session A :=
  fun s => let (r, c) := m (out s) in (r, set_out c s).

Definition uncaught (C : Colors) : string := red C ++ "Uncaught " ++ reset C.

Definition top_level_await_warning (C : Colors) : string :=
  yellow C ++ dim C
  ++ "[!] REPL top-level await is still very experimental and prone to failing on complex code snippets."
  ++ String "010" "    You are seeing this because top-level await usage was detected with undefined as the result, if that was expected, you can ignore this."
  ++ reset C.

(** [text + value] for a [value] member that is a string or absent. *)
Definition concat_value (text : string) (v : option string) : string :=
  text ++ match v with Some s => s | None => "undefined" end.

Section Evaluation.

Variable C : Colors.
Variable enableANSIColors : bool.
Variable utl_inspect : any -> InspectOptions -> Completion string.
Variable bunInspect : any -> InspectOptions -> Completion string.
Variable concat_empty : any -> Completion any.

(** The remote end.  It runs in the same global object, so answering a
    request may change [GLOBAL]; the answer may depend on the requests
    seen before.  [Throw] stands for a request whose promise rejects. *)
Variable remote : list RuntimeRequest -> RuntimeRequest -> Globals -> Completion Response.t * Globals.

(** [await this.request(method, params)] *)
Definition await_request (r : RuntimeRequest) : M Session Response.t :=
  fun s => let (answer, g) := remote (issued s) r (GLOBAL s) in
           (answer, set_GLOBAL g (set_issued (issued s ++ [r])%list s)).

(** [REPLServer.rawEval] *)
Definition rawEval (code : string) : M Session Response.t :=
  await_request (Runtime_evaluate code true).

Definition default_options : InspectOptions :=
  {| depth := DepthUndefined; sorted := SortedUndefined;
     colors := Some enableANSIColors; showProxy := Some true |}.

(** The statements under [if (result.className === 'Promise')], once the
    preview is known to be present: the conditional await and the
    detection of a rejection. *)
Definition promise_handler (topLevelAwaited : bool) (result : RemoteObject)
  (pv : ObjectPreview) : M Session RemoteObject :=
  remoteObj <-
    (if topLevelAwaited
     then
       awaited <- await_request (Runtime_awaitPromise (default "" (objectId result)) false) ;;
       let remoteObj := set_wasThrown (Response.wasThrown awaited) (Response.result awaited) in
       (if typeof remoteObj type_undefined
        then modify (fun s => set_out (emit (console_warn (top_level_await_warning C)) (out s)) s)
        else ret tt) ;;
       ret remoteObj
     else ret result) ;;
  if status_rejected pv
  then ret (set_wasRejectedPromise (Some true) remoteObj)
  else ret remoteObj.

(** The block labelled [ObjectTypeHandler]: yields the working value
    [remoteObj]. *)
Definition ObjectTypeHandler (topLevelAwaited : bool) (result : RemoteObject)
  : M Session RemoteObject :=
  if negb (typeof result type_object) then ret result
  else if subtypeof result subtype_null then ret result
  else if negb (truthy_string (objectId result))
  then throw (EvalError "Received non-null object without objectId")
  else if is_class result "Promise"
  then match preview result with
       | None => throw (EvalError "Received Promise object without preview")
       | Some pv => promise_handler topLevelAwaited result pv
       end
  else ret result.

(** The workaround for bigint values. *)
Definition bigint_branch (remoteObj : RemoteObject) : M Session (option string) :=
  if negb (truthy_string (description remoteObj))
  then throw (EvalError "Received BigInt value without description")
  else
    value <- lift (BigInt (slice_0_m1 (default "" (description remoteObj)))) ;;
    modify (fun s =>
      set_GLOBAL (Reflect_set (truthy_bool (wasThrown remoteObj)) (JSBigInt value) (GLOBAL s)) s) ;;
    options <- gets (fun s => default default_options (writer_options (GLOBAL s))) ;;
    text <- on_console (SafeInspect C utl_inspect bunInspect concat_empty (JSBigInt value) options) ;;
    ret (Some ((if truthy_bool (wasThrown remoteObj) then uncaught C else "") ++ text)).

(** The secondary render call and the final assembly. *)
Definition render_branch (remoteObj : RemoteObject) : M Session (option string) :=
  let wasThrown := wasThrown remoteObj in
  modify (fun s => set_GLOBAL (set_bunReplInternals true (GLOBAL s)) s) ;;
  global <- gets globalObjectID ;;
  inspected <- await_request
    (Runtime_callFunctionOn global
       {| decl_wasThrown := wasThrown;
          decl_subtype_is_error := subtypeof remoteObj subtype_error;
          decl_colors := enableANSIColors |}
       [remoteObj]) ;;
  modify (fun s => set_GLOBAL (set_bunReplInternals false (GLOBAL s)) s) ;;
  if truthy_bool (Response.wasThrown inspected)
  then throw (EvalError "Failed to inspect object")
  else if negb (typeof (Response.result inspected) type_string)
  then throw (EvalError "Received non-string inspect result")
  else
    modify (fun s =>
      match extraOut s with
      | Some e =>
          let e := if truthy_bool wasThrown
                   then {| errored := Some true; noPrintError := noPrintError e |} else e in
          let e := if truthy_bool (wasRejectedPromise remoteObj)
                   then {| errored := errored e; noPrintError := Some true |} else e in
          set_extraOut (Some e) s
      | None => s
      end) ;;
    if truthy_bool wasThrown && negb (subtypeof remoteObj subtype_error)
    then ret (Some (concat_value (uncaught C) (value (Response.result inspected))))
    else ret (value (Response.result inspected)).

(** [REPLServer.eval(code, topLevelAwaited, extraOut)]; the object
    [extraOut] refers to is the [extraOut] field of the session.  The
    [debuglog] line, silent unless [--debug] is given, is left out. *)
Definition eval (code : string) (topLevelAwaited : bool) : M Session (option string) :=
  r <- rawEval code ;;
  let result := set_wasThrown (Response.wasThrown r) (Response.result r) in
  remoteObj <- ObjectTypeHandler topLevelAwaited result ;;
  if typeof remoteObj type_bigint
  then bigint_branch remoteObj
  else render_branch remoteObj.

(** ** The print decision of [start] *)

(** Single-shot mode: the statements between [repl.eval] and [exit(0)]. *)
Definition print_singleshot (extraInfo : ExtraOut) (printSingleshot : bool)
  (evaled : option string) : Console :=
  if negb (truthy_bool (noPrintError extraInfo))
  then
    if truthy_bool (errored extraInfo) then [console_error evaled]
    else if printSingleshot then [console_log evaled] else []
  else
    if negb (truthy_bool (errored extraInfo)) && printSingleshot
    then [console_log evaled] else [].

(** Interactive mode: the statements of the line handler after [repl.eval]. *)
Definition print_line (extraInfo : ExtraOut) (evaled : option string) : Console :=
  if negb (truthy_bool (noPrintError extraInfo))
  then
    if truthy_bool (errored extraInfo) then [console_error evaled]
    else [console_log evaled]
  else
    if negb (truthy_bool (errored extraInfo)) then [console_log evaled] else [].

Definition fresh_extraInfo : ExtraOut :=
  {| errored := Some false; noPrintError := Some false |}.

(** Evaluation followed by printing, as both modes of [start] do it. *)
Definition evaluate_and_print (print : ExtraOut -> option string -> Console)
  (code : string) (hasTLA : bool) : M Session unit :=
  modify (set_extraOut (Some fresh_extraInfo)) ;;
  evaled <- eval code hasTLA ;;
  extraInfo <- gets (fun s => default fresh_extraInfo (extraOut s)) ;;
  modify (fun s => set_out (out s ++ print extraInfo evaled)%list s).

End Evaluation.

(** ** The top-level-await rewrite *)

Definition newline : string := String "010" EmptyString.

(** [StringPrototypeSplit(src, '\n')]: never empty. *)
Fixpoint StringPrototypeSplit (s : string) : list string :=
  match s with
  | EmptyString => [EmptyString]
  | String c r =>
      if Ascii.eqb c "010"
      then EmptyString :: StringPrototypeSplit r
      else match StringPrototypeSplit r with
           | l :: ls => String c l :: ls
           | [] => [String c EmptyString]
           end
  end.

(** [ArrayPrototypeJoin(lines, '\n')] *)
Definition ArrayPrototypeJoin (lines : list string) : string :=
  String.concat newline lines.

(** [ArrayPrototypePop] *)
Definition ArrayPrototypePop (lines : list string) : list string := removelast lines.

(** [lines[i]] as an operand of [+]: an index that names no element reads
    [undefined]. *)
Definition array_load (lines : list string) (i : Z) : string :=
  if (i <? 0)%Z then "undefined"
  else match lines !! Z.to_nat i with
       | Some x => x
       | None => "undefined"
       end.

(** [lines[i] = x]: a negative index names an ordinary property and leaves
    the elements alone; an index past the end extends the array (the
    holes in between join as empty text). *)
Definition array_store (lines : list string) (i : Z) (x : string) : list string :=
  if (i <? 0)%Z then lines
  else if (Z.to_nat i <? length lines)%nat then <[Z.to_nat i := x]> lines
  else (lines ++ replicate (Z.to_nat i - length lines) EmptyString ++ [x])%list.

(** A literal piece of a pattern at the head of [s]: what follows it. *)
Fixpoint strip_prefix (p s : string) : option string :=
  match p with
  | EmptyString => Some s
  | String a p' =>
      match s with
      | String b s' => if Ascii.eqb a b then strip_prefix p' s' else None
      | EmptyString => None
      end
  end.

Definition is_hex (c : ascii) : bool :=
  match digit_value c with Some _ => true | None => false end.

Section Declarations.

(** The Unicode properties [ID_Start] and [ID_Continue]. *)
Variable ID_Start : ascii -> bool.
Variable ID_Continue : ascii -> bool.

(** [[$_\p{ID_Start}]] *)
Definition start_char (c : ascii) : bool :=
  Ascii.eqb c "$" || Ascii.eqb c "_" || ID_Start c.

(** [[$\u200C\u200D\p{ID_Continue}]]; the two joiners lie outside the
    alphabet. *)
Definition continue_char (c : ascii) : bool :=
  Ascii.eqb c "$" || ID_Continue c.

(** [\\u[\da-fA-F]{4}] on six characters. *)
Definition is_escape (x u a b c d : ascii) : bool :=
  Ascii.eqb x "\" && Ascii.eqb u "u" && is_hex a && is_hex b && is_hex c && is_hex d.

Definition escape_text (a b c d : ascii) : string :=
  String "\" (String "u" (String a (String b (String c (String d EmptyString))))).

(** [\\u[\da-fA-F]{4}] at the head of [s]: the six characters and what
    follows them. *)
Definition unicode_escape (s : string) : option (string * string) :=
  match s with
  | String x (String u (String a (String b (String c (String d r))))) =>
      if is_escape x u a b c d then Some (escape_text a b c d, r) else None
  | _ => None
  end.

(** The starred group of [varname], greedy: the characters matched and
    the rest. *)
Fixpoint continuation (s : string) : string * string :=
  match s with
  | EmptyString => (EmptyString, EmptyString)
  | String x r =>
      if continue_char x
      then let (m, t) := continuation r in (String x m, t)
      else
        match r with
        | String u (String a (String b (String c (String d r')))) =>
            if is_escape x u a b c d
            then let (m, t) := continuation r' in (escape_text a b c d ++ m, t)
            else (EmptyString, s)
        | _ => (EmptyString, s)
        end
  end.

(** The group [varname] at the head of [s]. *)
Definition varname_at (s : string) : option (string * string) :=
  match s with
  | EmptyString => None
  | String c r =>
      if start_char c
      then let (m, t) := continuation r in Some (String c m, t)
      else match unicode_escape s with
           | Some (e, r') => let (m, t) := continuation r' in Some (e ++ m, t)
           | None => None
           end
  end.

(** What follows the first character matched by [\s+]: the longest run of
    white space is tried first, shorter ones on failure. *)
Fixpoint after_space (s : string) : option (string * string) :=
  match s with
  | EmptyString => None
  | String c r =>
      match (if is_whitespace c then after_space r else None) with
      | Some x => Some x
      | None => varname_at s
      end
  end.

(** The group [keyword] at the head of [s]: the alternatives [var],
    [let], [const] in this order. *)
Definition keyword_at (s : string) : option (string * string) :=
  match strip_prefix "var" s with
  | Some r => Some ("var", r)
  | None =>
      match strip_prefix "let" s with
      | Some r => Some ("let", r)
      | None =>
          match strip_prefix "const" s with
          | Some r => Some ("const", r)
          | None => None
          end
      end
  end.

(** [JSVarDeclRegex] anchored at the head of [s]: keyword, name and the
    text after the match. *)
Definition JSVarDeclRegex_at (s : string) : option (string * string * string) :=
  match keyword_at s with
  | Some (keyword, String c r) =>
      if is_whitespace c
      then match after_space r with
           | Some (varname, rest) => Some (keyword, varname, rest)
           | None => None
           end
      else None
  | _ => None
  end.

(** The text the replacer appends to [hoisted]. *)
Definition hoisted_declaration (keyword varname : string) : string :=
  (if String.eqb keyword "const" then "let" else keyword) ++ " " ++ varname ++ ";".

(** [StringPrototypeReplaceAll(text, JSVarDeclRegex, replacer)]: the final
    value of [hoisted] and the text returned.  Matches are found left to
    right and do not overlap; [fuel] bounds the number of positions
    visited. *)
Fixpoint replace_from (fuel : nat) (s : string) : string * string :=
  match fuel with
  | O => (EmptyString, s)
  | S fuel' =>
      match s with
      | EmptyString => (EmptyString, EmptyString)
      | String c r =>
          match JSVarDeclRegex_at s with
          | Some (keyword, varname, rest) =>
              let (hoisted, transformed) := replace_from fuel' rest in
              (hoisted_declaration keyword varname ++ hoisted, varname ++ transformed)
          | None =>
              let (hoisted, transformed) := replace_from fuel' r in
              (hoisted, String c transformed)
          end
      end
  end.

Definition StringPrototypeReplaceAll (text : string) : string * string :=
  replace_from (String.length text) text.

Definition tryProcessTopLevelAwait (src : string) : string :=
  let lines := StringPrototypeSplit src in
  let lines :=
    match StringTrim (array_load lines (Z.of_nat (length lines) - 1)) with
    | EmptyString => ArrayPrototypePop lines
    | _ => lines
    end in
  let lines :=
    array_store lines (Z.of_nat (length lines) - 1)
      ("return " ++ array_load lines (Z.of_nat (length lines) - 1) ++ ";})();") in
  let lines := array_store lines 0 ("(async()=>{" ++ array_load lines 0) in
  let (hoisted, transformed) := StringPrototypeReplaceAll (ArrayPrototypeJoin lines) in
  hoisted ++ transformed.

End Declarations.

(** [ID_Start] and [ID_Continue] on the code points below 256. *)
Definition latin1_ID_Start (c : ascii) : bool :=
  let n := N_of_ascii c in
  (((65 <=? n) && (n <=? 90)) || ((97 <=? n) && (n <=? 122))
   || (n =? 170) || (n =? 181) || (n =? 186)
   || ((192 <=? n) && (n <=? 214)) || ((216 <=? n) && (n <=? 246))
   || ((248 <=? n) && (n <=? 255)))%N.

Definition latin1_ID_Continue (c : ascii) : bool :=
  let n := N_of_ascii c in
  (latin1_ID_Start c || ((48 <=? n) && (n <=? 57)) || (n =? 95) || (n =? 183))%N.

Definition tla : string -> string := tryProcessTopLevelAwait latin1_ID_Start latin1_ID_Continue.

(** * The driver, the history file and module loading *)

(** ** String primitives of the driver *)

(** [StringPrototypeIncludes(s, needle)] *)
Fixpoint StringPrototypeIncludes (s needle : string) : bool :=
  match strip_prefix needle s with
  | Some _ => true
  | None =>
      match s with
      | EmptyString => false
      | String _ r => StringPrototypeIncludes r needle
      end
  end.

(** [text.split(sep)[0]] for a separator that is not empty: the text
    before the first occurrence of the separator, all of it when there is
    none. *)
Fixpoint split_first (sep s : string) : string :=
  match strip_prefix sep s with
  | Some _ => EmptyString
  | None =>
      match s with
      | EmptyString => EmptyString
      | String c r => String c (split_first sep r)
      end
  end.

Definition caused_by : string := newline ++ "Caused by:" ++ newline.

(** [err?.message] of a thrown value: errors carry their message,
    [null], [undefined] and primitives have none, and an opaque object
    is asked ([object_message], taken to be a string when present). *)
Definition error_message (object_message : N -> option string) (e : exn) : option string :=
  match e with
  | EvalError m | SyntaxError m | TypeError m | ErrorWith _ m => Some m
  | ThrownValue (JSObject ref) => object_message ref
  | ThrownValue _ => None
  end.

(** [(err?.message ?? 'Unknown transpiler error.').split('\nCaused by:\n')[0].trim()] *)
Definition transpiler_error_text (object_message : N -> option string) (e : exn) : string :=
  StringTrim (split_first caused_by
                (default "Unknown transpiler error." (error_message object_message e))).

(** ** The state of the driver *)

(** What the driver does to the terminal and the process besides writing
    lines to the console. *)
Inductive TerminalAction : Type :=
| rl_prompt
| console_clear
| Bun_write (path text : string)
| internal_error (err : exn)
| process_exit (code : Z).

(** The session, the transpiler (a state of type [T]), the history
    object of [start] and the log of terminal actions.  Console lines go
    to the log of the session; the two logs are kept apart. *)
Record Repl (T : Type) : Type := {
  session : Session;
  transpiler : T;
  history_path : string;
  history_lines : list string;
  terminal : list TerminalAction
}.
Arguments session {T} _.
Arguments transpiler {T} _.
Arguments history_path {T} _.
Arguments history_lines {T} _.
Arguments terminal {T} _.

Definition set_session {T} (s : Session) (st : Repl T) : Repl T :=
  {| session := s; transpiler := transpiler st; history_path := history_path st;
     history_lines := history_lines st; terminal := terminal st |}.

Definition set_transpiler {T} (t : T) (st : Repl T) : Repl T :=
  {| session := session st; transpiler := t; history_path := history_path st;
     history_lines := history_lines st; terminal := terminal st |}.

Definition set_history_lines {T} (l : list string) (st : Repl T) : Repl T :=
  {| session := session st; transpiler := transpiler st; history_path := history_path st;
     history_lines := l; terminal := terminal st |}.

Definition set_terminal {T} (l : list TerminalAction) (st : Repl T) : Repl T :=
  {| session := session st; transpiler := transpiler st; history_path := history_path st;
     history_lines := history_lines st; terminal := l |}.

Definition on_session {T A} (m : M Session A) : M (Repl T) A :=
  fun st => let (c, s) := m (session st) in (c, set_session s st).

Definition on_transpiler {T A} (m : M T A) : M (Repl T) A :=
  fun st => let (c, t) := m (transpiler st) in (c, set_transpiler t st).

(** [console.log(text)], [console.error(text)] *)
Definition console_print {T} (e : ConsoleEntry) : M (Repl T) unit :=
  modify (fun st => set_session (set_out (emit e (out (session st))) (session st)) st).

Definition record {T} (a : TerminalAction) : M (Repl T) unit :=
  modify (fun st => set_terminal (terminal st ++ [a])%list st).

(** The text the [close] handler writes to the history file. *)
Definition history_text (lines : list string) : string :=
  ArrayPrototypeJoin (filter (fun l => negb (String.eqb l ".exit")) lines).

(** ** [start] *)

Section Driver.

Variable C : Colors.
Variable enableANSIColors : bool.
Variable utl_inspect : any -> InspectOptions -> Completion string.
Variable bunInspect : any -> InspectOptions -> Completion string.
Variable concat_empty : any -> Completion any.
Variable remote : list RuntimeRequest -> RuntimeRequest -> Globals -> Completion Response.t * Globals.
Variable ID_Start : ascii -> bool.
Variable ID_Continue : ascii -> bool.

(** The three stages of [SWCTranspiler], each of which may throw. *)
Variable T : Type.
Variable preprocess : string -> M T string.
Variable transpile : string -> M T string.
Variable postprocess : string -> M T string.
Variable object_message : N -> option string.

(** The texts of [.help] and [.info] and the reply to an unknown command. *)
Variable help_text : string.
Variable info_text : string.
Variable unknown_command : string -> string.

(** The body of the [try] block around the transpiler. *)
Definition translate (code : string) : M T string :=
  code <- preprocess code ;;
  code <- transpile code ;;
  postprocess code.

(** From [let hasTLA = false] to the reassignment of [code]. *)
Definition detect_top_level_await (code : string) : string * bool :=
  if StringPrototypeIncludes code "await"
  then (tryProcessTopLevelAwait ID_Start ID_Continue code, true)
  else (code, false).

(** [exit(code)] ends the process: the callers below run nothing after it. *)
Definition exit (code : Z) : M (Repl T) unit := record (process_exit code).

(** The branch [if (singleshotCode)] of [start]. *)
Definition singleshot (singleshotCode : string) (printSingleshot : bool) : M (Repl T) unit :=
  translated <-
    try_catch (code <- on_transpiler (translate singleshotCode) ;; ret (Some code))
      (fun e =>
         console_print (console_error (Some (transpiler_error_text object_message e))) ;;
         exit 1 ;;
         ret None) ;;
  match translated with
  | None => ret tt
  | Some code =>
      let (code, hasTLA) := detect_top_level_await code in
      on_session
        (evaluate_and_print C enableANSIColors utl_inspect bunInspect concat_empty remote
           (fun extraInfo => print_singleshot extraInfo printSingleshot) code hasTLA) ;;
      exit 0
  end.

(** [start] with a truthy [singleshotCode], once the server is ready:
    the branch above inside the [try] block of [start]. *)
Definition start_singleshot (singleshotCode : string) (printSingleshot : bool)
  : M (Repl T) unit :=
  try_catch (singleshot singleshotCode printSingleshot)
    (fun err =>
       console_print (console_error (Some "Internal REPL Error:")) ;;
       record (internal_error err) ;;
       exit 1).

(** The handler of [close]: the write is started, a newline is printed
    and the process ends. *)
Definition on_close : M (Repl T) unit :=
  path <- gets history_path ;;
  lines <- gets history_lines ;;
  record (Bun_write path (history_text lines)) ;;
  console_print (console_log (Some "")) ;;
  exit 0.

(** The handler of [history]. *)
Definition on_history (newHistory : list string) : M (Repl T) unit :=
  modify (set_history_lines newHistory).

Definition prompt : M (Repl T) unit := record rl_prompt.

(** The handler of [line].  [rl.close()] runs the handler of [close],
    which ends the process, so the prompt after the [switch] is not
    reached on [.exit]. *)
Definition on_line (line : string) : M (Repl T) unit :=
  let line := StringTrim line in
  match line with
  | EmptyString => prompt
  | String c _ =>
      if Ascii.eqb c "."
      then
        if String.eqb line ".help"
        then console_print (console_log (Some help_text)) ;; prompt
        else if String.eqb line ".info"
        then console_print (console_log (Some info_text)) ;; prompt
        else if String.eqb line ".clear"
        then record console_clear ;; prompt
        else if String.eqb line ".exit"
        then on_close
        else console_print (console_log (Some (unknown_command line))) ;; prompt
      else
        translated <-
          try_catch (code <- on_transpiler (translate line) ;; ret (Some code))
            (fun e =>
               console_print (console_error (Some (transpiler_error_text object_message e))) ;;
               prompt ;;
               ret None) ;;
        match translated with
        | None => ret tt
        | Some code =>
            let (code, hasTLA) := detect_top_level_await code in
            on_session
              (evaluate_and_print C enableANSIColors utl_inspect bunInspect concat_empty remote
                 print_line code hasTLA) ;;
            prompt
        end
  end.

End Driver.

(** ** The history file *)

Record HistoryData : Type := {
  path : string;
  lines : list string
}.

Definition history_file : string := ".bun_repl_history".

Section History.

(** The file system, as [Bun.file] and [Bun.write] reach it; each
    operation may reject. *)
Variable FS : Type.
Variable file_exists : string -> M FS bool.
Variable Bun_file_write : string -> string -> M FS unit.
Variable file_text : string -> M FS string.

(** [join] of [node:path] and [os.homedir()]. *)
Variable join : list string -> string.
Variable homedir : string.

Definition tryLoadHistory (dir : list string) : M FS (option HistoryData) :=
  let path := join (dir ++ [history_file]) in
  try_catch
    (present <- file_exists path ;;
     (if negb present then Bun_file_write path newline else ret tt) ;;
     text <- file_text path ;;
     ret (Some {| path := path; lines := StringPrototypeSplit text |}))
    (fun _ => ret None).

(** [XDG_DATA_HOME] and [BUN_INSTALL] are the two environment variables. *)
Definition loadHistoryData (XDG_DATA_HOME BUN_INSTALL : option string) : M FS HistoryData :=
  out <- (if truthy_string XDG_DATA_HOME
          then tryLoadHistory [default "" XDG_DATA_HOME; "bun"]
          else ret None) ;;
  match out with
  | Some out => ret out
  | None =>
      out <- (if truthy_string BUN_INSTALL
              then tryLoadHistory [default "" BUN_INSTALL]
              else ret None) ;;
      match out with
      | Some out => ret out
      | None =>
          out <- tryLoadHistory [homedir] ;;
          ret (default {| path := join [homedir; history_file]; lines := [] |} out)
      end
  end.

End History.

(** ** [require] and [require.resolve] *)

(** What the two functions throw: the object literal named
    [ResolveError], or whatever [import.meta.require] threw. *)
Inductive RequireError : Type :=
| ResolveError (message specifier : string)
| Rethrown (e : exn).

Definition ArrayIncludes (l : list string) (x : string) : bool :=
  existsb (String.eqb x) l.

Definition quoted (s : string) : string := String "034" (s ++ String "034" EmptyString).

Section Require.

(** [repl.builtinModules], [Bun.resolveSync], [import.meta.require],
    [process.cwd()], [join] and [resolve] of [node:path],
    [swcrc.filename], and the modules [repl] and [bun]. *)
Variable builtinModules : list string.
Variable resolveSync : string -> string -> Completion string.
Variable import_meta_require : string -> Completion any.
Variable cwd : string.
Variable join : string -> string -> string.
Variable pathresolve : string -> string -> string.
Variable swcrc_filename : string.
Variable repl_module : any.
Variable bun_module : any.

Definition nodePrefixedModules : list string :=
  filter (fun x =>
            negb (match x with String c _ => Ascii.eqb c "_" | EmptyString => false end)
            && negb (StringPrototypeIncludes x ":")
            && negb (ArrayIncludes ["undici"; "ws"; "detect-libc"; "bun"] x))
    builtinModules.

Definition require (moduleID : string) : RequireError + any :=
  let moduleID :=
    if ArrayIncludes nodePrefixedModules moduleID then "node:" ++ moduleID else moduleID in
  if String.eqb moduleID "node:repl" then inr repl_module
  else if String.eqb moduleID "bun" then inr bun_module
  else
    let here := cwd in
    match resolveSync moduleID here with
    | Throw _ =>
        inl (ResolveError
               ("Cannot find module " ++ quoted moduleID ++ " from "
                ++ quoted (join here swcrc_filename))
               moduleID)
    | Normal moduleID =>
        match import_meta_require moduleID with
        | Normal v => inr v
        | Throw err => inl (Rethrown err)
        end
    end.

(** The loop [for (const path of paths)]. *)
Fixpoint resolve_loop (moduleID : string) (paths : list string) : option string :=
  match paths with
  | [] => None
  | path :: paths =>
      match resolveSync moduleID (pathresolve cwd path) with
      | Normal resolved => Some resolved
      | Throw _ => resolve_loop moduleID paths
      end
  end.

(** [require.resolve(moduleID, { paths })]: the result and the array
    [paths] as the call leaves it (an empty array of the caller receives
    ['.']). *)
Definition require_resolve (moduleID : string) (paths : option (list string))
  : (RequireError + string) * list string :=
  let paths := default ["."] paths in
  let paths := if (length paths =? 0)%nat then (paths ++ ["."])%list else paths in
  (match resolve_loop moduleID paths with
   | Some resolved => inr resolved
   | None => inl (ResolveError ("Cannot find module " ++ quoted moduleID) moduleID)
   end,
   paths).

End Require.

(** * Vocabulary of the statements *)

(** ** Correlation layer *)

Section CorrelationInvariant.

Context {Payload Params : Type}.

(** What every reachable state satisfies: a registered callback belongs to
    a pending promise, two entries never share a promise, promises are
    numbered below [created] and the keys of the table are ids that were
    handed out. *)
Definition well_formed (s : @Conn Payload Params) : Prop :=
  (forall n cb, pendingReqs s !! n = Some cb -> promises s !! promise cb = Some Pending)
  /\ (forall n m cb cb', pendingReqs s !! n = Some cb -> pendingReqs s !! m = Some cb' ->
        promise cb = promise cb' -> n = m)
  /\ (forall p, is_Some (promises s !! p) -> (p < created s)%N)
  /\ (forall n, is_Some (pendingReqs s !! n) -> (1 <= n <= reqID s)%N).

(** A pending promise that no entry of the table can settle any more. *)
Definition orphaned (p : N) (s : @Conn Payload Params) : Prop :=
  promises s !! p = Some Pending
  /\ forall n cb, pendingReqs s !! n = Some cb -> promise cb <> p.

End CorrelationInvariant.

(** A connection used in the examples: results are numbers, requests carry
    no parameters, frames arrive as text. *)
Definition quote : string := String "034" EmptyString.

Definition frame_text (id member : string) : string :=
  "{" ++ quote ++ "id" ++ quote ++ ":" ++ id ++ member ++ "}".

Definition result_member (v : string) : string :=
  "," ++ quote ++ "result" ++ quote ++ ":" ++ v.

Definition error_member : string :=
  "," ++ quote ++ "error" ++ quote ++ ":{" ++ quote ++ "message" ++ quote ++ ":"
  ++ quote ++ "boom" ++ quote ++ "}".

Definition boom : ErrorInfo := {| code := None; message := "boom" |}.

(** [JSON.parse] on the frames of the examples; every other text is
    rejected as malformed. *)
Definition example_JSONParse (text : string) : Completion (@ResponseData N) :=
  if String.eqb text (frame_text "1" (result_member "11"))
  then Normal (DObject (IdNumber 1) None (Some 11%N))
  else if String.eqb text (frame_text "2" (result_member "22"))
  then Normal (DObject (IdNumber 2) None (Some 22%N))
  else if String.eqb text (frame_text "1" error_member)
  then Normal (DObject (IdNumber 1) (Some boom) None)
  else if String.eqb text (frame_text "1" "")
  then Normal (DObject (IdNumber 1) None None)
  else if String.eqb text (frame_text "7" (result_member "0"))
  then Normal (DObject (IdNumber 7) None (Some 0%N))
  else Throw (SyntaxError "JSON Parse error").

Definition example_decode (bytes : list Byte.byte) : string :=
  string_of_list_byte bytes.

Definition example_step : Event -> @Conn N unit -> @Conn N unit :=
  step example_decode example_decode example_JSONParse.

Definition example_run : list Event -> @Conn N unit -> @Conn N unit :=
  run example_decode example_decode example_JSONParse.

(** Two calls in flight. *)
Definition two_calls : list (@Event unit) :=
  [Call "Runtime.enable" tt; Call "Runtime.evaluate" tt].

(** The second call is answered first, then a third call is made. *)
Definition answered_out_of_order : list (@Event unit) :=
  two_calls ++ [Inbound (DataString (frame_text "2" (result_member "22")));
                Call "Runtime.callFunctionOn" tt].

(** ** Evaluation *)

(** Whether [eval] awaits the value of the first reply: only a promise
    (an object that is not [null], of class [Promise]) met with
    [topLevelAwaited] set. *)
Definition performs_await (topLevelAwaited : bool) (result : RemoteObject) : bool :=
  topLevelAwaited
  && typeof result type_object
  && negb (subtypeof result subtype_null)
  && is_class result "Promise".

(** The flags after the final step, given the two members of the working
    value: a flag is raised when its member is set and left alone
    otherwise. *)
Definition raised (thrown rejected : option bool) (e : ExtraOut) : ExtraOut :=
  {| errored := if truthy_bool thrown then Some true else errored e;
     noPrintError := if truthy_bool rejected then Some true else noPrintError e |}.

Definition is_callFunctionOn (r : RuntimeRequest) : bool :=
  match r with
  | Runtime_callFunctionOn _ _ _ => true
  | _ => false
  end.

(** The setting of the examples. *)
Definition escape (code : string) : string := String "027" ("[" ++ code ++ "m").

Definition example_colors : Colors :=
  {| red := escape "31"; yellow := escape "33"; dim := escape "2"; reset := escape "0" |}.

(** An inspector that prints the primitive values of the examples. *)
Definition example_inspect (v : any) (opts : InspectOptions) : Completion string :=
  match v with
  | JSBigInt z =>
      Normal ((if (z <? 0)%Z then "-" else "") ++ decimal (Z.abs_N z) ++ "n")
  | JSString s => Normal s
  | JSUndefined => Normal "undefined"
  | _ => Throw (TypeError "cannot inspect")
  end.

Definition example_native_inspect (v : any) (opts : InspectOptions) : Completion string :=
  match v with
  | JSNull => Normal "null"
  | _ => Throw (TypeError "native inspect failed")
  end.

(** [v + '']: objects of the examples have no usable conversion. *)
Definition example_concat_empty (v : any) : Completion any :=
  match v with
  | JSString s => Normal (JSString s)
  | JSBoolean true => Normal (JSString "true")
  | JSBoolean false => Normal (JSString "false")
  | _ => Throw (TypeError "No default value")
  end.

(** A remote end that answers the k-th request of a session with the k-th
    entry of a script and leaves the global object alone. *)
Definition scripted (answers : list Response.t)
  : list RuntimeRequest -> RuntimeRequest -> Globals -> Completion Response.t * Globals :=
  fun history _ g =>
    match answers !! length history with
    | Some a => (Normal a, g)
    | None => (Throw (ErrorWith None "connection closed"), g)
    end.

Definition primitive (t : RemoteObjectType) (d : option string) (v : option string)
  : RemoteObject :=
  {| type := t; subtype := None; objectId := None; className := None;
     description := d; preview := None; value := v;
     wasThrown := None; wasRejectedPromise := None |}.

Definition promise_object (id status : string) : RemoteObject :=
  {| type := type_object; subtype := None; objectId := Some id;
     className := Some "Promise"; description := Some "Promise";
     preview := Some {| properties :=
                          Some [ {| PropertyPreview.name := "status";
                                    PropertyPreview.value := Some status |} ] |};
     value := None; wasThrown := None; wasRejectedPromise := None |}.

Definition error_object (id : string) : RemoteObject :=
  {| type := type_object; subtype := Some subtype_error; objectId := Some id;
     className := Some "Error"; description := Some "Error: x";
     preview := None; value := None; wasThrown := None; wasRejectedPromise := None |}.

Definition reply (o : RemoteObject) (thrown : bool) : Response.t :=
  {| Response.result := o; Response.wasThrown := Some thrown |}.

Definition fresh_globals : Globals :=
  {| underscore := JSUndefined; underscore_error := JSUndefined;
     bunReplInternals := false; writer_options := None |}.

Definition fresh_session : Session :=
  {| globalObjectID := "global"; GLOBAL := fresh_globals; issued := [];
     out := []; extraOut := Some fresh_extraInfo |}.

Definition example_eval (answers : list Response.t) : string -> bool -> M Session (option string) :=
  eval example_colors false example_inspect example_native_inspect example_concat_empty
    (scripted answers).

(** [123n] *)
Definition bigint_script : list Response.t :=
  [reply (primitive type_bigint (Some "123n") None) false].

(** [throw 5n] *)
Definition thrown_bigint_script : list Response.t :=
  [reply (primitive type_bigint (Some "5n") None) true].

(** [await Promise.reject('boom')]: the first reply is the promise, not
    thrown; the awaited reply is the reason, thrown. *)
Definition rejected_await_script : list Response.t :=
  [reply (promise_object "p1" "rejected") false;
   reply (primitive type_string None (Some "boom")) true;
   reply (primitive type_string None (Some "'boom'")) false].

(** [Promise.reject('boom')] without [await]. *)
Definition rejected_promise_script : list Response.t :=
  [reply (promise_object "p1" "rejected") false;
   reply (primitive type_string None (Some "Promise { <rejected> 'boom' }")) false].

(** [throw new Error('x')] *)
Definition thrown_error_script : list Response.t :=
  [reply (error_object "e1") true;
   reply (primitive type_string None (Some "error: x")) false].

(** [throw 'x'] *)
Definition thrown_string_script : list Response.t :=
  [reply (primitive type_string None (Some "x")) true;
   reply (primitive type_string None (Some "'x'")) false].

(** ** The rewrite *)

Fixpoint all_whitespace (s : string) : bool :=
  match s with
  | EmptyString => true
  | String c r => is_whitespace c && all_whitespace r
  end.

(** A string that holds no line feed. *)
Fixpoint single_line (s : string) : bool :=
  match s with
  | EmptyString => true
  | String c r => negb (Ascii.eqb c "010") && single_line r
  end.

Section DeclarationGrammar.

Variable ID_Start : ascii -> bool.
Variable ID_Continue : ascii -> bool.

Definition is_keyword (k : string) : Prop := k = "var" \/ k = "let" \/ k = "const".

(** The part of an identifier after its first character or escape. *)
Inductive name_tail : string -> Prop :=
| name_tail_end : name_tail EmptyString
| name_tail_char c t :
    continue_char ID_Continue c = true -> name_tail t -> name_tail (String c t)
| name_tail_escape a b c d t :
    is_hex a && is_hex b && is_hex c && is_hex d = true ->
    name_tail t -> name_tail (escape_text a b c d ++ t).

(** An identifier as the pattern [varname] describes it. *)
Inductive identifier : string -> Prop :=
| identifier_char c t :
    start_char ID_Start c = true -> name_tail t -> identifier (String c t)
| identifier_escape a b c d t :
    is_hex a && is_hex b && is_hex c && is_hex d = true ->
    name_tail t -> identifier (escape_text a b c d ++ t).

(** The text after a name does not continue it. *)
Definition name_ends (rest : string) : Prop :=
  match rest with
  | EmptyString => True
  | String c _ => continue_char ID_Continue c = false /\ unicode_escape rest = None
  end.

(** A declaration form [var|let|const <identifier>] starts the text. *)
Definition declaration_at (s : string) : Prop :=
  exists kw ws name rest,
    s = kw ++ ws ++ name ++ rest
    /\ is_keyword kw /\ ws <> EmptyString /\ all_whitespace ws = true /\ identifier name.

(** [Hoisted text hoisted transformed]: reading [text] from left to
    right, every declaration form is replaced by its identifier in
    [transformed] and re-declared in [hoisted], [const] becoming [let];
    every other character is copied. *)
Inductive Hoisted : string -> string -> string -> Prop :=
| Hoisted_end : Hoisted EmptyString EmptyString EmptyString
| Hoisted_copy c s h t :
    ~ declaration_at (String c s) ->
    Hoisted s h t ->
    Hoisted (String c s) h (String c t)
| Hoisted_declaration kw ws name rest h t :
    is_keyword kw -> ws <> EmptyString -> all_whitespace ws = true ->
    identifier name -> name_ends rest ->
    Hoisted rest h t ->
    Hoisted (kw ++ ws ++ name ++ rest)
      ((if String.eqb kw "const" then "let" else kw) ++ " " ++ name ++ ";" ++ h)
      (name ++ t).

End DeclarationGrammar.

(** ** Further settings of the examples *)

(** One call, answered, and the same answer delivered again. *)
Definition reply_11 : WsData := DataString (frame_text "1" (result_member "11")).

Definition unknown_reply : WsData := DataString (frame_text "7" (result_member "0")).

(** The request of the secondary render call for a working value. *)
Definition render_request (enableANSIColors : bool) (remoteObj : RemoteObject) (s : Session)
  : RuntimeRequest :=
  Runtime_callFunctionOn (globalObjectID s)
    {| decl_wasThrown := wasThrown remoteObj;
       decl_subtype_is_error := subtypeof remoteObj subtype_error;
       decl_colors := enableANSIColors |}
    [remoteObj].

Definition is_awaitPromise (r : RuntimeRequest) : bool :=
  match r with
  | Runtime_awaitPromise _ _ => true
  | _ => false
  end.

(** The description the inspector gives of a bigint: its decimal digits,
    a minus sign in front when it is negative, and the suffix [n]. *)
Definition bigint_description (z : Z) : string :=
  (if (z <? 0)%Z then "-" else "") ++ decimal (Z.abs_N z) ++ "n".

Definition is_decimal_digit (c : ascii) : bool :=
  let n := N_of_ascii c in ((48 <=? n) && (n <=? 57))%N.

Fixpoint all_decimal_digits (s : string) : bool :=
  match s with
  | EmptyString => true
  | String c r => is_decimal_digit c && all_decimal_digits r
  end.

(** [null] *)
Definition null_object : RemoteObject :=
  {| type := type_object; subtype := Some subtype_null; objectId := None; className := None;
     description := None; preview := None; value := Some "null";
     wasThrown := None; wasRejectedPromise := None |}.

Definition null_script : list Response.t :=
  [reply null_object false;
   reply (primitive type_string None (Some "null")) false].

(** A reply that names an object and carries no object id. *)
Definition anonymous_object : RemoteObject :=
  {| type := type_object; subtype := None; objectId := None; className := Some "Object";
     description := Some "Object"; preview := None; value := None;
     wasThrown := None; wasRejectedPromise := None |}.

Definition anonymous_object_script : list Response.t := [reply anonymous_object false].

(** [throw new Error('x')] where the render call itself throws. *)
Definition failed_render_script : list Response.t :=
  [reply (error_object "e1") true;
   reply (primitive type_string None (Some "boom")) true].

(** [await f()] where the promise is fulfilled with [undefined]. *)
Definition awaited_undefined_script : list Response.t :=
  [reply (promise_object "p1" "fulfilled") false;
   reply (primitive type_undefined None None) false;
   reply (primitive type_string None (Some "undefined")) false].

(** No position of the text starts with [var], [let] or [const]. *)
Fixpoint no_keyword (s : string) : bool :=
  match s with
  | EmptyString => true
  | String c r =>
      match keyword_at s with
      | Some _ => false
      | None => no_keyword r
      end
  end.

(** *** The driver of the examples *)

(** A transpiler without state that rejects every text holding [#]. *)
Definition example_transpile (code : string) : M unit string :=
  if StringPrototypeIncludes code "#"
  then throw (SyntaxError ("Unexpected token" ++ caused_by ++ "0: failed to parse"))
  else ret code.

Definition example_on_line (answers : list Response.t) : string -> M (Repl unit) unit :=
  on_line example_colors false example_inspect example_native_inspect example_concat_empty
    (scripted answers) latin1_ID_Start latin1_ID_Continue unit ret example_transpile ret
    (fun _ => None) "Commands & keybinds" "Running on Bun"
    (fun line => "Unknown REPL command " ++ line).

Definition fresh_repl : Repl unit :=
  {| session := fresh_session; transpiler := tt;
     history_path := "/home/user/.bun_repl_history";
     history_lines := [".exit"; "1 + 1"]; terminal := [] |}.

(** *** A file system for the examples *)

Definition example_FS : Type := list (string * string).

Definition example_lookup (p : string) (fs : example_FS) : option string :=
  snd <$> List.find (fun f => String.eqb (fst f) p) fs.

Definition example_file_exists (p : string) : M example_FS bool :=
  gets (fun fs => match example_lookup p fs with Some _ => true | None => false end).

Definition example_file_write (p text : string) : M example_FS unit :=
  modify (fun fs => (p, text) :: fs).

Definition example_file_text (p : string) : M example_FS string :=
  fun fs =>
    match example_lookup p fs with
    | Some text => (Normal text, fs)
    | None => (Throw (ErrorWith (Some "ENOENT") "No such file or directory"), fs)
    end.

Definition example_join (parts : list string) : string := String.concat "/" parts.

Definition typed_lines : list string := ["let x = 2"; ".exit"; "1 + 1"].

Definition example_disk : example_FS :=
  [("/home/user/.bun_repl_history", history_text typed_lines)].

(** *** Modules of the examples *)

Definition example_builtinModules : list string :=
  ["fs"; "repl"; "bun"; "node:path"; "_stream_wrap"; "bun:sqlite"].

Definition example_resolveSync (moduleID from : string) : Completion string :=
  if String.eqb moduleID "left-pad" && String.eqb from "/work/lib"
  then Normal "/work/lib/node_modules/left-pad/index.js"
  else Throw (ErrorWith None "Cannot find module").

Definition example_pathresolve (base p : string) : string :=
  if String.eqb p "." then base else base ++ "/" ++ p.

Definition example_require : string -> RequireError + any :=
  require example_builtinModules example_resolveSync (fun _ => Normal (JSObject 1))
    "/work" (fun a b => a ++ "/" ++ b) "$bun$repl.ts" (JSObject 2) (JSObject 3).

(** A native inspector that fails on the options [SafeInspect] never
    passes to it. *)
Definition strict_native_inspect (v : any) (opts : InspectOptions) : Completion string :=
  match depth opts, sorted opts with
  | DepthNull, _ | _, SortedFunction => Throw (TypeError "unsupported options")
  | _, _ => example_native_inspect v opts
  end.

(** * Properties *)

(** ** The monad *)

Lemma bind_normal {W A B} (m : M W A) (k : A -> M W B) w a w' :
  m w = (Normal a, w') -> bind m k w = k a w'.
Proof. intros H. unfold bind. now rewrite H. Qed.

Lemma bind_throw {W A B} (m : M W A) (k : A -> M W B) w e w' :
  m w = (Throw e, w') -> bind m k w = (Throw e, w').
Proof. intros H. unfold bind. now rewrite H. Qed.

Lemma try_catch_total {W A} (m : M W A) (h : exn -> M W A) w :
  (forall e w', exists a w'', h e w' = (Normal a, w'')) ->
  exists a w', try_catch m h w = (Normal a, w').
Proof.
  intros Hh. unfold try_catch.
  destruct (m w) as [[a|e] w']; [now exists a, w' | apply Hh].
Qed.

(** ** The inspection fallback chain *)

Section InspectionFacts.

Variable C : Colors.
Variable utl_inspect : any -> InspectOptions -> Completion string.
Variable bunInspect : any -> InspectOptions -> Completion string.
Variable concat_empty : any -> Completion any.

Local Abbreviation SafeInspect' := (SafeInspect C utl_inspect bunInspect concat_empty).

(** The last resort cannot fail: whatever the coercion does, the handler
    of the outer [catch] completes normally. *)
Lemma last_resort_total (val : any) (out : Console) :
  exists text,
    try_catch
      (modify (emit (console_warn (inspection_failed_warning C))) ;;
       str <- lift (concat_empty val) ;;
       ret (match str with JSString s => s | _ => "" end))
      (fun _ => ret "") out
    = (Normal text, emit (console_warn (inspection_failed_warning C)) out)
    /\ text = match concat_empty val with
              | Normal (JSString s) => s
              | _ => ""
              end.
Proof.
  unfold try_catch, bind, modify, lift, ret.
  destruct (concat_empty val) as [v|e]; eauto.
Qed.

(** C8.  [SafeInspect] completes normally on every value and every
    options object, whatever the inspectors and the coercion do: it
    returns the text of the primary inspector when that one succeeds;
    otherwise the text of the native inspector (run on the adjusted
    options) when that one succeeds; otherwise, after one warning, the
    result of the coercion [val + ''] when it is a string, and the empty
    string when the coercion yields something else or throws. *)
Theorem SafeInspect_never_raises (val : any) (opts : InspectOptions) (out : Console) :
  exists text out',
    SafeInspect' val opts out = (Normal text, out')
    /\ match utl_inspect val opts with
       | Normal primary => text = primary /\ out' = out
       | Throw _ =>
           match bunInspect val (native_options opts) with
           | Normal secondary => text = secondary /\ out' = out
           | Throw _ =>
               out' = emit (console_warn (inspection_failed_warning C)) out
               /\ text = match concat_empty val with
                         | Normal (JSString s) => s
                         | _ => ""
                         end
           end
       end.
Proof.
  unfold SafeInspect.
  destruct (utl_inspect val opts) as [primary|e1] eqn:H1.
  - exists primary, out. unfold try_catch, lift. auto.
  - destruct (bunInspect val (native_options opts)) as [secondary|e2] eqn:H2.
    + exists secondary, out. unfold try_catch at 1 2, lift. auto.
    + destruct (last_resort_total val out) as (text & Hrun & Htext).
      exists text, (emit (console_warn (inspection_failed_warning C)) out).
      split; [|now split].
      unfold try_catch at 1 2, lift. exact Hrun.
Qed.

Lemma SafeInspect_never_fails (val : any) (opts : InspectOptions) (out : Console) :
  exists text out', SafeInspect' val opts out = (Normal text, out').
Proof.
  unfold SafeInspect. apply try_catch_total. intros e w'.
  destruct (last_resort_total val w') as (text & Hrun & _). eauto.
Qed.

End InspectionFacts.

(** ** The correlation layer *)

Section CorrelationFacts.

Context {Payload Params : Type}.
Variable TextDecoder_decode : list Byte.byte -> string.
Variable BufferToString : list Byte.byte -> string.
Variable JSONParse : string -> Completion (@ResponseData Payload).

Local Abbreviation onmessage' := (onmessage TextDecoder_decode BufferToString JSONParse).
Local Abbreviation step' := (step TextDecoder_decode BufferToString JSONParse).
Local Abbreviation run' := (run TextDecoder_decode BufferToString JSONParse).
Local Abbreviation allocated' := (allocated TextDecoder_decode BufferToString JSONParse).
Local Abbreviation reachable' := (reachable TextDecoder_decode BufferToString JSONParse).
Local Abbreviation decode' := (wsDataToString TextDecoder_decode BufferToString).
Local Abbreviation State := (@Conn Payload Params).

Implicit Types (s : State) (n m p : N) (cb : JSCResponsePromiseCallbacks).

Ltac unfold_handler :=
  unfold onmessage, try_catch, bind, lift, throw, gets, modify, ret,
    reject, resolve, settle, MapGet, MapDelete.

(** *** What one call does *)

Lemma request_unfold (method : string) (params : Params) s :
  request method params s =
  (Normal (created s),
   {| reqID := number_increment (reqID s);
      pendingReqs := <[number_increment (reqID s) := {| promise := created s |}]> (pendingReqs s);
      promises := <[created s := Pending]> (promises s);
      created := N.succ (created s);
      sent := (sent s ++ [ {| req_id := number_increment (reqID s);
                              req_method := method; req_params := params |} ])%list;
      console := console s |}).
Proof. reflexivity. Qed.

Lemma number_increment_ge n : (n <= number_increment n)%N.
Proof. unfold number_increment. destruct (N.ltb_spec n MAX_EXACT); lia. Qed.

Lemma number_increment_exact n : (n < MAX_EXACT)%N -> number_increment n = (n + 1)%N.
Proof. unfold number_increment. destruct (N.ltb_spec n MAX_EXACT); lia. Qed.

Lemma number_increment_pos n : (1 <= number_increment n)%N.
Proof.
  unfold number_increment, MAX_EXACT.
  destruct (N.ltb_spec n (2 ^ 53)%N); [lia|].
  assert (1 <= 2 ^ 53)%N by (apply N.lt_pred_le; reflexivity). lia.
Qed.

(** At [2^53] the counter stops moving. *)
Example number_increment_saturates : number_increment MAX_EXACT = MAX_EXACT.
Proof. reflexivity. Qed.

(** *** What one inbound frame does *)

(** The handler never lets an exception escape. *)
Lemma onmessage_normal (d : WsData) s : fst (onmessage' d s) = Normal tt.
Proof.
  unfold_handler.
  destruct (JSONParse (decode' d)) as [[| |[n|x] e r]|err]; simpl; try reflexivity.
  - destruct (pendingReqs s !! n) as [cb|]; simpl; [|reflexivity].
    destruct e as [e|], r as [r|]; reflexivity.
Qed.

(** A frame that decodes to nothing, or whose id finds no entry, is
    logged: one line on the console and no other change. *)
Lemma onmessage_unmatched (d : WsData) s :
  match JSONParse (decode' d) with
  | Normal (DObject id _ _) => MapGet (pendingReqs s) id = None
  | _ => True
  end ->
  exists err,
    snd (onmessage' d s) = set_console (emit (ws_message_error err (decode' d)) (console s)) s.
Proof.
  unfold_handler.
  destruct (JSONParse (decode' d)) as [[| |[n|x] e r]|err]; simpl; intros H; eauto.
  rewrite H. simpl. eauto.
Qed.

(** A reply with a result or an error whose id finds an entry: the entry
    leaves the table and its promise is settled. *)
Lemma onmessage_matched (d : WsData) s n cb e r :
  JSONParse (decode' d) = Normal (DObject (IdNumber n) e r) ->
  pendingReqs s !! n = Some cb ->
  promises s !! promise cb = Some Pending ->
  is_Some e \/ is_Some r ->
  snd (onmessage' d s) =
  set_promises
    (<[promise cb := match e, r with
                     | Some err, _ => Rejected err
                     | None, Some v => Fulfilled v
                     | None, None => Pending
                     end]> (promises s))
    (set_pendingReqs (delete n (pendingReqs s)) s).
Proof.
  intros Hd Hn Hp Her. unfold_handler. rewrite Hd. simpl. rewrite Hn. simpl.
  destruct e as [err|], r as [v|]; simpl; rewrite ?Hp; try reflexivity.
  destruct Her as [[? H]|[? H]]; discriminate H.
Qed.

(** A frame with neither member whose id finds an entry: the entry leaves
    the table all the same, and its promise is left as it was. *)
Lemma onmessage_bare (d : WsData) s n cb :
  JSONParse (decode' d) = Normal (DObject (IdNumber n) None None) ->
  pendingReqs s !! n = Some cb ->
  snd (onmessage' d s) =
  set_console
    (emit (ws_message_error
             (ThrownValue (JSString ("Received response with no result or error: " ++ decimal n)))
             (decode' d)) (console s))
    (set_pendingReqs (delete n (pendingReqs s)) s).
Proof.
  intros Hd Hn. unfold_handler. rewrite Hd. simpl. rewrite Hn. reflexivity.
Qed.

(** *** The invariant *)

Lemma well_formed_initial : well_formed (@initial Payload Params).
Proof.
  unfold well_formed, initial; simpl.
  split; [|split; [|split]].
  - intros n cb. rewrite lookup_empty. discriminate.
  - intros n m cb cb'. rewrite lookup_empty. discriminate.
  - intros p. rewrite lookup_empty. intros [? ?]. discriminate.
  - intros n. rewrite lookup_empty. intros [? ?]. discriminate.
Qed.

Lemma well_formed_request (method : string) (params : Params) s :
  well_formed s -> well_formed (snd (request method params s)).
Proof.
  intros (Hpend & Hinj & Hcre & Hkeys). rewrite request_unfold. simpl.
  assert (Hfresh : promises s !! created s = None).
  { destruct (promises s !! created s) eqn:E; [|reflexivity].
    assert (created s < created s)%N by (apply Hcre; eauto). lia. }
  assert (Hold : forall k cb, pendingReqs s !! k = Some cb -> promise cb <> created s).
  { intros k cb Hk Heq. apply Hpend in Hk. rewrite Heq in Hk. congruence. }
  unfold well_formed; simpl.
  split; [|split; [|split]].
  - intros k cb. rewrite lookup_insert. case_decide as Hk.
    + intros [= <-]. simpl. apply lookup_insert_eq.
    + intros Hcb. rewrite lookup_insert_ne by (apply not_eq_sym; eauto). eauto.
  - intros k1 k2 cb1 cb2. rewrite !lookup_insert.
    case_decide as H1; case_decide as H2; subst; intros Ha Hb Heq.
    + congruence.
    + injection Ha as <-. simpl in Heq. symmetry in Heq. exfalso. eapply Hold; eauto.
    + injection Hb as <-. simpl in Heq. exfalso. eapply Hold; eauto.
    + eauto.
  - intros p. rewrite lookup_insert. case_decide; subst; [lia|].
    intros Hp. apply Hcre in Hp. lia.
  - intros k [cb H]. revert H. rewrite lookup_insert. case_decide; subst.
    + intros _. split; [apply number_increment_pos | lia].
    + intros Hk. pose proof (number_increment_ge (reqID s)).
      assert (1 <= k <= reqID s)%N by (apply Hkeys; eauto). lia.
Qed.

Lemma well_formed_console (c : Console) s : well_formed s -> well_formed (set_console c s).
Proof. auto. Qed.

(** Removing an entry and, possibly, settling its promise. *)
Lemma well_formed_delete s n cb (st : option PromiseState) :
  well_formed s ->
  pendingReqs s !! n = Some cb ->
  well_formed
    (set_promises (match st with
                   | Some x => <[promise cb := x]> (promises s)
                   | None => promises s
                   end)
       (set_pendingReqs (delete n (pendingReqs s)) s)).
Proof.
  intros (Hpend & Hinj & Hcre & Hkeys) Hn. unfold well_formed; simpl.
  split; [|split; [|split]].
  - intros k cb' Hk. apply lookup_delete_Some in Hk as [Hne Hk].
    assert (promise cb' <> promise cb) by (intros Heq; apply Hne; eauto).
    destruct st; [rewrite lookup_insert_ne by auto|]; eauto.
  - intros k1 k2 cb1 cb2 H1 H2.
    apply lookup_delete_Some in H1 as [_ H1]. apply lookup_delete_Some in H2 as [_ H2]. eauto.
  - intros p Hp. destruct st; [|eauto].
    revert Hp. rewrite lookup_insert. case_decide; subst; [|eauto].
    intros _. apply Hcre. rewrite (Hpend _ _ Hn). eauto.
  - intros k [cb' Hk]. apply lookup_delete_Some in Hk as [_ Hk]. eauto.
Qed.

Lemma well_formed_onmessage (d : WsData) s :
  well_formed s -> well_formed (snd (onmessage' d s)).
Proof.
  intros Hwf.
  destruct (JSONParse (decode' d)) as [[| |[n|x] e r]|err] eqn:Hd;
    try (destruct (onmessage_unmatched d s) as [? ->];
         [rewrite Hd; first [exact I | reflexivity] | now apply well_formed_console]).
  destruct (pendingReqs s !! n) as [cb|] eqn:Hn.
  - destruct e as [e|]; [|destruct r as [r|]].
    + rewrite (onmessage_matched d s n cb (Some e) r Hd Hn); eauto.
      * apply (well_formed_delete s n cb (Some (Rejected e))); auto.
      * destruct Hwf as (Hpend & _); eauto.
    + rewrite (onmessage_matched d s n cb None (Some r) Hd Hn); eauto.
      * apply (well_formed_delete s n cb (Some (Fulfilled r))); auto.
      * destruct Hwf as (Hpend & _); eauto.
    + rewrite (onmessage_bare d s n cb Hd Hn).
      apply well_formed_console. apply (well_formed_delete s n cb None); auto.
  - destruct (onmessage_unmatched d s) as [? ->];
      [rewrite Hd; exact Hn | now apply well_formed_console].
Qed.

Lemma well_formed_step (ev : @Event Params) s : well_formed s -> well_formed (step' ev s).
Proof.
  destruct ev; simpl; [apply well_formed_request | apply well_formed_onmessage].
Qed.

Lemma reachable_well_formed s : reachable' s -> well_formed s.
Proof.
  induction 1; [apply well_formed_initial | now apply well_formed_step].
Qed.

Lemma reachable_run (evs : list (@Event Params)) s : reachable' s -> reachable' (run' evs s).
Proof.
  revert s. induction evs as [|ev evs IH]; intros s Hs; simpl; [assumption|].
  apply IH. now constructor.
Qed.

(** C1.  In any state the layer can reach, a reply that carries a result
    or an error and whose id [n] has an entry [cb] in the table settles
    the promise of [cb] and no other: rejected with the frame's error when
    an [error] member is present, fulfilled with the frame's result
    otherwise.  The entry of [n] leaves the table; every other entry stays
    and its promise stays pending.  The state is arbitrary, so the order
    in which the calls were made plays no part. *)
Theorem reply_completes_exactly_the_registered_call
  (d : WsData) s n cb (e : option ErrorInfo) (r : option Payload) :
  reachable' s ->
  JSONParse (decode' d) = Normal (DObject (IdNumber n) e r) ->
  is_Some e \/ is_Some r ->
  pendingReqs s !! n = Some cb ->
  let s' := snd (onmessage' d s) in
  (forall err, e = Some err ->
     promises s' !! promise cb = Some (Rejected err)
     /\ @response_of Payload (Rejected err) = Some (Throw (ErrorWith (code err) (message err))))
  /\ (e = None -> forall v, r = Some v ->
       promises s' !! promise cb = Some (Fulfilled v)
       /\ response_of (Fulfilled v) = Some (Normal v))
  /\ pendingReqs s' !! n = None
  /\ (forall m cb', m <> n -> pendingReqs s !! m = Some cb' ->
       pendingReqs s' !! m = Some cb' /\ promises s' !! promise cb' = Some Pending)
  /\ (forall p, p <> promise cb -> promises s' !! p = promises s !! p).
Proof.
  intros Hreach Hd Her Hn s'.
  pose proof (reachable_well_formed s Hreach) as (Hpend & Hinj & _).
  assert (Hs' : s' = set_promises
                      (<[promise cb := match e, r with
                                       | Some err, _ => Rejected err
                                       | None, Some v => Fulfilled v
                                       | None, None => Pending
                                       end]> (promises s))
                      (set_pendingReqs (delete n (pendingReqs s)) s)).
  { subst s'. apply onmessage_matched; eauto. }
  rewrite Hs'. simpl. repeat split.
  - subst e. apply lookup_insert_eq.
  - subst e r. apply lookup_insert_eq.
  - apply lookup_delete_eq.
  - rewrite lookup_delete_ne by auto. assumption.
  - rewrite lookup_insert_ne; [eauto|].
    intros Heq. apply H. symmetry. eapply Hinj; eauto.
  - intros p Hp. now rewrite lookup_insert_ne by auto.
Qed.

(** *** Promises nothing can settle *)

Lemma orphaned_step (ev : @Event Params) s p :
  well_formed s -> orphaned p s -> orphaned p (step' ev s).
Proof.
  intros Hwf [Hp Hno]. pose proof Hwf as (Hpend & Hinj & Hcre & Hkeys).
  destruct ev as [method params|d]; unfold step.
  - rewrite request_unfold. unfold orphaned; simpl.
    assert (p <> created s).
    { intros ->. assert (created s < created s)%N by (apply Hcre; eauto). lia. }
    split.
    + now rewrite lookup_insert_ne by auto.
    + intros k cb. rewrite lookup_insert. case_decide.
      * intros [= <-]. simpl. auto.
      * eauto.
  - destruct (JSONParse (decode' d)) as [[| |[n|x] e r]|err] eqn:Hd;
      try (destruct (onmessage_unmatched d s) as [? ->];
           [rewrite Hd; first [exact I | reflexivity] | split; simpl; eauto]).
    destruct (pendingReqs s !! n) as [cb|] eqn:Hn.
    + assert (Hsub : forall k cb', delete n (pendingReqs s) !! k = Some cb' -> promise cb' <> p).
      { intros k cb' Hk. apply lookup_delete_Some in Hk as [_ Hk]. eauto. }
      assert (promise cb <> p) by eauto.
      destruct e as [e|]; [|destruct r as [r|]].
      * rewrite (onmessage_matched d s n cb (Some e) r Hd Hn); eauto.
        split; simpl; [now rewrite lookup_insert_ne by auto | exact Hsub].
      * rewrite (onmessage_matched d s n cb None (Some r) Hd Hn); eauto.
        split; simpl; [now rewrite lookup_insert_ne by auto | exact Hsub].
      * rewrite (onmessage_bare d s n cb Hd Hn). split; simpl; [assumption | exact Hsub].
    + destruct (onmessage_unmatched d s) as [? ->];
        [rewrite Hd; exact Hn | split; simpl; eauto].
Qed.

(** An orphaned promise stays pending whatever happens next. *)
Lemma orphaned_forever (evs : list (@Event Params)) s p :
  well_formed s -> orphaned p s -> promises (run' evs s) !! p = Some Pending.
Proof.
  revert s. induction evs as [|ev evs IH]; intros s Hwf Ho; simpl.
  - apply Ho.
  - apply IH; [now apply well_formed_step | now apply orphaned_step].
Qed.

(** A frame with neither [result] nor [error] orphans the call it names. *)
Lemma bare_reply_orphans (d : WsData) s n cb :
  well_formed s ->
  JSONParse (decode' d) = Normal (DObject (IdNumber n) None None) ->
  pendingReqs s !! n = Some cb ->
  orphaned (promise cb) (snd (onmessage' d s)).
Proof.
  intros (Hpend & Hinj & _) Hd Hn. rewrite (onmessage_bare d s n cb Hd Hn).
  split; simpl; [eauto|].
  intros k cb' Hk Heq. apply lookup_delete_Some in Hk as [Hne Hk].
  apply Hne. eapply Hinj; eauto.
Qed.

(** *** Request ids *)

Lemma onmessage_reqID (d : WsData) s : reqID (snd (onmessage' d s)) = reqID s.
Proof.
  unfold_handler.
  destruct (JSONParse (decode' d)) as [[| |[n|x] e r]|err]; simpl; try reflexivity.
  destruct (pendingReqs s !! n) as [cb|]; simpl; [|reflexivity].
  destruct e as [e|], r as [r|]; simpl; try reflexivity;
    destruct (promises s !! promise cb) as [[| |]|]; reflexivity.
Qed.

Lemma onmessage_pending_subset (d : WsData) s k cb :
  pendingReqs (snd (onmessage' d s)) !! k = Some cb -> pendingReqs s !! k = Some cb.
Proof.
  unfold_handler.
  destruct (JSONParse (decode' d)) as [[| |[n|x] e r]|err]; simpl; try tauto.
  destruct (pendingReqs s !! n) as [cb0|]; simpl; [|tauto].
  assert (delete n (pendingReqs s) !! k = Some cb -> pendingReqs s !! k = Some cb)
    by (intros H; now apply lookup_delete_Some in H).
  destruct e as [e|], r as [r|]; simpl; try assumption;
    destruct (promises s !! promise cb0) as [[| |]|]; assumption.
Qed.

Lemma run_snoc (evs : list (@Event Params)) (ev : @Event Params) s :
  run' (evs ++ [ev]) s = step' ev (run' evs s).
Proof. unfold run. now rewrite fold_left_app. Qed.

Lemma allocated_snoc (evs : list (@Event Params)) (ev : @Event Params) s :
  allocated' (evs ++ [ev]) s =
  (allocated' evs s ++ match ev with
                       | Call _ _ => [reqID (step' ev (run' evs s))]
                       | Inbound _ => []
                       end)%list.
Proof.
  revert s. induction evs as [|ev' evs IH]; intros s; simpl.
  - now rewrite app_nil_r.
  - rewrite IH. now rewrite <- app_assoc.
Qed.

Lemma reqID_step_ge (ev : @Event Params) s : (reqID s <= reqID (step' ev s))%N.
Proof.
  destruct ev as [method params|d]; unfold step.
  - rewrite request_unfold. simpl. apply number_increment_ge.
  - rewrite onmessage_reqID. lia.
Qed.

Lemma seq_numbers_bounds (a k : nat) n :
  n ∈ (N.of_nat <$> seq a k) -> (N.of_nat a <= n < N.of_nat (a + k))%N.
Proof.
  intros H. apply list_elem_of_fmap in H as (i & -> & Hi).
  apply elem_of_seq in Hi. lia.
Qed.

Lemma seq_numbers_sorted (a k : nat) : StronglySorted N.lt (N.of_nat <$> seq a k).
Proof.
  revert a. induction k as [|k IH]; intros a; simpl; constructor.
  - apply IH.
  - apply Forall_forall. intros n Hn. apply seq_numbers_bounds in Hn. lia.
Qed.

(** The counter never exceeds the number of events of the run, so it
    stays below [2^53] on every run shorter than that. *)
Lemma reqID_bounded_by_events (evs : list (@Event Params)) :
  (reqID (run' evs initial) <= N.of_nat (length evs))%N.
Proof.
  induction evs as [|ev evs IH] using rev_ind; [simpl; lia|].
  rewrite run_snoc, length_app. simpl.
  destruct ev as [method params|d]; unfold step.
  - rewrite request_unfold. simpl. unfold number_increment.
    destruct (N.ltb_spec (reqID (run' evs initial)) MAX_EXACT); lia.
  - rewrite onmessage_reqID. lia.
Qed.

(** While the counter is below [2^53], the ids handed out so far are
    1, 2, ..., [reqID], and every key of the table is one of them. *)
Lemma allocated_exact (evs : list (@Event Params)) :
  (reqID (run' evs initial) < MAX_EXACT)%N ->
  reqID (run' evs initial) = N.of_nat (length (allocated' evs initial))
  /\ allocated' evs initial = N.of_nat <$> seq 1 (length (allocated' evs initial))
  /\ forall k, is_Some (pendingReqs (run' evs initial) !! k) -> k ∈ allocated' evs initial.
Proof.
  induction evs as [|ev evs IH] using rev_ind.
  - intros _. simpl. repeat split. intros k [cb H]. rewrite lookup_empty in H. discriminate.
  - rewrite run_snoc, allocated_snoc. intros Hlt.
    pose proof (reqID_step_ge ev (run' evs initial)) as Hge.
    destruct IH as (Hid & Hseq & Hkeys); [lia|].
    set (s := run' evs initial) in *. set (ids := allocated' evs initial) in *.
    destruct ev as [method params|d]; unfold step in *.
    + rewrite request_unfold in *. simpl in *.
      rewrite number_increment_exact in * by (pose proof (number_increment_ge (reqID s)); lia).
      rewrite length_app. simpl. split; [lia|]. split.
      * rewrite seq_app, fmap_app. simpl. rewrite <- Hseq.
        do 2 f_equal. lia.
      * intros k [cb Hk]. revert Hk. rewrite lookup_insert. case_decide; subst.
        -- intros _. apply elem_of_app. right. now apply list_elem_of_singleton.
        -- intros Hk. apply elem_of_app. left. apply Hkeys. eauto.
    + rewrite onmessage_reqID in *. rewrite app_nil_r. split; [assumption|]. split; [assumption|].
      intros k [cb Hk]. apply Hkeys. exists cb. now apply onmessage_pending_subset in Hk.
Qed.

(** C9.  Along every run that starts from a fresh connection, as long as
    the counter is below [2^53] (the range in which a JavaScript number
    counts exactly): the ids handed out so far are 1, 2, 3, ... in that
    order, hence strictly increasing and without repetition; every key of
    the table is one of them; and the id the next call receives is the
    successor of the counter, larger than every id handed out before and
    absent from the table.  The table is a finite map, so it never holds
    two entries for one id. *)
Theorem request_ids_increase_and_are_never_reused (evs : list (@Event Params)) :
  let s := run' evs initial in
  let ids := allocated' evs initial in
  (reqID s < MAX_EXACT)%N ->
  ids = N.of_nat <$> seq 1 (length ids)
  /\ StronglySorted N.lt ids
  /\ NoDup ids
  /\ (forall k, is_Some (pendingReqs s !! k) -> k ∈ ids)
  /\ forall (method : string) (params : Params),
       let s' := step' (Call method params) s in
       reqID s' = (reqID s + 1)%N
       /\ (forall k, k ∈ ids -> (k < reqID s')%N)
       /\ (reqID s' ∉ ids)
       /\ pendingReqs s !! reqID s' = None
       /\ pendingReqs s' !! reqID s' = Some {| promise := created s |}.
Proof.
  intros s ids Hlt.
  destruct (allocated_exact evs Hlt) as (Hid & Hseq & Hkeys).
  fold s in Hid, Hkeys. fold ids in Hid, Hseq, Hkeys.
  assert (Hsorted : StronglySorted N.lt ids) by (rewrite Hseq; apply seq_numbers_sorted).
  assert (Hbound : forall k, k ∈ ids -> (k <= reqID s)%N).
  { intros k Hk. rewrite Hseq in Hk. apply seq_numbers_bounds in Hk. lia. }
  split; [assumption|]. split; [assumption|]. split.
  { rewrite Hseq. apply NoDup_fmap_2; [intros ? ? ?; lia | apply NoDup_seq]. }
  split; [assumption|].
  intros method params s'. subst s'. unfold step. rewrite request_unfold. simpl.
  rewrite number_increment_exact by assumption.
  split; [reflexivity|]. split.
  { intros k Hk. apply Hbound in Hk. lia. }
  split.
  { intros Hin. apply Hbound in Hin. lia. }
  split.
  { destruct (pendingReqs s !! (reqID s + 1)%N) eqn:E; [|reflexivity].
    assert ((reqID s + 1)%N ∈ ids) by (apply Hkeys; eauto).
    assert (reqID s + 1 <= reqID s)%N by auto. lia. }
  apply lookup_insert_eq.
Qed.

End CorrelationFacts.

(** *** The layer at work *)

Example two_calls_in_flight :
  pendingReqs (example_run two_calls initial) !! 1%N = Some {| promise := 0 |}
  /\ pendingReqs (example_run two_calls initial) !! 2%N = Some {| promise := 1 |}
  /\ reqID (example_run two_calls initial) = 2%N.
Proof. repeat split; reflexivity. Qed.

(** The reply to the second call overtakes the reply to the first: it
    fulfils the second promise and leaves the first call pending. *)
Lemma reply_out_of_order :
  let s := example_run two_calls initial in
  let d := DataString (frame_text "2" (result_member "22")) in
  let s' := snd (onmessage example_decode example_decode example_JSONParse d s) in
  (reachable example_decode example_decode example_JSONParse s
   /\ example_JSONParse (wsDataToString example_decode example_decode d)
      = Normal (DObject (IdNumber 2) None (Some 22%N))
   /\ pendingReqs s !! 2%N = Some {| promise := 1 |})
  /\ promises s' !! 1%N = Some (Fulfilled 22%N)
  /\ pendingReqs s' !! 2%N = None
  /\ pendingReqs s' !! 1%N = Some {| promise := 0 |}
  /\ promises s' !! 0%N = Some Pending.
Proof.
  intros s d s'.
  assert (Hreach : reachable example_decode example_decode example_JSONParse s).
  { exact (reachable_step _ _ _ (Call "Runtime.evaluate" tt) _
             (reachable_step _ _ _ (Call "Runtime.enable" tt) _ (reachable_initial _ _ _))). }
  assert (Hd : example_JSONParse (wsDataToString example_decode example_decode d)
               = Normal (DObject (IdNumber 2) None (Some 22%N))) by reflexivity.
  assert (Hn : pendingReqs s !! 2%N = Some {| promise := 1 |}) by reflexivity.
  split; [auto|].
  destruct (reply_completes_exactly_the_registered_call
              example_decode example_decode example_JSONParse
              d s 2%N {| promise := 1 |} None (Some 22%N)
              Hreach Hd (or_intror (ex_intro _ 22%N eq_refl)) Hn)
    as (_ & Hok & Hgone & Hothers & _).
  split; [exact (proj1 (Hok eq_refl 22%N eq_refl))|].
  split; [exact Hgone|].
  apply (Hothers 1%N {| promise := 0 |}); [discriminate | reflexivity].
Defined.

(** C2.  One call is pending under id 1 and a frame [{"id":1}] arrives,
    carrying neither [result] nor [error].  The handler logs the frame,
    but it has already removed the entry of id 1: the table is empty, the
    promise of the call is still pending, and no later frame or call can
    settle it. *)
Theorem bare_reply_drops_the_pending_call :
  let s := example_run [Call "Runtime.evaluate" tt] initial in
  let d := DataString (frame_text "1" "") in
  let s' := example_step (Inbound d) s in
  pendingReqs s !! 1%N = Some {| promise := 0 |}
  /\ promises s !! 0%N = Some Pending
  /\ example_JSONParse (frame_text "1" "") = Normal (DObject (IdNumber 1) None None)
  /\ pendingReqs s' !! 1%N = None
  /\ promises s' !! 0%N = Some Pending
  /\ response_of Pending = @None (Completion N)
  /\ console s'
     = [ws_message_error
          (ThrownValue (JSString "Received response with no result or error: 1"))
          (frame_text "1" "")]
  /\ forall evs, promises (example_run evs s') !! 0%N = Some Pending.
Proof.
  intros s d s'.
  repeat (split; [reflexivity|]).
  intros evs.
  assert (Hwf : well_formed s).
  { apply (well_formed_step example_decode example_decode example_JSONParse).
    apply well_formed_initial. }
  apply (orphaned_forever example_decode example_decode example_JSONParse).
  - now apply (well_formed_step example_decode example_decode example_JSONParse).
  - apply (bare_reply_orphans example_decode example_decode example_JSONParse
             d s 1%N {| promise := 0 |}); [assumption | reflexivity | reflexivity].
Qed.

(** Ids along a run with an overtaking reply. *)
Lemma request_ids_along_a_run :
  (reqID (example_run answered_out_of_order initial) < MAX_EXACT)%N
  /\ allocated example_decode example_decode example_JSONParse answered_out_of_order initial
     = [1; 2; 3]%N
  /\ StronglySorted N.lt
       (allocated example_decode example_decode example_JSONParse answered_out_of_order initial)
  /\ reqID (example_step (Call "Runtime.evaluate" tt) (example_run answered_out_of_order initial))
     = 4%N.
Proof.
  assert (H : (reqID (example_run answered_out_of_order initial) < MAX_EXACT)%N) by reflexivity.
  split; [exact H|].
  destruct (request_ids_increase_and_are_never_reused
              example_decode example_decode example_JSONParse answered_out_of_order H)
    as (Hseq & Hsorted & _ & _ & Hnext).
  split; [exact Hseq|]. split; [exact Hsorted|].
  exact (proj1 (Hnext "Runtime.evaluate" tt)).
Defined.

(** ** Evaluation *)

Section EvaluationFacts.

Variable C : Colors.
Variable enableANSIColors : bool.
Variable utl_inspect : any -> InspectOptions -> Completion string.
Variable bunInspect : any -> InspectOptions -> Completion string.
Variable concat_empty : any -> Completion any.
Variable remote : list RuntimeRequest -> RuntimeRequest -> Globals -> Completion Response.t * Globals.

Local Abbreviation await_request' := (await_request remote).
Local Abbreviation rawEval' := (rawEval remote).
Local Abbreviation ObjectTypeHandler' := (ObjectTypeHandler C remote).
Local Abbreviation SafeInspect' := (SafeInspect C utl_inspect bunInspect concat_empty).
Local Abbreviation bigint_branch' :=
  (bigint_branch C enableANSIColors utl_inspect bunInspect concat_empty).
Local Abbreviation render_branch' := (render_branch C enableANSIColors remote).
Local Abbreviation eval' :=
  (eval C enableANSIColors utl_inspect bunInspect concat_empty remote).

Implicit Types (s : Session) (o result remoteObj : RemoteObject) (r : Response.t).

(** *** Requests *)

Lemma await_request_unfold (q : RuntimeRequest) s :
  await_request' q s =
  (fst (remote (issued s) q (GLOBAL s)),
   set_GLOBAL (snd (remote (issued s) q (GLOBAL s))) (set_issued (issued s ++ [q])%list s)).
Proof. unfold await_request. now destruct (remote (issued s) q (GLOBAL s)). Qed.

Lemma await_request_frame (q : RuntimeRequest) s :
  extraOut (snd (await_request' q s)) = extraOut s
  /\ issued (snd (await_request' q s)) = (issued s ++ [q])%list
  /\ out (snd (await_request' q s)) = out s
  /\ globalObjectID (snd (await_request' q s)) = globalObjectID s.
Proof. rewrite await_request_unfold. simpl. auto. Qed.

(** *** The working value *)

(** What the statements under [className === 'Promise'] yield. *)
Lemma promise_handler_normal (tla : bool) result (pv : ObjectPreview) s remoteObj s1 :
  promise_handler C remote tla result pv s = (Normal remoteObj, s1) ->
  extraOut s1 = extraOut s
  /\ globalObjectID s1 = globalObjectID s
  /\ (tla = false ->
      s1 = s /\ wasThrown remoteObj = wasThrown result /\ type remoteObj = type result
      /\ subtype remoteObj = subtype result)
  /\ (tla = true ->
      exists awaited g,
        remote (issued s) (Runtime_awaitPromise (default "" (objectId result)) false) (GLOBAL s)
        = (Normal awaited, g)
        /\ issued s1 = (issued s ++ [Runtime_awaitPromise (default "" (objectId result)) false])%list
        /\ wasThrown remoteObj = Response.wasThrown awaited
        /\ type remoteObj = type (Response.result awaited)
        /\ subtype remoteObj = subtype (Response.result awaited)).
Proof.
  unfold promise_handler. destruct tla.
  - unfold bind at 1 2. rewrite await_request_unfold.
    destruct (remote (issued s) (Runtime_awaitPromise (default "" (objectId result)) false)
                (GLOBAL s)) as [[awaited|e] g] eqn:Hr; simpl; [|discriminate].
    unfold bind, modify, ret.
    destruct (typeof _ type_undefined); destruct (status_rejected pv);
      intros [= <- <-]; simpl; (repeat split; try discriminate);
      intros _; exists awaited, g; auto.
  - unfold bind, ret. destruct (status_rejected pv); intros [= <- <-]; simpl;
      repeat split; try discriminate; auto.
Qed.

Lemma performs_await_cases (tla : bool) result :
  performs_await tla result =
  tla && (typeof result type_object && negb (subtypeof result subtype_null)
          && is_class result "Promise").
Proof. unfold performs_await. now rewrite <- !andb_assoc. Qed.

(** What the block [ObjectTypeHandler] yields when it completes: the first
    reply's value, or the awaited one.  The block touches neither the
    flags nor the global object on its own and issues no request but
    [Runtime.awaitPromise]. *)
Lemma ObjectTypeHandler_normal (tla : bool) result s remoteObj s1 :
  ObjectTypeHandler' tla result s = (Normal remoteObj, s1) ->
  extraOut s1 = extraOut s
  /\ globalObjectID s1 = globalObjectID s
  /\ (performs_await tla result = false ->
      s1 = s /\ wasThrown remoteObj = wasThrown result /\ type remoteObj = type result
      /\ subtype remoteObj = subtype result)
  /\ (performs_await tla result = true ->
      exists awaited g,
        remote (issued s) (Runtime_awaitPromise (default "" (objectId result)) false) (GLOBAL s)
        = (Normal awaited, g)
        /\ issued s1 = (issued s ++ [Runtime_awaitPromise (default "" (objectId result)) false])%list
        /\ wasThrown remoteObj = Response.wasThrown awaited
        /\ type remoteObj = type (Response.result awaited)
        /\ subtype remoteObj = subtype (Response.result awaited)).
Proof.
  unfold ObjectTypeHandler. rewrite performs_await_cases.
  destruct (typeof result type_object); simpl;
    [|intros [= <- <-]; rewrite andb_false_r; repeat split; auto; discriminate].
  destruct (subtypeof result subtype_null); simpl;
    [intros [= <- <-]; rewrite andb_false_r; repeat split; auto; discriminate|].
  destruct (truthy_string (objectId result)); simpl; [|discriminate].
  destruct (is_class result "Promise"); simpl;
    [|intros [= <- <-]; rewrite andb_false_r; repeat split; auto; discriminate].
  destruct (preview result) as [pv|]; [|discriminate].
  rewrite andb_true_r. apply promise_handler_normal.
Qed.

(** *** The two branches *)

Lemma eval_unfold (code : string) (tla : bool) s r s0 remoteObj s1 :
  rawEval' code s = (Normal r, s0) ->
  ObjectTypeHandler' tla (set_wasThrown (Response.wasThrown r) (Response.result r)) s0
  = (Normal remoteObj, s1) ->
  eval' code tla s =
  if typeof remoteObj type_bigint then bigint_branch' remoteObj s1 else render_branch' remoteObj s1.
Proof.
  intros H0 H1. unfold eval.
  rewrite (bind_normal _ _ _ _ _ H0). rewrite (bind_normal _ _ _ _ _ H1).
  now destruct (typeof remoteObj type_bigint).
Qed.

(** The workaround neither sends a request nor touches the flags,
    however it ends. *)
Lemma bigint_branch_frame remoteObj s :
  extraOut (snd (bigint_branch' remoteObj s)) = extraOut s
  /\ issued (snd (bigint_branch' remoteObj s)) = issued s.
Proof.
  unfold bigint_branch.
  destruct (truthy_string (description remoteObj)); simpl; [|auto].
  unfold bind, lift, modify, gets, ret, on_console, BigInt.
  destruct (StringToBigInt _) as [z|]; simpl; [|auto].
  destruct (SafeInspect' _ _ _) as [[text|e] out']; simpl; auto.
Qed.

(** The workaround on a description that reads as an integer. *)
Lemma bigint_branch_normal remoteObj s (d : string) (z : Z) :
  description remoteObj = Some d -> d <> "" ->
  StringToBigInt (slice_0_m1 d) = Some z ->
  exists text out',
    SafeInspect' (JSBigInt z) (default (default_options enableANSIColors) (writer_options (GLOBAL s)))
      (out s) = (Normal text, out')
    /\ bigint_branch' remoteObj s =
       (Normal (Some ((if truthy_bool (wasThrown remoteObj) then uncaught C else "") ++ text)),
        set_out out'
          (set_GLOBAL (Reflect_set (truthy_bool (wasThrown remoteObj)) (JSBigInt z) (GLOBAL s)) s)).
Proof.
  intros Hd Hne Hz.
  destruct (SafeInspect_never_fails C utl_inspect bunInspect concat_empty (JSBigInt z)
              (default (default_options enableANSIColors) (writer_options (GLOBAL s))) (out s))
    as (text & out' & Hrun).
  exists text, out'. split; [assumption|].
  unfold bigint_branch. rewrite Hd.
  assert (truthy_string (Some d) = true) as -> by (destruct d; [contradiction | reflexivity]).
  unfold bind, lift, modify, gets, ret, on_console, BigInt. simpl.
  rewrite Hz. simpl.
  destruct (wasThrown remoteObj) as [[|]|]; simpl; rewrite Hrun; reflexivity.
Qed.


(** A description that does not read as an integer makes [BigInt] throw;
    nothing is stored. *)
Lemma bigint_branch_unreadable remoteObj s (d : string) :
  description remoteObj = Some d -> d <> "" ->
  StringToBigInt (slice_0_m1 d) = None ->
  bigint_branch' remoteObj s = (Throw (SyntaxError "Failed to parse String to BigInt"), s).
Proof.
  intros Hd Hne Hz. unfold bigint_branch. rewrite Hd.
  assert (truthy_string (Some d) = true) as -> by (destruct d; [contradiction | reflexivity]).
  unfold bind, lift, BigInt. simpl. now rewrite Hz.
Qed.

(** The render call and the final step, when they complete. *)
Lemma render_branch_normal remoteObj s (text : option string) s' :
  render_branch' remoteObj s = (Normal text, s') ->
  exists inspected g,
    remote (issued s)
      (Runtime_callFunctionOn (globalObjectID s)
         {| decl_wasThrown := wasThrown remoteObj;
            decl_subtype_is_error := subtypeof remoteObj subtype_error;
            decl_colors := enableANSIColors |}
         [remoteObj])
      (set_bunReplInternals true (GLOBAL s)) = (Normal inspected, g)
    /\ truthy_bool (Response.wasThrown inspected) = false
    /\ type (Response.result inspected) = type_string
    /\ extraOut s' = raised (wasThrown remoteObj) (wasRejectedPromise remoteObj) <$> extraOut s
    /\ text = (if truthy_bool (wasThrown remoteObj) && negb (subtypeof remoteObj subtype_error)
               then Some (concat_value (uncaught C) (value (Response.result inspected)))
               else value (Response.result inspected)).
Proof.
  unfold render_branch. unfold bind at 1 2 3. unfold modify at 1, gets at 1.
  rewrite await_request_unfold. simpl.
  destruct (remote _ _ _) as [[inspected|e] g] eqn:Hr; simpl; [|discriminate].
  unfold bind at 1. unfold modify at 1. simpl.
  destruct (truthy_bool (Response.wasThrown inspected)) eqn:Hthrown; [discriminate|].
  destruct (typeof (Response.result inspected) type_string) eqn:Hty; simpl; [|discriminate].
  apply bool_decide_eq_true in Hty.
  unfold bind, modify, ret. simpl.
  intros Hrun. exists inspected, g.
  assert (text = (if truthy_bool (wasThrown remoteObj) && negb (subtypeof remoteObj subtype_error)
                  then Some (concat_value (uncaught C) (value (Response.result inspected)))
                  else value (Response.result inspected))
          /\ extraOut s' = raised (wasThrown remoteObj) (wasRejectedPromise remoteObj) <$> extraOut s)
    as [-> ->]; [|auto].
  destruct (truthy_bool (wasThrown remoteObj) && negb (subtypeof remoteObj subtype_error));
    injection Hrun as <- <-; (split; [reflexivity|]);
    (destruct (extraOut s) as [[a b]|] eqn:E; simpl; [|assumption]);
    unfold raised;
    destruct (truthy_bool (wasThrown remoteObj)), (truthy_bool (wasRejectedPromise remoteObj));
    reflexivity.
Qed.

(** *** The claims about [eval] *)

Lemma rawEval_frame (code : string) s r s0 :
  rawEval' code s = (Normal r, s0) ->
  extraOut s0 = extraOut s
  /\ issued s0 = (issued s ++ [Runtime_evaluate code true])%list.
Proof.
  unfold rawEval. intros H.
  destruct (await_request_frame (Runtime_evaluate code true) s) as (He & Hi & _).
  rewrite H in He, Hi. auto.
Qed.

(** C4 (amended).  When [eval] reaches its final step (it completes and
    the working value is not a bigint), the flags of [extraOut] are raised
    from the working value: [errored] becomes [true] when its [wasThrown]
    is set, [noPrintError] becomes [true] when its [wasRejectedPromise] is
    set, and a flag whose member is not set keeps the value the caller
    gave it.  The [wasThrown] of the working value is that of the
    [Runtime.evaluate] reply when no await took place and that of the
    [Runtime.awaitPromise] reply when one did; the reply of the render
    call never contributes, its own [wasThrown] being unset whenever the
    final step is reached. *)
Theorem finalize_flags_follow_the_working_value
  (code : string) (tla : bool) s r s0 remoteObj s1 (text : option string) s' :
  rawEval' code s = (Normal r, s0) ->
  ObjectTypeHandler' tla (set_wasThrown (Response.wasThrown r) (Response.result r)) s0
  = (Normal remoteObj, s1) ->
  typeof remoteObj type_bigint = false ->
  eval' code tla s = (Normal text, s') ->
  extraOut s' = raised (wasThrown remoteObj) (wasRejectedPromise remoteObj) <$> extraOut s
  /\ (performs_await tla (Response.result r) = false ->
      wasThrown remoteObj = Response.wasThrown r)
  /\ (performs_await tla (Response.result r) = true ->
      exists awaited g,
        remote (issued s0)
          (Runtime_awaitPromise (default "" (objectId (Response.result r))) false) (GLOBAL s0)
        = (Normal awaited, g)
        /\ wasThrown remoteObj = Response.wasThrown awaited)
  /\ exists inspected g,
       remote (issued s1)
         (Runtime_callFunctionOn (globalObjectID s1)
            {| decl_wasThrown := wasThrown remoteObj;
               decl_subtype_is_error := subtypeof remoteObj subtype_error;
               decl_colors := enableANSIColors |}
            [remoteObj])
         (set_bunReplInternals true (GLOBAL s1)) = (Normal inspected, g)
       /\ truthy_bool (Response.wasThrown inspected) = false.
Proof.
  intros H0 H1 Hty Hrun.
  rewrite (eval_unfold code tla s r s0 remoteObj s1 H0 H1), Hty in Hrun.
  destruct (render_branch_normal remoteObj s1 text s' Hrun)
    as (inspected & g & Hr & Hthrown & _ & Hflags & _).
  destruct (ObjectTypeHandler_normal _ _ _ _ _ H1) as (He1 & _ & Hno & Hyes).
  destruct (rawEval_frame code s r s0 H0) as (He0 & _).
  split; [now rewrite Hflags, He1, He0|]. split; [|split].
  - intros Hp. now destruct (Hno Hp) as (_ & -> & _).
  - intros Hp. destruct (Hyes Hp) as (awaited & g' & Ha & _ & Hw & _). eauto.
  - eauto.
Qed.

(** The marker is visible: a text with the marker in front is never the
    text itself. *)
Lemma marker_is_visible (t : string) : (red C ++ "Uncaught " ++ reset C) ++ t <> t.
Proof.
  assert (Hlen : forall a b : string,
             String.length (a ++ b) = (String.length a + String.length b)%nat).
  { intros a b. induction a as [|c a IH]; [reflexivity|].
    change (String c a ++ b) with (String c (a ++ b)). simpl. now rewrite IH. }
  intros H. apply (f_equal String.length) in H. rewrite !Hlen in H. simpl in H. lia.
Qed.


(** C7.  When [eval] reaches the render and final steps and completes,
    the text it returns is the marker (the word [Uncaught] and a blank
    between the colour [red] and the colour reset) followed by the
    rendered text if [wasThrown] is set on the working value and its
    subtype is not [error], and the rendered text alone in every other
    case: nothing thrown, or a thrown value of subtype [error].  The two
    cases never give the same text. *)
Theorem uncaught_marker_iff_thrown_and_not_error
  (code : string) (tla : bool) s r s0 remoteObj s1 (text : option string) s' :
  rawEval' code s = (Normal r, s0) ->
  ObjectTypeHandler' tla (set_wasThrown (Response.wasThrown r) (Response.result r)) s0
  = (Normal remoteObj, s1) ->
  typeof remoteObj type_bigint = false ->
  eval' code tla s = (Normal text, s') ->
  exists inspected g,
    remote (issued s1)
      (Runtime_callFunctionOn (globalObjectID s1)
         {| decl_wasThrown := wasThrown remoteObj;
            decl_subtype_is_error := subtypeof remoteObj subtype_error;
            decl_colors := enableANSIColors |}
         [remoteObj])
      (set_bunReplInternals true (GLOBAL s1)) = (Normal inspected, g)
    /\ (truthy_bool (wasThrown remoteObj) = true /\ subtype remoteObj <> Some subtype_error ->
        text = Some ((red C ++ "Uncaught " ++ reset C)
                     ++ match value (Response.result inspected) with
                        | Some rendered => rendered
                        | None => "undefined"
                        end)
        /\ text <> value (Response.result inspected))
    /\ (truthy_bool (wasThrown remoteObj) = false \/ subtype remoteObj = Some subtype_error ->
        text = value (Response.result inspected))
    /\ (text = value (Response.result inspected) <->
        truthy_bool (wasThrown remoteObj) = false \/ subtype remoteObj = Some subtype_error).
Proof.
  intros H0 H1 Hty Hrun.
  rewrite (eval_unfold code tla s r s0 remoteObj s1 H0 H1), Hty in Hrun.
  destruct (render_branch_normal remoteObj s1 text s' Hrun)
    as (inspected & g & Hr & _ & _ & _ & Htext).
  exists inspected, g. split; [exact Hr|].
  assert (Hmarked :
    truthy_bool (wasThrown remoteObj) = true /\ subtype remoteObj <> Some subtype_error ->
    text = Some ((red C ++ "Uncaught " ++ reset C)
                 ++ match value (Response.result inspected) with
                    | Some rendered => rendered
                    | None => "undefined"
                    end)
    /\ text <> value (Response.result inspected)).
  { intros [Hthrown Hsub]. rewrite Htext, Hthrown. unfold subtypeof.
    rewrite bool_decide_eq_false_2 by assumption. cbn [andb negb].
    split; [reflexivity|]. unfold concat_value, uncaught.
    destruct (value (Response.result inspected)) as [rendered|]; [|discriminate].
    intros [= Heq]. exact (marker_is_visible rendered Heq). }
  assert (Hplain :
    truthy_bool (wasThrown remoteObj) = false \/ subtype remoteObj = Some subtype_error ->
    text = value (Response.result inspected)).
  { rewrite Htext. unfold subtypeof. intros [-> | Hsub]; [reflexivity|].
    rewrite bool_decide_eq_true_2 by assumption. now rewrite andb_false_r. }
  split; [exact Hmarked|]. split; [exact Hplain|]. split; [|exact Hplain].
  intros Heq.
  destruct (truthy_bool (wasThrown remoteObj)) eqn:Hthrown; [|now left].
  destruct (decide (subtype remoteObj = Some subtype_error)) as [Hsub|Hsub]; [now right|].
  destruct (Hmarked (conj eq_refl Hsub)) as [_ Hne]. contradiction.
Qed.

(** C10.  When the working value is a bigint, [eval] leaves the flags of
    [extraOut] exactly as the caller passed them, however the evaluation
    ends: [errored] is not raised although [wasThrown] may be set, and
    [noPrintError] is not raised although [wasRejectedPromise] may be
    set. *)
Theorem bigint_evaluation_leaves_flags_unchanged
  (code : string) (tla : bool) s r s0 remoteObj s1 :
  rawEval' code s = (Normal r, s0) ->
  ObjectTypeHandler' tla (set_wasThrown (Response.wasThrown r) (Response.result r)) s0
  = (Normal remoteObj, s1) ->
  typeof remoteObj type_bigint = true ->
  extraOut (snd (eval' code tla s)) = extraOut s.
Proof.
  intros H0 H1 Hty.
  rewrite (eval_unfold code tla s r s0 remoteObj s1 H0 H1), Hty.
  destruct (bigint_branch_frame remoteObj s1) as (-> & _).
  destruct (ObjectTypeHandler_normal _ _ _ _ _ H1) as (-> & _).
  now destruct (rawEval_frame code s r s0 H0) as (-> & _).
Qed.

End EvaluationFacts.

(** *** Evaluations of the examples *)

(** [123n] is parsed, stored in [_] and rendered without a render call. *)
Example bigint_123n_is_stored :
  let run := example_eval bigint_script "123n" false fresh_session in
  fst run = Normal (Some "123n")
  /\ underscore (GLOBAL (snd run)) = JSBigInt 123
  /\ issued (snd run) = [Runtime_evaluate "123n" true].
Proof. repeat split. Qed.


(** [throw 5n]: the text carries the marker, the flags stay as passed. *)
Lemma thrown_bigint_flags :
  let s := fresh_session in
  let r := reply (primitive type_bigint (Some "5n") None) true in
  let s0 := snd (rawEval (scripted thrown_bigint_script) "throw 5n" s) in
  let remoteObj := set_wasThrown (Some true) (primitive type_bigint (Some "5n") None) in
  (rawEval (scripted thrown_bigint_script) "throw 5n" s = (Normal r, s0)
   /\ ObjectTypeHandler example_colors (scripted thrown_bigint_script) false
        (set_wasThrown (Response.wasThrown r) (Response.result r)) s0 = (Normal remoteObj, s0)
   /\ typeof remoteObj type_bigint = true
   /\ wasThrown remoteObj = Some true)
  /\ extraOut (snd (example_eval thrown_bigint_script "throw 5n" false s))
     = Some {| errored := Some false; noPrintError := Some false |}.
Proof.
  intros s r s0 remoteObj.
  split; [repeat split|].
  exact (bigint_evaluation_leaves_flags_unchanged
           example_colors false example_inspect example_native_inspect example_concat_empty
           (scripted thrown_bigint_script) "throw 5n" false s r s0 remoteObj s0
           eq_refl eq_refl eq_refl).
Defined.

(** [throw new Error('x')]: [errored] is raised. *)
Lemma thrown_error_flags :
  let s := fresh_session in
  let r := reply (error_object "e1") true in
  let s0 := snd (rawEval (scripted thrown_error_script) "throw new Error('x')" s) in
  let remoteObj := set_wasThrown (Some true) (error_object "e1") in
  let s' := snd (example_eval thrown_error_script "throw new Error('x')" false s) in
  (rawEval (scripted thrown_error_script) "throw new Error('x')" s = (Normal r, s0)
   /\ ObjectTypeHandler example_colors (scripted thrown_error_script) false
        (set_wasThrown (Response.wasThrown r) (Response.result r)) s0 = (Normal remoteObj, s0)
   /\ typeof remoteObj type_bigint = false
   /\ example_eval thrown_error_script "throw new Error('x')" false s
      = (Normal (Some "error: x"), s'))
  /\ extraOut s' = Some {| errored := Some true; noPrintError := Some false |}.
Proof.
  intros s r s0 remoteObj s'.
  split; [repeat split|].
  exact (proj1 (finalize_flags_follow_the_working_value
                  example_colors false example_inspect example_native_inspect
                  example_concat_empty (scripted thrown_error_script)
                  "throw new Error('x')" false s r s0 remoteObj s0 (Some "error: x") s'
                  eq_refl eq_refl eq_refl eq_refl)).
Defined.

(** [await Promise.reject('boom')]: the [Runtime.evaluate] reply is not
    thrown, the awaited reply is, and [errored] ends up raised. *)
Lemma errored_is_taken_from_the_awaited_reply :
  let original := reply (promise_object "p1" "rejected") false in
  let run := example_eval rejected_await_script "await Promise.reject('boom')" true fresh_session in
  rejected_await_script !! 0%nat = Some original
  /\ Response.wasThrown original = Some false
  /\ fst run = Normal (Some (uncaught example_colors ++ "'boom'"))
  /\ errored <$> extraOut (snd run) = Some (Some true)
  /\ errored <$> extraOut (snd run) <> Some (Response.wasThrown original).
Proof. repeat split. discriminate. Qed.

(** [throw 'x'] against [throw new Error('x')]: only the first is marked. *)
Lemma thrown_string_is_marked :
  let s := fresh_session in
  let r := reply (primitive type_string None (Some "x")) true in
  let s0 := snd (rawEval (scripted thrown_string_script) "throw 'x'" s) in
  let remoteObj := set_wasThrown (Some true) (primitive type_string None (Some "x")) in
  let s' := snd (example_eval thrown_string_script "throw 'x'" false s) in
  let text := Some (String "027" "[31mUncaught " ++ String "027" "[0m'x'") in
  (rawEval (scripted thrown_string_script) "throw 'x'" s = (Normal r, s0)
   /\ ObjectTypeHandler example_colors (scripted thrown_string_script) false
        (set_wasThrown (Response.wasThrown r) (Response.result r)) s0 = (Normal remoteObj, s0)
   /\ typeof remoteObj type_bigint = false
   /\ example_eval thrown_string_script "throw 'x'" false s = (Normal text, s'))
  /\ exists inspected,
      value (Response.result inspected) = Some "'x'"
      /\ text = Some ((red example_colors ++ "Uncaught " ++ reset example_colors) ++ "'x'")
      /\ text <> value (Response.result inspected).
Proof.
  intros s r s0 remoteObj s' text.
  split; [repeat split|].
  destruct (uncaught_marker_iff_thrown_and_not_error
              example_colors false example_inspect example_native_inspect
              example_concat_empty (scripted thrown_string_script)
              "throw 'x'" false s r s0 remoteObj s0 text s'
              eq_refl eq_refl eq_refl eq_refl) as (inspected & g & Hr & Hmarked & _).
  assert (Hcase : truthy_bool (wasThrown remoteObj) = true
                  /\ subtype remoteObj <> Some subtype_error)
    by (split; [reflexivity | discriminate]).
  destruct (Hmarked Hcase) as [Htext Hne].
  assert (Hvalue : value (Response.result inspected) = Some "'x'").
  { injection Hr as <- _. reflexivity. }
  exists inspected. split; [exact Hvalue|]. split; [|exact Hne].
  rewrite Htext, Hvalue. reflexivity.
Defined.

Example thrown_error_is_not_marked :
  fst (example_eval thrown_error_script "throw new Error('x')" false fresh_session)
  = Normal (Some "error: x").
Proof. reflexivity. Qed.

(** ** The print decision *)

(** C3 (amended).  The driver prints at most one line.  An errored result
    goes to standard error unless [noPrintError] is set, in which case
    nothing is printed; this holds in both modes and whatever the
    print-request flag.  A result that is not errored goes to standard
    output, always in interactive mode and exactly when printing was
    requested in single-shot mode; [noPrintError] plays no part for such
    a result. *)
Theorem print_decision (extraInfo : ExtraOut) (printSingleshot : bool) (evaled : option string) :
  print_line extraInfo evaled =
    (if truthy_bool (errored extraInfo)
     then if truthy_bool (noPrintError extraInfo) then [] else [console_error evaled]
     else [console_log evaled])
  /\ print_singleshot extraInfo printSingleshot evaled =
    (if truthy_bool (errored extraInfo)
     then if truthy_bool (noPrintError extraInfo) then [] else [console_error evaled]
     else if printSingleshot then [console_log evaled] else [])
  /\ (length (print_line extraInfo evaled) <= 1)%nat
  /\ (length (print_singleshot extraInfo printSingleshot evaled) <= 1)%nat.
Proof.
  unfold print_line, print_singleshot.
  destruct (truthy_bool (errored extraInfo)), (truthy_bool (noPrintError extraInfo)),
    printSingleshot; simpl; repeat split; lia.
Qed.

(** A rejected promise that was not awaited: [noPrintError] is set,
    [errored] is not, and the text is printed to standard output in both
    modes. *)
Lemma suppressed_without_error_is_printed :
  let flags := {| errored := Some false; noPrintError := Some true |} in
  let text := Some "Promise { <rejected> 'boom' }" in
  let s' := snd (evaluate_and_print example_colors false example_inspect example_native_inspect
                   example_concat_empty (scripted rejected_promise_script) print_line
                   "Promise.reject('boom')" false fresh_session) in
  extraOut s' = Some flags
  /\ out s' = [console_log text]
  /\ print_line flags text = [console_log text]
  /\ print_line flags text <> []
  /\ print_singleshot flags true text = [console_log text].
Proof. repeat split. discriminate. Qed.

(** ** The rewrite *)

(** *** Strings *)

#[local] Arguments String.append !s1 s2.

Lemma string_app_assoc (a b c : string) : (a ++ b) ++ c = a ++ (b ++ c).
Proof. induction a as [|x a IH]; simpl; [reflexivity | now rewrite IH]. Qed.

Lemma string_app_nil_r (a : string) : a ++ "" = a.
Proof. induction a as [|x a IH]; simpl; [reflexivity | now rewrite IH]. Qed.

Lemma string_length_app (a b : string) :
  String.length (a ++ b) = (String.length a + String.length b)%nat.
Proof. induction a as [|x a IH]; simpl; [reflexivity | now rewrite IH]. Qed.

Lemma all_whitespace_trim_start (s : string) :
  all_whitespace s = true -> trim_start s = "".
Proof.
  induction s as [|c s IH]; simpl; [reflexivity|].
  intros H. apply andb_true_iff in H as [-> H]. auto.
Qed.

Lemma trim_start_head (s : string) c r :
  trim_start s = String c r -> is_whitespace c = false.
Proof.
  induction s as [|x s IH]; simpl; [discriminate|].
  destruct (is_whitespace x) eqn:E; [assumption|]. now intros [= <- <-].
Qed.

Lemma trim_start_whitespace (s : string) :
  trim_start s = "" -> all_whitespace s = true.
Proof.
  induction s as [|x s IH]; simpl; [reflexivity|].
  destruct (is_whitespace x); [assumption | discriminate].
Qed.

Lemma trim_end_head c r : is_whitespace c = false -> trim_end (String c r) <> "".
Proof. intros H. simpl. rewrite H. now destruct (trim_end r). Qed.

(** [!StringTrim(line)] holds exactly for lines of white space. *)
Lemma StringTrim_empty (s : string) : StringTrim s = "" <-> all_whitespace s = true.
Proof.
  unfold StringTrim. split.
  - intros H. destruct (trim_start s) as [|c r] eqn:E.
    + now apply trim_start_whitespace.
    + apply trim_start_head in E. now apply trim_end_head in H.
  - intros H. now rewrite all_whitespace_trim_start.
Qed.

(** *** Lines *)

Lemma split_single_line (l : string) :
  single_line l = true -> StringPrototypeSplit l = [l].
Proof.
  induction l as [|c l IH]; simpl; [reflexivity|].
  intros H. apply andb_true_iff in H as [Hc Hl]. apply negb_true_iff in Hc.
  rewrite Hc, IH by assumption. reflexivity.
Qed.

Lemma split_line_app (l rest : string) :
  single_line l = true ->
  StringPrototypeSplit (l ++ newline ++ rest) = l :: StringPrototypeSplit rest.
Proof.
  induction l as [|c l IH]; simpl; [reflexivity|].
  intros H. apply andb_true_iff in H as [Hc Hl]. apply negb_true_iff in Hc.
  rewrite Hc. simpl in IH. now rewrite IH.
Qed.

Lemma join_cons (l : string) (ls : list string) :
  ls <> [] -> ArrayPrototypeJoin (l :: ls) = l ++ newline ++ ArrayPrototypeJoin ls.
Proof. unfold ArrayPrototypeJoin. destruct ls; [contradiction | reflexivity]. Qed.

(** Splitting undoes joining when no line holds a line feed. *)
Lemma split_join (lines : list string) :
  lines <> [] -> Forall (fun l => single_line l = true) lines ->
  StringPrototypeSplit (ArrayPrototypeJoin lines) = lines.
Proof.
  induction lines as [|l ls IH]; [contradiction|].
  intros _ Hall. apply Forall_cons in Hall as [Hl Hls].
  destruct ls as [|l' ls].
  - simpl. now apply split_single_line.
  - rewrite join_cons by discriminate. rewrite split_line_app by assumption.
    f_equal. now apply IH.
Qed.

(** Prefixing the first line prefixes the joined text. *)
Lemma join_prefix (p l : string) (ls : list string) :
  ArrayPrototypeJoin ((p ++ l) :: ls) = p ++ ArrayPrototypeJoin (l :: ls).
Proof.
  destruct ls as [|l' ls]; [reflexivity|].
  rewrite !join_cons by discriminate. apply string_app_assoc.
Qed.

(** *** The pattern *)

Lemma strip_prefix_spec (p s r : string) : strip_prefix p s = Some r <-> s = p ++ r.
Proof.
  revert s. induction p as [|a p IH]; intros s; simpl.
  - split; [now intros [= ->] | now intros ->].
  - destruct s as [|b s]; [split; discriminate|].
    destruct (Ascii.eqb_spec a b) as [->|Hne].
    + rewrite IH. split; [now intros -> | now intros [= ->]].
    + split; [discriminate | intros [= -> _]; contradiction].
Qed.

Lemma keyword_at_sound (s kw r : string) :
  keyword_at s = Some (kw, r) -> s = kw ++ r /\ is_keyword kw.
Proof.
  unfold keyword_at, is_keyword.
  destruct (strip_prefix "var" s) as [r1|] eqn:E1.
  { intros [= <- <-]. apply strip_prefix_spec in E1. auto. }
  destruct (strip_prefix "let" s) as [r2|] eqn:E2.
  { intros [= <- <-]. apply strip_prefix_spec in E2. auto. }
  destruct (strip_prefix "const" s) as [r3|] eqn:E3; [|discriminate].
  intros [= <- <-]. apply strip_prefix_spec in E3. auto.
Qed.

Lemma keyword_at_complete (kw r : string) :
  is_keyword kw -> keyword_at (kw ++ r) = Some (kw, r).
Proof. intros [-> | [-> | ->]]; reflexivity. Qed.

Lemma keyword_length (kw : string) : is_keyword kw -> (3 <= String.length kw)%nat.
Proof. intros [-> | [-> | ->]]; simpl; lia. Qed.

Section DeclarationFacts.

Variable ID_Start : ascii -> bool.
Variable ID_Continue : ascii -> bool.

Local Abbreviation continuation' := (continuation ID_Continue).
Local Abbreviation varname_at' := (varname_at ID_Start ID_Continue).
Local Abbreviation after_space' := (after_space ID_Start ID_Continue).
Local Abbreviation regex_at' := (JSVarDeclRegex_at ID_Start ID_Continue).
Local Abbreviation replace_from' := (replace_from ID_Start ID_Continue).
Local Abbreviation name_tail' := (name_tail ID_Continue).
Local Abbreviation identifier' := (identifier ID_Start ID_Continue).
Local Abbreviation name_ends' := (name_ends ID_Continue).
Local Abbreviation declaration_at' := (declaration_at ID_Start ID_Continue).
Local Abbreviation Hoisted' := (Hoisted ID_Start ID_Continue).

Lemma is_escape_true (x u a b c d : ascii) :
  is_escape x u a b c d = true ->
  x = "\"%char /\ u = "u"%char /\ is_hex a && is_hex b && is_hex c && is_hex d = true.
Proof.
  unfold is_escape. rewrite !andb_true_iff, !Ascii.eqb_eq. tauto.
Qed.

Lemma unicode_escape_sound (s e r : string) :
  unicode_escape s = Some (e, r) ->
  exists a b c d,
    e = escape_text a b c d /\ s = e ++ r
    /\ is_hex a && is_hex b && is_hex c && is_hex d = true.
Proof.
  destruct s as [|x [|u [|a [|b [|c [|d r']]]]]]; simpl; try discriminate.
  destruct (is_escape x u a b c d) eqn:E; [|discriminate].
  intros [= <- <-]. apply is_escape_true in E as (-> & -> & Hhex).
  exists a, b, c, d. auto.
Qed.

Lemma unicode_escape_complete (a b c d : ascii) (r : string) :
  is_hex a && is_hex b && is_hex c && is_hex d = true ->
  unicode_escape (escape_text a b c d ++ r) = Some (escape_text a b c d, r).
Proof.
  intros H. simpl. unfold is_escape. simpl.
  rewrite !andb_true_iff in H. destruct H as [[[-> ->] ->] ->]. reflexivity.
Qed.

(** The starred group consumes a tail of the name and stops where the
    name cannot be continued. *)
Lemma continuation_sound (n : nat) :
  forall s m t,
    (String.length s <= n)%nat -> continuation' s = (m, t) ->
    s = m ++ t /\ name_tail' m /\ name_ends' t.
Proof.
  induction n as [|n IH]; intros s m t Hlen.
  - destruct s; [|simpl in Hlen; lia]. simpl. intros [= <- <-].
    repeat split; constructor.
  - destruct s as [|x r]; simpl.
    { intros [= <- <-]. repeat split; constructor. }
    simpl in Hlen.
    destruct (continue_char ID_Continue x) eqn:Hx.
    + destruct (continuation' r) as [m' t'] eqn:E. intros [= <- <-].
      destruct (IH r m' t') as (-> & Hm & Ht); [lia | assumption |].
      repeat split; [now constructor | assumption].
    + assert (Hstop : unicode_escape (String x r) = None ->
                      String x r = "" ++ String x r /\ name_tail' "" /\ name_ends' (String x r)).
      { intros Hnone. repeat split; [constructor | assumption | assumption]. }
      destruct r as [|u [|a [|b [|c [|d r']]]]];
        try (intros [= <- <-]; now apply Hstop).
      destruct (is_escape x u a b c d) eqn:E.
      * destruct (continuation' r') as [m' t'] eqn:E'. intros [= <- <-].
        simpl in Hlen.
        destruct (IH r' m' t') as (-> & Hm & Ht); [lia | assumption |].
        apply is_escape_true in E as (-> & -> & Hhex).
        repeat split; [now constructor | assumption].
      * intros [= <- <-]. apply Hstop. simpl. now rewrite E.
Qed.

Lemma varname_at_sound (s name rest : string) :
  varname_at' s = Some (name, rest) ->
  s = name ++ rest /\ identifier' name /\ name_ends' rest.
Proof.
  unfold varname_at. destruct s as [|x r]; [discriminate|].
  destruct (start_char ID_Start x) eqn:Hx.
  - destruct (continuation' r) as [m t] eqn:E. intros [= <- <-].
    destruct (continuation_sound (String.length r) r m t) as (-> & Hm & Ht); auto.
    repeat split; [now constructor | assumption].
  - destruct (unicode_escape (String x r)) as [[e r']|] eqn:Hesc; [|discriminate].
    destruct (continuation' r') as [m t] eqn:E. intros [= <- <-].
    apply unicode_escape_sound in Hesc as (a & b & c & d & -> & Hs & Hhex).
    destruct (continuation_sound (String.length r') r' m t) as (-> & Hm & Ht); auto.
    rewrite Hs. split; [symmetry; apply string_app_assoc|].
    split; [now constructor | assumption].
Qed.

Lemma varname_at_complete (name rest : string) :
  identifier' name -> varname_at' (name ++ rest) <> None.
Proof.
  intros [c t Hc Ht | a b c d t Hhex Ht]; unfold varname_at.
  - simpl. rewrite Hc. now destruct (continuation' (t ++ rest)).
  - rewrite string_app_assoc, unicode_escape_complete by assumption.
    cbn [escape_text append].
    destruct (start_char ID_Start "\").
    + now destruct (continuation' _).
    + now destruct (continuation' (t ++ rest)).
Qed.

Lemma after_space_sound (s name rest : string) :
  after_space' s = Some (name, rest) ->
  exists ws,
    s = ws ++ name ++ rest /\ all_whitespace ws = true
    /\ identifier' name /\ name_ends' rest.
Proof.
  induction s as [|c r IH]; [discriminate|]. cbn [after_space].
  assert (Hhere : varname_at' (String c r) = Some (name, rest) ->
                  exists ws, String c r = ws ++ name ++ rest /\ all_whitespace ws = true
                             /\ identifier' name /\ name_ends' rest).
  { intros H. apply varname_at_sound in H as (? & ? & ?). exists "". auto. }
  destruct (is_whitespace c) eqn:Hc; [|exact Hhere].
  destruct (after_space' r) as [[name' rest']|] eqn:E; [|exact Hhere].
  intros [= -> ->]. destruct (IH eq_refl) as (ws & -> & Hws & Hid & Hend).
  exists (String c ws). simpl. rewrite Hc. auto.
Qed.

Lemma after_space_complete (ws name rest : string) :
  all_whitespace ws = true -> identifier' name ->
  after_space' (ws ++ name ++ rest) <> None.
Proof.
  intros Hws Hid. induction ws as [|c ws IH].
  - pose proof (varname_at_complete name rest Hid) as Hv. cbn [append].
    destruct (name ++ rest) as [|x r] eqn:E; [now destruct Hid|].
    cbn [after_space].
    destruct (if is_whitespace x then after_space' r else None); [discriminate | exact Hv].
  - simpl in Hws. apply andb_true_iff in Hws as [Hc Hws].
    cbn [append after_space]. rewrite Hc.
    destruct (after_space' (ws ++ name ++ rest)); [discriminate | exfalso; now apply IH].
Qed.

(** A match of the pattern at the head of [s] is a declaration form. *)
Lemma JSVarDeclRegex_at_sound (s kw name rest : string) :
  regex_at' s = Some (kw, name, rest) ->
  exists ws,
    s = kw ++ ws ++ name ++ rest /\ is_keyword kw /\ ws <> "" /\ all_whitespace ws = true
    /\ identifier' name /\ name_ends' rest.
Proof.
  unfold JSVarDeclRegex_at.
  destruct (keyword_at s) as [[kw' [|c r]]|] eqn:Hk; try discriminate.
  destruct (is_whitespace c) eqn:Hc; [|discriminate].
  destruct (after_space' r) as [[name' rest']|] eqn:Ha; [|discriminate].
  intros [= -> -> ->].
  apply keyword_at_sound in Hk as [-> Hkw].
  apply after_space_sound in Ha as (ws & -> & Hws & Hid & Hend).
  exists (String c ws). simpl. rewrite Hc. repeat split; auto; discriminate.
Qed.

(** Where the text starts with a declaration form, the pattern matches. *)
Lemma JSVarDeclRegex_at_complete (s : string) :
  declaration_at' s -> regex_at' s <> None.
Proof.
  intros (kw & ws & name & rest & -> & Hkw & Hne & Hws & Hid).
  unfold JSVarDeclRegex_at. rewrite keyword_at_complete by assumption.
  destruct ws as [|c ws]; [contradiction|]. simpl in Hws.
  apply andb_true_iff in Hws as [Hc Hws]. cbn [append]. rewrite Hc.
  pose proof (after_space_complete ws name rest Hws Hid).
  now destruct (after_space' (ws ++ name ++ rest)) as [[? ?]|].
Qed.

(** With enough fuel the replacement follows [Hoisted]. *)
Lemma replace_from_sound (fuel : nat) :
  forall s h t,
    (String.length s <= fuel)%nat -> replace_from' fuel s = (h, t) -> Hoisted' s h t.
Proof.
  induction fuel as [|fuel IH]; intros s h t Hlen.
  - destruct s; [|simpl in Hlen; lia]. intros [= <- <-]. constructor.
  - destruct s as [|c r]; [intros [= <- <-]; constructor|].
    cbn [replace_from].
    destruct (regex_at' (String c r)) as [[[kw name] rest]|] eqn:Hm.
    + destruct (replace_from' fuel rest) as [h' t'] eqn:E. intros [= <- <-].
      apply JSVarDeclRegex_at_sound in Hm as (ws & Hs & Hkw & Hne & Hws & Hid & Hend).
      rewrite Hs. unfold hoisted_declaration. rewrite !string_app_assoc.
      apply Hoisted_declaration; auto.
      apply IH; [|assumption].
      apply (f_equal String.length) in Hs. rewrite !string_length_app in Hs.
      pose proof (keyword_length kw Hkw). lia.
    + destruct (replace_from' fuel r) as [h' t'] eqn:E. intros [= <- <-].
      apply Hoisted_copy.
      * intros Hd. now apply JSVarDeclRegex_at_complete in Hd.
      * apply IH; [simpl in Hlen; lia | assumption].
Qed.

Lemma StringPrototypeReplaceAll_sound (text h t : string) :
  StringPrototypeReplaceAll ID_Start ID_Continue text = (h, t) -> Hoisted' text h t.
Proof. apply replace_from_sound. lia. Qed.

(** *** The array of lines *)

Lemma array_load_last (front : list string) (last : string) :
  array_load (front ++ [last]) (Z.of_nat (length (front ++ [last])) - 1) = last.
Proof.
  unfold array_load. rewrite length_app. simpl.
  destruct (Z.ltb_spec (Z.of_nat (length front + 1) - 1) 0); [lia|].
  replace (Z.to_nat (Z.of_nat (length front + 1) - 1)) with (length front) by lia.
  now rewrite list_lookup_middle.
Qed.

Lemma array_store_last (front : list string) (last x : string) :
  array_store (front ++ [last]) (Z.of_nat (length (front ++ [last])) - 1) x
  = (front ++ [x])%list.
Proof.
  unfold array_store. rewrite length_app. simpl.
  destruct (Z.ltb_spec (Z.of_nat (length front + 1) - 1) 0); [lia|].
  replace (Z.to_nat (Z.of_nat (length front + 1) - 1)) with (length front + 0)%nat by lia.
  destruct (Nat.ltb_spec (length front + 0) (length front + 1)); [|lia].
  now rewrite insert_app_r.
Qed.

Lemma join_store_first (p : string) (lines : list string) :
  lines <> [] ->
  ArrayPrototypeJoin (array_store lines 0 (p ++ array_load lines 0))
  = p ++ ArrayPrototypeJoin lines.
Proof.
  destruct lines as [|l ls]; [contradiction|]. intros _.
  unfold array_store, array_load. simpl. apply join_prefix.
Qed.

(** The lines that are kept: all of them when the last one is not blank,
    all but the last one when it is. *)
Lemma kept_lines (lines : list string) (last : string) :
  match StringTrim (array_load (lines ++ [last])
                      (Z.of_nat (length (lines ++ [last])) - 1)) with
  | EmptyString => ArrayPrototypePop (lines ++ [last])
  | _ => (lines ++ [last])%list
  end = if all_whitespace last then lines else (lines ++ [last])%list.
Proof.
  rewrite array_load_last.
  destruct (all_whitespace last) eqn:E.
  - apply StringTrim_empty in E. rewrite E. apply removelast_last.
  - destruct (StringTrim last) eqn:E'; [|reflexivity].
    apply StringTrim_empty in E'. congruence.
Qed.

(** The text handed to [replaceAll] when the kept lines are
    [front ++ [last]]. *)
Lemma wrapped_body (front : list string) (last : string) :
  let lines := (front ++ [last])%list in
  let lines' :=
    array_store lines (Z.of_nat (length lines) - 1)
      ("return " ++ array_load lines (Z.of_nat (length lines) - 1) ++ ";})();") in
  ArrayPrototypeJoin (array_store lines' 0 ("(async()=>{" ++ array_load lines' 0))
  = "(async()=>{" ++ ArrayPrototypeJoin (front ++ ["return " ++ last ++ ";})();"]).
Proof.
  intros lines lines'. subst lines lines'.
  rewrite array_load_last, array_store_last.
  apply join_store_first. now destruct front.
Qed.

(** C6 (amended).  Let the fragment consist of the lines [front] and
    [last], possibly followed by one more line of white space only (which
    is dropped).  Then the result is [hoisted ++ transformed], where the
    two texts arise from the wrapped body: the lines joined again, the
    first one prefixed with [(async()=>{] and the last one turned into
    [return <last>;})();] (no parentheses are put around the line).  In
    the wrapped body every form [var|let|const <identifier>] is replaced
    by the identifier alone, and [hoisted] re-declares the identifiers in
    the same order, with [let] for [const] and the original keyword
    otherwise. *)
Theorem tryProcessTopLevelAwait_wraps_and_hoists
  (src : string) (front : list string) (last blank : string) :
  Forall (fun l => single_line l = true) (front ++ [last]) ->
  (src = ArrayPrototypeJoin (front ++ [last]) /\ all_whitespace last = false)
  \/ (src = ArrayPrototypeJoin (front ++ [last; blank])
      /\ all_whitespace blank = true /\ single_line blank = true) ->
  exists hoisted transformed,
    tryProcessTopLevelAwait ID_Start ID_Continue src = hoisted ++ transformed
    /\ Hoisted' ("(async()=>{" ++ ArrayPrototypeJoin (front ++ ["return " ++ last ++ ";})();"]))
         hoisted transformed.
Proof.
  intros Hlines Hsrc.
  assert (Hkept :
    match StringTrim (array_load (StringPrototypeSplit src)
                        (Z.of_nat (length (StringPrototypeSplit src)) - 1)) with
    | EmptyString => ArrayPrototypePop (StringPrototypeSplit src)
    | _ => StringPrototypeSplit src
    end = (front ++ [last])%list).
  { destruct Hsrc as [[-> Hlast] | (-> & Hblank & Hone)].
    - rewrite split_join; [|now destruct front | assumption].
      now rewrite kept_lines, Hlast.
    - replace (front ++ [last; blank])%list with ((front ++ [last]) ++ [blank])%list
        by now rewrite <- app_assoc.
      rewrite split_join.
      + now rewrite kept_lines, Hblank.
      + now destruct front.
      + apply Forall_app. split; [assumption | now constructor]. }
  unfold tryProcessTopLevelAwait. rewrite Hkept.
  rewrite wrapped_body.
  destruct (StringPrototypeReplaceAll ID_Start ID_Continue _) as [hoisted transformed] eqn:E.
  exists hoisted, transformed. split; [reflexivity|].
  now apply StringPrototypeReplaceAll_sound.
Qed.

End DeclarationFacts.

(** *** The rewrite at work *)

Example rewrite_of_two_lines :
  tla ("const x = await f()" ++ newline ++ "x" ++ newline)
  = "let x;(async()=>{x = await f()" ++ newline ++ "return x;})();".
Proof. reflexivity. Qed.

Example rewrite_keeps_var_and_let :
  tla "var a = 1, b; let c2 = await g(a)"
  = "var a;let c2;(async()=>{return a = 1, b; c2 = await g(a);})();".
Proof. reflexivity. Qed.

(** A declaration, a last line and a blank line after it. *)
Lemma rewrite_of_a_declaration :
  let src := "const x = await f()" ++ newline ++ "x" ++ newline in
  (Forall (fun l => single_line l = true) (["const x = await f()"] ++ ["x"])
   /\ src = ArrayPrototypeJoin (["const x = await f()"] ++ ["x"; ""])
   /\ all_whitespace "" = true /\ single_line "" = true)
  /\ exists hoisted transformed,
       tla src = hoisted ++ transformed
       /\ Hoisted latin1_ID_Start latin1_ID_Continue
            ("(async()=>{" ++ ArrayPrototypeJoin (["const x = await f()"] ++ ["return x;})();"]))
            hoisted transformed.
Proof.
  intros src.
  assert (Hlines : Forall (fun l => single_line l = true) (["const x = await f()"] ++ ["x"]))
    by (repeat constructor).
  split; [repeat split; assumption|].
  exact (tryProcessTopLevelAwait_wraps_and_hoists latin1_ID_Start latin1_ID_Continue
           src ["const x = await f()"] "x" ""
           Hlines (or_intror (conj eq_refl (conj eq_refl eq_refl)))).
Defined.

(** The last line is returned as it stands, without parentheses. *)
Lemma last_line_is_returned_without_parentheses :
  tla "await f()" = "(async()=>{return await f();})();"
  /\ tla "await f()" <> "(async()=>{return (await f());})();".
Proof. split; [reflexivity | discriminate]. Qed.

(** A fragment that is one blank line loses its only line; what is left
    is not a closure. *)
Example rewrite_of_a_blank_line : tla "  " = "(async()=>{undefined".
Proof. reflexivity. Qed.

(** * Further properties *)

(** ** The correlation layer *)

Section CorrelationMore.

Context {Payload Params : Type}.
Variable TextDecoder_decode : list Byte.byte -> string.
Variable BufferToString : list Byte.byte -> string.
Variable JSONParse : string -> Completion (@ResponseData Payload).

Local Abbreviation onmessage' := (onmessage TextDecoder_decode BufferToString JSONParse).
Local Abbreviation step' := (step TextDecoder_decode BufferToString JSONParse).
Local Abbreviation run' := (run TextDecoder_decode BufferToString JSONParse).
Local Abbreviation allocated' := (allocated TextDecoder_decode BufferToString JSONParse).
Local Abbreviation reachable' := (reachable TextDecoder_decode BufferToString JSONParse).
Local Abbreviation decode' := (wsDataToString TextDecoder_decode BufferToString).
Local Abbreviation State := (@Conn Payload Params).

Implicit Types (s : State) (n m p : N) (cb : JSCResponsePromiseCallbacks).

Ltac unfold_onmessage :=
  unfold onmessage, try_catch, bind, lift, throw, gets, modify, ret,
    reject, resolve, settle, MapGet, MapDelete.

Lemma onmessage_counters (d : WsData) s :
  sent (snd (onmessage' d s)) = sent s /\ created (snd (onmessage' d s)) = created s.
Proof.
  unfold_onmessage.
  destruct (JSONParse (decode' d)) as [[| |[n|x] e r]|err]; simpl; auto.
  destruct (pendingReqs s !! n) as [cb|]; simpl; auto.
  destruct e as [e|], r as [r|]; simpl; auto;
    destruct (promises s !! promise cb) as [[| |]|]; auto.
Qed.

(** X1.  Whatever arrives on the socket (text that is not JSON, [null],
    a primitive, an object with any id and any members), the handler
    completes normally; it allocates no id, creates no promise and writes
    nothing to the socket. *)
Theorem onmessage_never_raises (d : WsData) s :
  fst (onmessage' d s) = Normal tt
  /\ reqID (snd (onmessage' d s)) = reqID s
  /\ created (snd (onmessage' d s)) = created s
  /\ sent (snd (onmessage' d s)) = sent s.
Proof.
  split; [apply onmessage_normal|]. split; [apply onmessage_reqID|].
  destruct (onmessage_counters d s). auto.
Qed.

(** X2.  A frame that is not JSON, that decodes to [null] or to a
    primitive, or whose id finds no entry in the table (an unknown number,
    or an id that is not a number) is logged with the text received and
    dropped: the table and every promise are exactly as before, and the
    console has one more line.  For an object the line names the id. *)
Theorem unmatched_frame_is_logged_and_dropped (d : WsData) s :
  match JSONParse (decode' d) with
  | Normal (DObject id _ _) => MapGet (pendingReqs s) id = None
  | _ => True
  end ->
  let s' := snd (onmessage' d s) in
  pendingReqs s' = pendingReqs s
  /\ promises s' = promises s
  /\ (exists err, console s' = (console s ++ [ws_message_error err (decode' d)])%list)
  /\ forall id e r,
       JSONParse (decode' d) = Normal (DObject id e r) ->
       console s' =
       (console s ++
        [ws_message_error
           (ThrownValue (JSString ("Received message for unknown request ID: " ++ render_id id)))
           (decode' d)])%list.
Proof.
  intros H s'. subst s'. unfold_onmessage.
  destruct (JSONParse (decode' d)) as [[| |id e r]|err]; simpl in *;
    try (repeat split; eauto; intros; discriminate).
  unfold MapGet in H. destruct id as [n|x]; rewrite ?H; simpl.
  - repeat split; eauto. now intros ? ? ? [= <- _ _].
  - repeat split; eauto. now intros ? ? ? [= <- _ _].
Qed.

(** X3.  A call followed by its success reply is a round trip: the promise
    [request] returned is fulfilled with the result of the frame, the
    table is again what it was before the call, and no other promise has
    changed. *)
Theorem request_then_reply_round_trip
  (method : string) (params : Params) (d : WsData) (v : Payload) s :
  reachable' s ->
  (reqID s < MAX_EXACT)%N ->
  JSONParse (decode' d) = Normal (DObject (IdNumber (reqID s + 1)) None (Some v)) ->
  let p := fst (request method params s) in
  let s1 := snd (request method params s) in
  let s2 := snd (onmessage' d s1) in
  p = Normal (created s)
  /\ promises s1 !! created s = Some Pending
  /\ promises s2 !! created s = Some (Fulfilled v)
  /\ pendingReqs s2 = pendingReqs s
  /\ forall q, q <> created s -> promises s2 !! q = promises s !! q.
Proof.
  intros Hreach Hlt Hd p s1 s2.
  pose proof (reachable_well_formed _ _ _ s Hreach) as (Hpend & Hinj & Hcre & Hkeys).
  assert (Hfresh : pendingReqs s !! (reqID s + 1)%N = None).
  { destruct (pendingReqs s !! (reqID s + 1)%N) eqn:E; [|reflexivity].
    assert (1 <= reqID s + 1 <= reqID s)%N by (apply Hkeys; eauto). lia. }
  subst p s2 s1. rewrite request_unfold. simpl.
  rewrite number_increment_exact by assumption.
  split; [reflexivity|].
  split; [apply lookup_insert_eq|].
  erewrite onmessage_matched;
    [ | exact Hd | apply lookup_insert_eq | apply lookup_insert_eq | right; eauto ].
  simpl. split; [apply lookup_insert_eq|].
  split; [now apply delete_insert_id|].
  intros q Hq. now rewrite !lookup_insert_ne by auto.
Qed.

Lemma settled_step (ev : @Event Params) s p (st : PromiseState) :
  well_formed s -> promises s !! p = Some st -> st <> Pending ->
  promises (step' ev s) !! p = Some st.
Proof.
  intros (Hpend & Hinj & Hcre & Hkeys) Hp Hst.
  destruct ev as [method params|d]; unfold step.
  - rewrite request_unfold. simpl. rewrite lookup_insert_ne; [assumption|].
    intros <-. assert (created s < created s)%N by (apply Hcre; eauto). lia.
  - unfold_onmessage.
    destruct (JSONParse (decode' d)) as [[| |[n|x] e r]|err]; simpl; auto.
    destruct (pendingReqs s !! n) as [cb|] eqn:Hn; simpl; auto.
    assert (promise cb <> p).
    { intros <-. rewrite (Hpend _ _ Hn) in Hp. congruence. }
    destruct e as [e|], r as [r|]; simpl; auto;
      destruct (promises s !! promise cb) as [[| |]|]; simpl; auto;
      now rewrite lookup_insert_ne by auto.
Qed.

(** X4.  A promise that has been settled keeps its outcome: no later call
    and no later frame, not even a second reply carrying the same id,
    changes a fulfilled or rejected promise. *)
Theorem settled_promise_keeps_its_outcome
  (evs : list (@Event Params)) s p (st : PromiseState) :
  reachable' s ->
  promises s !! p = Some st -> st <> Pending ->
  promises (run' evs s) !! p = Some st.
Proof.
  intros Hreach. apply reachable_well_formed in Hreach.
  revert s Hreach. induction evs as [|ev evs IH]; intros s Hwf Hp Hst; simpl; [assumption|].
  apply IH; [now apply well_formed_step | now apply settled_step | assumption].
Qed.

(** X5.  A reply delivered twice completes its call once: the second copy
    finds no entry, is logged as a message for an unknown request id, and
    leaves the table and every promise as the first copy left them. *)
Theorem duplicate_reply_is_ignored
  (d : WsData) s n cb (e : option ErrorInfo) (r : option Payload) :
  JSONParse (decode' d) = Normal (DObject (IdNumber n) e r) ->
  pendingReqs s !! n = Some cb ->
  let s1 := snd (onmessage' d s) in
  let s2 := snd (onmessage' d s1) in
  pendingReqs s1 !! n = None
  /\ pendingReqs s2 = pendingReqs s1
  /\ promises s2 = promises s1
  /\ console s2 =
     (console s1 ++
      [ws_message_error
         (ThrownValue (JSString ("Received message for unknown request ID: " ++ decimal n)))
         (decode' d)])%list.
Proof.
  intros Hd Hn s1 s2.
  assert (Hgone : pendingReqs s1 !! n = None).
  { subst s1. unfold_onmessage. rewrite Hd. simpl. rewrite Hn. simpl.
    destruct e as [e|], r as [r|]; simpl;
      try destruct (promises s !! promise cb) as [[| |]|]; simpl; apply lookup_delete_eq. }
  split; [assumption|].
  subst s2. unfold_onmessage. rewrite Hd. simpl. rewrite Hgone. simpl. auto.
Qed.

Lemma step_sent (ev : @Event Params) s :
  req_id <$> sent (step' ev s) =
  ((req_id <$> sent s) ++ match ev with
                          | Call _ _ => [reqID (step' ev s)]
                          | Inbound _ => []
                          end)%list.
Proof.
  destruct ev as [method params|d]; unfold step.
  - rewrite request_unfold. simpl. now rewrite fmap_app.
  - destruct (onmessage_counters d s) as [-> _]. now rewrite app_nil_r.
Qed.

Lemma run_sent (evs : list (@Event Params)) s :
  req_id <$> sent (run' evs s) = ((req_id <$> sent s) ++ allocated' evs s)%list.
Proof.
  revert s. induction evs as [|ev evs IH]; intros s.
  - simpl. now rewrite app_nil_r.
  - change (run' (ev :: evs) s) with (run' evs (step' ev s)).
    rewrite IH, step_sent. cbn [allocated]. now rewrite <- app_assoc.
Qed.

(** X6.  The frames written to the socket carry, in order, exactly the
    ids that were handed out: inbound frames send nothing, and each call
    appends one frame, with the method and the parameters of the call,
    whose id is the key under which the callbacks of that call are
    stored at the moment the frame is sent. *)
Theorem sent_frames_carry_the_allocated_ids (evs : list (@Event Params)) :
  req_id <$> sent (run' evs initial) = allocated' evs initial
  /\ forall (method : string) (params : Params),
       let s := run' evs initial in
       let s' := step' (Call method params) s in
       exists frame,
         sent s' = (sent s ++ [frame])%list
         /\ req_method frame = method /\ req_params frame = params
         /\ pendingReqs s' !! req_id frame = Some {| promise := created s |}.
Proof.
  split; [now rewrite run_sent|].
  intros method params s s'. subst s'. unfold step. rewrite request_unfold. simpl.
  eexists. split; [reflexivity|]. simpl. repeat split. apply lookup_insert_eq.
Qed.

End CorrelationMore.

(** A message for an id nobody asked for, while two calls are in flight. *)
Lemma unknown_id_is_dropped :
  let s := example_run two_calls initial in
  let s' := snd (onmessage example_decode example_decode example_JSONParse unknown_reply s) in
  MapGet (pendingReqs s) (IdNumber 7) = None
  /\ pendingReqs s' = pendingReqs s
  /\ promises s' = promises s.
Proof.
  intros s s'.
  assert (H : MapGet (pendingReqs s) (IdNumber 7) = None) by reflexivity.
  split; [exact H|].
  destruct (unmatched_frame_is_logged_and_dropped
              example_decode example_decode example_JSONParse unknown_reply s H)
    as (Ht & Hp & _).
  split; [exact Ht | exact Hp].
Defined.

(** The first call of a session and its answer. *)
Lemma first_call_round_trip :
  let s := @initial N unit in
  let s1 := snd (request "Runtime.enable" tt s) in
  let s2 := snd (onmessage example_decode example_decode example_JSONParse reply_11 s1) in
  (reachable example_decode example_decode example_JSONParse s
   /\ (reqID s < MAX_EXACT)%N
   /\ example_JSONParse (wsDataToString example_decode example_decode reply_11)
      = Normal (DObject (IdNumber (reqID s + 1)) None (Some 11%N)))
  /\ promises s2 !! 0%N = Some (Fulfilled 11%N)
  /\ pendingReqs s2 = ∅.
Proof.
  intros s s1 s2.
  assert (Hreach : reachable example_decode example_decode example_JSONParse s)
    by constructor.
  assert (Hlt : (reqID s < MAX_EXACT)%N) by reflexivity.
  assert (Hd : example_JSONParse (wsDataToString example_decode example_decode reply_11)
               = Normal (DObject (IdNumber (reqID s + 1)) None (Some 11%N))) by reflexivity.
  split; [auto|].
  destruct (request_then_reply_round_trip
              example_decode example_decode example_JSONParse
              "Runtime.enable" tt reply_11 11%N s Hreach Hlt Hd)
    as (_ & _ & Hful & Htable & _).
  split; [exact Hful | exact Htable].
Defined.

(** A fulfilled promise survives a duplicate of its reply and a new call. *)
Lemma fulfilled_promise_survives :
  let s := example_run [Call "Runtime.enable" tt; Inbound reply_11] initial in
  (reachable example_decode example_decode example_JSONParse s
   /\ promises s !! 0%N = Some (Fulfilled 11%N))
  /\ promises (example_run [Inbound reply_11; Call "Runtime.evaluate" tt] s) !! 0%N
     = Some (Fulfilled 11%N).
Proof.
  intros s.
  assert (Hreach : reachable example_decode example_decode example_JSONParse s).
  { exact (reachable_step _ _ _ (Inbound reply_11) _
             (reachable_step _ _ _ (Call "Runtime.enable" tt) _ (reachable_initial _ _ _))). }
  assert (Hp : promises s !! 0%N = Some (Fulfilled 11%N)) by reflexivity.
  split; [auto|].
  exact (settled_promise_keeps_its_outcome
           example_decode example_decode example_JSONParse
           [Inbound reply_11; Call "Runtime.evaluate" tt] s 0%N (Fulfilled 11%N)
           Hreach Hp ltac:(discriminate)).
Defined.

(** The same reply twice. *)
Lemma second_copy_is_ignored :
  let s := example_run [Call "Runtime.enable" tt] initial in
  let s1 := snd (onmessage example_decode example_decode example_JSONParse reply_11 s) in
  let s2 := snd (onmessage example_decode example_decode example_JSONParse reply_11 s1) in
  (example_JSONParse (wsDataToString example_decode example_decode reply_11)
   = Normal (DObject (IdNumber 1) None (Some 11%N))
   /\ pendingReqs s !! 1%N = Some {| promise := 0 |})
  /\ promises s2 = promises s1
  /\ pendingReqs s2 = pendingReqs s1.
Proof.
  intros s s1 s2.
  assert (Hd : example_JSONParse (wsDataToString example_decode example_decode reply_11)
               = Normal (DObject (IdNumber 1) None (Some 11%N))) by reflexivity.
  assert (Hn : pendingReqs s !! 1%N = Some {| promise := 0 |}) by reflexivity.
  split; [auto|].
  destruct (duplicate_reply_is_ignored
              example_decode example_decode example_JSONParse
              reply_11 s 1%N {| promise := 0 |} None (Some 11%N) Hd Hn)
    as (_ & Ht & Hp & _).
  split; [exact Hp | exact Ht].
Defined.

(** ** The inspection fallback chain *)

(** X7.  The native inspector is only ever consulted on adjusted options:
    a [null] depth has become [Infinity], a [sorted] function has become
    [true], and every other member is the caller's.  So [SafeInspect]
    cannot tell apart two native inspectors that agree on options with a
    depth other than [null] and a [sorted] other than a function. *)
Theorem native_inspector_sees_adjusted_options
  (C : Colors) (utl_inspect b1 b2 : any -> InspectOptions -> Completion string)
  (concat_empty : any -> Completion any) (val : any) (opts : InspectOptions) (out : Console) :
  (depth (native_options opts) <> DepthNull
   /\ sorted (native_options opts) <> SortedFunction
   /\ colors (native_options opts) = colors opts
   /\ showProxy (native_options opts) = showProxy opts
   /\ (depth opts <> DepthNull -> depth (native_options opts) = depth opts)
   /\ (sorted opts <> SortedFunction -> sorted (native_options opts) = sorted opts))
  /\ ((forall v o, depth o <> DepthNull -> sorted o <> SortedFunction -> b1 v o = b2 v o) ->
      SafeInspect C utl_inspect b1 concat_empty val opts out
      = SafeInspect C utl_inspect b2 concat_empty val opts out).
Proof.
  assert (Hadj : depth (native_options opts) <> DepthNull
                 /\ sorted (native_options opts) <> SortedFunction).
  { unfold native_options. destruct opts as [[] [] ? ?]; simpl; split; discriminate. }
  split.
  - destruct Hadj as [Hd Hs]. split; [exact Hd|]. split; [exact Hs|].
    unfold native_options. destruct opts as [[] [] ? ?]; simpl; repeat split; congruence.
  - intros Hagree. unfold SafeInspect, try_catch, lift.
    destruct (utl_inspect val opts); [reflexivity|].
    destruct Hadj as [Hd Hs]. now rewrite (Hagree val (native_options opts) Hd Hs).
Qed.

(** ** Evaluation *)

Section EvaluationMore.

Variable C : Colors.
Variable enableANSIColors : bool.
Variable utl_inspect : any -> InspectOptions -> Completion string.
Variable bunInspect : any -> InspectOptions -> Completion string.
Variable concat_empty : any -> Completion any.
Variable remote : list RuntimeRequest -> RuntimeRequest -> Globals -> Completion Response.t * Globals.

Local Abbreviation await_request' := (await_request remote).
Local Abbreviation rawEval' := (rawEval remote).
Local Abbreviation ObjectTypeHandler' := (ObjectTypeHandler C remote).
Local Abbreviation bigint_branch' :=
  (bigint_branch C enableANSIColors utl_inspect bunInspect concat_empty).
Local Abbreviation render_branch' := (render_branch C enableANSIColors remote).
Local Abbreviation eval' :=
  (eval C enableANSIColors utl_inspect bunInspect concat_empty remote).

Implicit Types (s : Session) (o result remoteObj : RemoteObject) (r : Response.t).

Local Abbreviation render_request' := (render_request enableANSIColors).

(** *** Requests, whatever the outcome *)

Lemma promise_handler_effects (tla : bool) result (pv : ObjectPreview) s :
  let s1 := snd (promise_handler C remote tla result pv s) in
  extraOut s1 = extraOut s
  /\ globalObjectID s1 = globalObjectID s
  /\ issued s1 =
     (issued s ++ if tla then [Runtime_awaitPromise (default "" (objectId result)) false]
                  else [])%list.
Proof.
  cbv zeta. destruct (promise_handler C remote tla result pv s) as [c s1] eqn:H. simpl.
  unfold promise_handler in H. destruct tla.
  - unfold bind at 1 2 in H. rewrite await_request_unfold in H.
    destruct (remote (issued s) (Runtime_awaitPromise (default "" (objectId result)) false)
                (GLOBAL s)) as [[awaited|e] g]; simpl in H.
    + unfold bind, modify, ret in H.
      destruct (typeof _ type_undefined); destruct (status_rejected pv);
        injection H as <- <-; simpl; auto.
    + injection H as <- <-. simpl. auto.
  - unfold bind, ret in H. destruct (status_rejected pv); injection H as <- <-;
      rewrite app_nil_r; auto.
Qed.

Lemma ObjectTypeHandler_effects (tla : bool) result s :
  let s1 := snd (ObjectTypeHandler' tla result s) in
  extraOut s1 = extraOut s
  /\ globalObjectID s1 = globalObjectID s
  /\ (issued s1 = issued s
      \/ tla = true
         /\ issued s1
            = (issued s ++ [Runtime_awaitPromise (default "" (objectId result)) false])%list).
Proof.
  cbv zeta. unfold ObjectTypeHandler.
  destruct (typeof result type_object); simpl; [|auto].
  destruct (subtypeof result subtype_null); simpl; [auto|].
  destruct (truthy_string (objectId result)); simpl; [|auto].
  destruct (is_class result "Promise"); simpl; [|auto].
  destruct (preview result) as [pv|]; simpl; [|auto].
  destruct (promise_handler_effects tla result pv s) as (He & Hg & Hi).
  split; [assumption|]. split; [assumption|].
  destruct tla; [right | left; rewrite Hi, app_nil_r]; auto.
Qed.

Lemma render_branch_effects remoteObj s :
  issued (snd (render_branch' remoteObj s)) = (issued s ++ [render_request' remoteObj s])%list.
Proof.
  destruct (render_branch' remoteObj s) as [c s'] eqn:H. simpl.
  unfold render_branch, render_request in *.
  unfold bind at 1 2 3 in H. unfold modify at 1, gets at 1 in H.
  rewrite await_request_unfold in H. simpl in H.
  destruct (remote _ _ _) as [[inspected|e] g]; simpl in H; [|now injection H as <- <-].
  unfold bind at 1 in H. unfold modify at 1 in H. simpl in H.
  destruct (truthy_bool (Response.wasThrown inspected)); [now injection H as <- <-|].
  destruct (typeof (Response.result inspected) type_string); simpl in H;
    [|now injection H as <- <-].
  unfold bind, modify, ret in H. simpl in H.
  destruct (truthy_bool (wasThrown remoteObj) && negb (subtypeof remoteObj subtype_error));
    destruct (extraOut s); now injection H as <- <-.
Qed.

(** The requests of one evaluation. *)
Lemma eval_requests (code : string) (tla : bool) s :
  exists aw cf,
    issued (snd (eval' code tla s))
    = (issued s ++ [Runtime_evaluate code true] ++ aw ++ cf)%list
    /\ (aw = [] \/ tla = true /\ exists id, aw = [Runtime_awaitPromise id false])
    /\ (cf = [] \/ exists q, cf = [q] /\ is_callFunctionOn q = true).
Proof.
  unfold eval. unfold bind at 1. unfold rawEval. rewrite await_request_unfold.
  destruct (remote (issued s) (Runtime_evaluate code true) (GLOBAL s)) as [[r|e] g]; simpl.
  2:{ exists [], []. simpl. auto. }
  set (s0 := set_GLOBAL g (set_issued (issued s ++ [Runtime_evaluate code true]) s)).
  set (result := set_wasThrown (Response.wasThrown r) (Response.result r)).
  pose proof (ObjectTypeHandler_effects tla result s0) as (_ & _ & Hi).
  unfold bind.
  destruct (ObjectTypeHandler' tla result s0) as [[remoteObj|e] s1] eqn:Hh; simpl in Hi.
  - assert (Haw : exists aw,
               issued s1 = (issued s ++ [Runtime_evaluate code true] ++ aw)%list
               /\ (aw = [] \/ tla = true /\ exists id, aw = [Runtime_awaitPromise id false])).
    { destruct Hi as [Hi | [Ht Hi]]; rewrite Hi; subst s0; simpl.
      - exists []. auto.
      - eexists. rewrite <- app_assoc. split; [reflexivity|]. right. eauto. }
    destruct Haw as (aw & Haw & Hshape).
    destruct (typeof remoteObj type_bigint).
    + destruct (bigint_branch_frame C enableANSIColors utl_inspect bunInspect concat_empty
                  remoteObj s1) as (_ & ->).
      exists aw, []. rewrite app_nil_r. auto.
    + exists aw, [render_request' remoteObj s1].
      split; [|split; [assumption | right; eauto]].
      rewrite render_branch_effects.
      transitivity ((issued s ++ [Runtime_evaluate code true] ++ aw)
                    ++ [render_request' remoteObj s1])%list;
        [f_equal; exact Haw | now rewrite <- !app_assoc].
  - cbn [snd]. destruct Hi as [Hi | [Ht Hi]]; rewrite Hi; subst s0; simpl.
    + exists [], []. auto.
    + eexists _, []. rewrite <- app_assoc, app_nil_r. split; [reflexivity|]. split; [|auto].
      right. eauto.
Qed.

(** X8.  Whatever the remote end answers and however the evaluation ends,
    [eval] sends [Runtime.evaluate] first, then at most one
    [Runtime.awaitPromise], then at most one [Runtime.callFunctionOn], and
    nothing else.  Without [topLevelAwaited] it never sends
    [Runtime.awaitPromise]. *)
Theorem eval_sends_at_most_three_requests (code : string) (tla : bool) s :
  exists aw cf,
    issued (snd (eval' code tla s))
    = (issued s ++ [Runtime_evaluate code true] ++ aw ++ cf)%list
    /\ (aw = [] \/ tla = true /\ exists id, aw = [Runtime_awaitPromise id false])
    /\ (cf = [] \/ exists q, cf = [q] /\ is_callFunctionOn q = true).
Proof. exact (eval_requests code tla s). Qed.

(** X9.  A result that is [null] (type [object], subtype [null]) goes
    straight to the render call: no object id is required of it, it is
    never awaited even with [topLevelAwaited] set, and exactly two
    requests are sent, the second one rendering the result itself. *)
Theorem null_result_is_rendered_directly (code : string) (tla : bool) s r s0 :
  rawEval' code s = (Normal r, s0) ->
  type (Response.result r) = type_object ->
  subtype (Response.result r) = Some subtype_null ->
  let result := set_wasThrown (Response.wasThrown r) (Response.result r) in
  eval' code tla s = render_branch' result s0
  /\ issued (snd (eval' code tla s))
     = (issued s ++ [Runtime_evaluate code true; render_request' result s0])%list.
Proof.
  intros H0 Hty Hsub result.
  assert (Hh : ObjectTypeHandler' tla result s0 = (Normal result, s0)).
  { unfold ObjectTypeHandler, typeof, subtypeof. subst result. simpl.
    rewrite Hty, Hsub. reflexivity. }
  assert (Hb : typeof result type_bigint = false).
  { unfold typeof. subst result. simpl. rewrite Hty. reflexivity. }
  rewrite (eval_unfold C enableANSIColors utl_inspect bunInspect concat_empty remote
             code tla s r s0 result s0 H0 Hh), Hb.
  split; [reflexivity|].
  rewrite render_branch_effects.
  destruct (rawEval_frame remote code s r s0 H0) as (_ & ->).
  now rewrite <- app_assoc.
Qed.

(** X10.  A reply that breaks the protocol stops the evaluation before
    anything else is sent: an object that is not [null] and has no object
    id, and a promise without a preview, each make [eval] throw an
    [EvalError] right after [Runtime.evaluate], with the flags
    untouched. *)
Theorem malformed_object_reply_is_an_EvalError (code : string) (tla : bool) s r s0 :
  rawEval' code s = (Normal r, s0) ->
  type (Response.result r) = type_object ->
  subtype (Response.result r) <> Some subtype_null ->
  (truthy_string (objectId (Response.result r)) = false ->
   eval' code tla s = (Throw (EvalError "Received non-null object without objectId"), s0))
  /\ (truthy_string (objectId (Response.result r)) = true ->
      className (Response.result r) = Some "Promise" ->
      preview (Response.result r) = None ->
      eval' code tla s = (Throw (EvalError "Received Promise object without preview"), s0))
  /\ extraOut s0 = extraOut s
  /\ issued s0 = (issued s ++ [Runtime_evaluate code true])%list.
Proof.
  intros H0 Hty Hsub.
  assert (Hpre : forall e,
    ObjectTypeHandler' tla (set_wasThrown (Response.wasThrown r) (Response.result r)) s0
    = (Throw e, s0) -> eval' code tla s = (Throw e, s0)).
  { intros e Hh. unfold eval. rewrite (bind_normal _ _ _ _ _ H0).
    now rewrite (bind_throw _ _ _ _ _ Hh). }
  split; [|split].
  - intros Hid. apply Hpre. unfold ObjectTypeHandler, typeof, subtypeof. simpl.
    rewrite Hty, Hid. rewrite bool_decide_eq_true_2 by reflexivity.
    now rewrite bool_decide_eq_false_2 by assumption.
  - intros Hid Hcls Hpv. apply Hpre. unfold ObjectTypeHandler, typeof, subtypeof, is_class.
    simpl. rewrite Hty, Hid, Hcls, Hpv. rewrite bool_decide_eq_true_2 by reflexivity.
    now rewrite bool_decide_eq_false_2 by assumption.
  - apply (rawEval_frame remote code s r s0 H0).
Qed.

(** X11.  When the render call does not deliver a string, [eval] throws
    and leaves the flags as the caller passed them: a reply marked
    [wasThrown] gives the [EvalError] "Failed to inspect object", a reply
    of another type the [EvalError] "Received non-string inspect result",
    and a rejected request its own error.  In the first two cases the
    helper property on the global object has been removed again. *)
Theorem failed_render_leaves_flags_alone
  (code : string) (tla : bool) s r s0 remoteObj s1
  (answer : Completion Response.t) (g : Globals) :
  rawEval' code s = (Normal r, s0) ->
  ObjectTypeHandler' tla (set_wasThrown (Response.wasThrown r) (Response.result r)) s0
  = (Normal remoteObj, s1) ->
  typeof remoteObj type_bigint = false ->
  remote (issued s1) (render_request' remoteObj s1) (set_bunReplInternals true (GLOBAL s1))
  = (answer, g) ->
  let outcome := fst (eval' code tla s) in
  let s' := snd (eval' code tla s) in
  match answer with
  | Throw e => outcome = Throw e /\ extraOut s' = extraOut s
  | Normal inspected =>
      bunReplInternals (GLOBAL s') = false
      /\ (truthy_bool (Response.wasThrown inspected) = true ->
          outcome = Throw (EvalError "Failed to inspect object") /\ extraOut s' = extraOut s)
      /\ (truthy_bool (Response.wasThrown inspected) = false ->
          type (Response.result inspected) <> type_string ->
          outcome = Throw (EvalError "Received non-string inspect result")
          /\ extraOut s' = extraOut s)
  end.
Proof.
  intros H0 H1 Hty Hr outcome s'. subst outcome s'.
  rewrite (eval_unfold C enableANSIColors utl_inspect bunInspect concat_empty remote
             code tla s r s0 remoteObj s1 H0 H1), Hty.
  destruct (ObjectTypeHandler_normal C remote _ _ _ _ _ H1) as (He1 & _).
  destruct (rawEval_frame remote code s r s0 H0) as (He0 & _).
  unfold render_request in Hr.
  destruct (render_branch' remoteObj s1) as [c s'] eqn:H. simpl.
  unfold render_branch in H.
  unfold bind at 1 2 3 in H. unfold modify at 1, gets at 1 in H.
  rewrite await_request_unfold in H. simpl in H. rewrite Hr in H. simpl in H.
  destruct answer as [inspected|e]; simpl in H.
  2:{ injection H as <- <-. simpl. split; [reflexivity | congruence]. }
  unfold bind at 1 in H. unfold modify at 1 in H. simpl in H.
  destruct (truthy_bool (Response.wasThrown inspected)) eqn:Hthrown.
  { injection H as <- <-. simpl. split; [reflexivity|]. split; [|discriminate].
    intros _. split; [reflexivity | congruence]. }
  destruct (typeof (Response.result inspected) type_string) eqn:Hstr; simpl in H.
  - apply bool_decide_eq_true in Hstr. unfold bind, modify, ret in H. simpl in H.
    split; [|split; [discriminate | intros _ Hne; contradiction]].
    destruct (truthy_bool (wasThrown remoteObj) && negb (subtypeof remoteObj subtype_error));
      destruct (extraOut s1); injection H as <- <-; reflexivity.
  - injection H as <- <-. simpl.
    split; [reflexivity|]. split; [discriminate|]. intros _ _. split; [reflexivity | congruence].
Qed.

(** X12.  The advisory about top-level await is printed exactly when a
    promise was awaited and the awaited value is [undefined]; the block
    that classifies the first reply writes nothing else to the console. *)
Theorem await_warning_only_for_undefined (tla : bool) result s remoteObj s1 :
  ObjectTypeHandler' tla result s = (Normal remoteObj, s1) ->
  out s1 =
  if performs_await tla result && typeof remoteObj type_undefined
  then emit (console_warn (top_level_await_warning C)) (out s)
  else out s.
Proof.
  unfold ObjectTypeHandler. rewrite performs_await_cases.
  destruct (typeof result type_object); simpl;
    [|intros [= <- <-]; now rewrite andb_false_r].
  destruct (subtypeof result subtype_null); simpl;
    [intros [= <- <-]; now rewrite andb_false_r|].
  destruct (truthy_string (objectId result)); simpl; [|discriminate].
  destruct (is_class result "Promise"); simpl;
    [|intros [= <- <-]; now rewrite andb_false_r].
  destruct (preview result) as [pv|]; [|discriminate].
  rewrite andb_true_r. unfold promise_handler. destruct tla; simpl.
  - unfold bind at 1 2. rewrite await_request_unfold.
    destruct (remote _ _ _) as [[awaited|e] g]; simpl; [|discriminate].
    unfold bind, modify, ret, typeof.
    destruct (bool_decide (type (set_wasThrown _ _) = type_undefined)) eqn:Hu;
      destruct (status_rejected pv); intros [= <- <-]; simpl in *; rewrite Hu; reflexivity.
  - unfold bind, ret. destruct (status_rejected pv); intros [= <- <-]; reflexivity.
Qed.

End EvaluationMore.

(** *** Evaluations of the examples *)

(** [null]: two requests, the second one rendering the reply itself. *)
Lemma null_is_rendered_directly :
  let s := fresh_session in
  let r := reply null_object false in
  let s0 := snd (rawEval (scripted null_script) "null" s) in
  (rawEval (scripted null_script) "null" s = (Normal r, s0)
   /\ type (Response.result r) = type_object
   /\ subtype (Response.result r) = Some subtype_null)
  /\ fst (example_eval null_script "null" true s) = Normal (Some "null")
  /\ length (issued (snd (example_eval null_script "null" true s))) = 2%nat.
Proof.
  intros s r s0.
  split; [repeat split|].
  destruct (null_result_is_rendered_directly
              example_colors false example_inspect example_native_inspect example_concat_empty
              (scripted null_script) "null" true s r s0 eq_refl eq_refl eq_refl) as [Hrun Hissued].
  unfold example_eval. split.
  - rewrite Hrun. reflexivity.
  - rewrite Hissued. reflexivity.
Defined.

(** An object without an object id stops the evaluation. *)
Lemma anonymous_object_is_refused :
  let s := fresh_session in
  let r := reply anonymous_object false in
  let s0 := snd (rawEval (scripted anonymous_object_script) "({})" s) in
  (rawEval (scripted anonymous_object_script) "({})" s = (Normal r, s0)
   /\ type (Response.result r) = type_object
   /\ subtype (Response.result r) <> Some subtype_null
   /\ truthy_string (objectId (Response.result r)) = false)
  /\ example_eval anonymous_object_script "({})" false s
     = (Throw (EvalError "Received non-null object without objectId"), s0).
Proof.
  intros s r s0.
  split; [repeat split; discriminate|].
  exact (proj1 (malformed_object_reply_is_an_EvalError
                  example_colors false example_inspect example_native_inspect
                  example_concat_empty (scripted anonymous_object_script)
                  "({})" false s r s0 eq_refl eq_refl ltac:(discriminate)) eq_refl).
Defined.

(** [throw new Error('x')] with a render call that throws: the flags stay
    as passed although the working value was thrown. *)
Lemma failed_render_flags :
  let s := fresh_session in
  let r := reply (error_object "e1") true in
  let s0 := snd (rawEval (scripted failed_render_script) "throw new Error('x')" s) in
  let remoteObj := set_wasThrown (Some true) (error_object "e1") in
  let inspected := reply (primitive type_string None (Some "boom")) true in
  let run := example_eval failed_render_script "throw new Error('x')" false s in
  (rawEval (scripted failed_render_script) "throw new Error('x')" s = (Normal r, s0)
   /\ ObjectTypeHandler example_colors (scripted failed_render_script) false
        (set_wasThrown (Response.wasThrown r) (Response.result r)) s0 = (Normal remoteObj, s0)
   /\ typeof remoteObj type_bigint = false
   /\ scripted failed_render_script (issued s0) (render_request false remoteObj s0)
        (set_bunReplInternals true (GLOBAL s0))
      = (Normal inspected, set_bunReplInternals true (GLOBAL s0))
   /\ truthy_bool (Response.wasThrown inspected) = true)
  /\ fst run = Throw (EvalError "Failed to inspect object")
  /\ extraOut (snd run) = Some fresh_extraInfo
  /\ bunReplInternals (GLOBAL (snd run)) = false.
Proof.
  intros s r s0 remoteObj inspected run.
  split; [repeat split|].
  destruct (failed_render_leaves_flags_alone
              example_colors false example_inspect example_native_inspect example_concat_empty
              (scripted failed_render_script) "throw new Error('x')" false s r s0 remoteObj s0
              (Normal inspected) (set_bunReplInternals true (GLOBAL s0))
              eq_refl eq_refl eq_refl eq_refl) as (Hhelper & Hthrown & _).
  destruct (Hthrown eq_refl) as [Hout Hflags].
  split; [exact Hout|]. split; [exact Hflags | exact Hhelper].
Defined.

(** [await f()] fulfilled with [undefined]: the advisory is printed. *)
Lemma awaited_undefined_is_advised :
  let script := awaited_undefined_script in
  let s := snd (rawEval (scripted script) "await f()" fresh_session) in
  let result := set_wasThrown (Some false) (promise_object "p1" "fulfilled") in
  let handled := ObjectTypeHandler example_colors (scripted script) true result s in
  let remoteObj := set_wasThrown (Some false) (primitive type_undefined None None) in
  handled = (Normal remoteObj, snd handled)
  /\ out (snd handled) = [console_warn (top_level_await_warning example_colors)].
Proof.
  intros script s result handled remoteObj.
  split; [reflexivity|].
  exact (await_warning_only_for_undefined example_colors (scripted script) true result s
           remoteObj (snd handled) eq_refl).
Defined.

(** ** Descriptions of bigints *)

Lemma digits_of_uint_acc (u : Decimal.uint) (p : positive) :
  digits 10 (NilEmpty.string_of_uint u) (Npos p) = Some (Npos (Pos.of_uint_acc u p)).
Proof.
  revert p. induction u; intros p; simpl; try reflexivity;
    match goal with
    | |- digits 10 _ ?acc = Some (N.pos (Pos.of_uint_acc _ ?q)) =>
        replace acc with (Npos q) by lia; apply IHu
    end.
Qed.

Lemma digits_of_uint (u : Decimal.uint) :
  digits 10 (NilEmpty.string_of_uint u) 0%N = Some (Pos.of_uint u).
Proof.
  induction u; simpl; try reflexivity; try assumption;
    match goal with
    | |- digits 10 _ ?acc = Some (N.pos (Pos.of_uint_acc _ ?q)) =>
        replace acc with (Npos q) by lia; apply digits_of_uint_acc
    end.
Qed.

(** Reading the decimal digits of a number gives the number back. *)
Lemma digits_decimal (n : N) : digits 10 (decimal n) 0%N = Some n.
Proof.
  unfold decimal, NilZero.string_of_uint.
  pose proof (DecimalN.Unsigned.of_to n) as Hn. unfold N.of_uint in Hn.
  destruct (N.to_uint n) eqn:E;
    [simpl in Hn; subst n; reflexivity | rewrite <- Hn; apply digits_of_uint ..].
Qed.

Lemma string_of_uint_digits (u : Decimal.uint) :
  all_decimal_digits (NilEmpty.string_of_uint u) = true.
Proof. induction u; simpl; auto. Qed.

Lemma decimal_digits (n : N) : all_decimal_digits (decimal n) = true /\ decimal n <> "".
Proof.
  unfold decimal, NilZero.string_of_uint.
  destruct (N.to_uint n) eqn:E; try (split; [reflexivity | discriminate]);
    (split; [apply (string_of_uint_digits (_ u)) | discriminate]).
Qed.

Lemma slice_0_m1_suffix (s : string) (c : ascii) : slice_0_m1 (s ++ String c "") = s.
Proof.
  induction s as [|x s IH]; [reflexivity|]. simpl.
  destruct (s ++ String c "") eqn:E; [now destruct s|]. now rewrite IH.
Qed.

Lemma digit_is_not_whitespace (c : ascii) : is_decimal_digit c = true -> is_whitespace c = false.
Proof.
  unfold is_decimal_digit, is_whitespace. intros H.
  apply andb_true_iff in H as [H1 H2]. apply N.leb_le in H1, H2.
  repeat (apply orb_false_iff; split); apply N.eqb_neq; lia.
Qed.

Lemma trim_end_digits (s : string) : all_decimal_digits s = true -> trim_end s = s.
Proof.
  induction s as [|c r IH]; [reflexivity|]. simpl. intros H.
  apply andb_true_iff in H as [Hc Hr]. rewrite IH by assumption.
  rewrite (digit_is_not_whitespace c Hc). now destruct r.
Qed.

Lemma StringTrim_digits (s : string) :
  all_decimal_digits s = true ->
  StringTrim s = s /\ StringTrim (String "-" s) = String "-" s.
Proof.
  intros H. pose proof (trim_end_digits s H) as He. unfold StringTrim. split.
  - destruct s as [|c r]; [reflexivity|]. simpl in H. apply andb_true_iff in H as [Hc Hr].
    cbn [trim_start]. now rewrite (digit_is_not_whitespace c Hc).
  - cbn [trim_start]. change (is_whitespace "-") with false. cbn iota.
    cbn [trim_end]. rewrite He. now destruct s.
Qed.

(** On a run of decimal digits, possibly after a minus sign, [BigInt]
    takes the decimal reading: no digit opens a prefix [0x], [0o] or
    [0b]. *)
Lemma StringToBigInt_digits (s : string) :
  s <> "" -> all_decimal_digits s = true ->
  StringToBigInt s = numeral 10 s
  /\ StringToBigInt (String "-" s) = Z.opp <$> numeral 10 s.
Proof.
  intros Hne Hdig. destruct (StringTrim_digits s Hdig) as [Ht Hm].
  unfold StringToBigInt. rewrite Ht, Hm. split; [|reflexivity].
  destruct s as [|c r]; [contradiction|].
  simpl in Hdig. apply andb_true_iff in Hdig as [Hc Hr].
  destruct c as [[] [] [] [] [] [] [] []]; try discriminate Hc; try reflexivity.
  destruct r as [|c2 r2]; [reflexivity|].
  simpl in Hr. apply andb_true_iff in Hr as [Hc2 _].
  destruct c2 as [[] [] [] [] [] [] [] []]; try discriminate Hc2; reflexivity.
Qed.

(** Dropping the suffix of a description and reading the rest gives the
    integer back. *)
Lemma StringToBigInt_description (z : Z) :
  StringToBigInt (slice_0_m1 (bigint_description z)) = Some z.
Proof.
  unfold bigint_description.
  destruct (decimal_digits (Z.abs_N z)) as [Hdig Hne].
  destruct (StringToBigInt_digits _ Hne Hdig) as [Hpos Hneg].
  assert (Hnum : numeral 10 (decimal (Z.abs_N z)) = Some (Z.of_N (Z.abs_N z))).
  { unfold numeral. destruct (decimal (Z.abs_N z)) eqn:E; [contradiction|].
    rewrite <- E, digits_decimal. reflexivity. }
  destruct (Z.ltb_spec z 0).
  - change ("-" ++ decimal (Z.abs_N z) ++ "n")
      with (String "-" (decimal (Z.abs_N z) ++ "n")).
    change (String "-" (decimal (Z.abs_N z) ++ "n"))
      with ((String "-" (decimal (Z.abs_N z))) ++ String "n" "").
    rewrite slice_0_m1_suffix, Hneg, Hnum. simpl. f_equal. lia.
  - change ("" ++ decimal (Z.abs_N z) ++ "n") with (decimal (Z.abs_N z) ++ String "n" "").
    rewrite slice_0_m1_suffix, Hpos, Hnum. f_equal. lia.
Qed.

Section BigIntRoundTrip.

Variable C : Colors.
Variable enableANSIColors : bool.
Variable utl_inspect : any -> InspectOptions -> Completion string.
Variable bunInspect : any -> InspectOptions -> Completion string.
Variable concat_empty : any -> Completion any.

(** X13.  A bigint arrives as its description only, and the description
    of every integer survives the trip: when the working value is
    described by the decimal digits of [z] (a minus sign in front when
    [z] is negative) followed by [n], the bigint block does not throw,
    stores exactly [z] in [_] (in [_error] when the value was thrown),
    leaves the other of the two bindings alone and sends nothing. *)
Theorem bigint_description_round_trip (z : Z) (remoteObj : RemoteObject) (s : Session) :
  description remoteObj = Some (bigint_description z) ->
  exists text s',
    bigint_branch C enableANSIColors utl_inspect bunInspect concat_empty remoteObj s
    = (Normal (Some ((if truthy_bool (wasThrown remoteObj) then uncaught C else "") ++ text)), s')
    /\ (if truthy_bool (wasThrown remoteObj)
        then underscore_error (GLOBAL s') = JSBigInt z
             /\ underscore (GLOBAL s') = underscore (GLOBAL s)
        else underscore (GLOBAL s') = JSBigInt z
             /\ underscore_error (GLOBAL s') = underscore_error (GLOBAL s))
    /\ issued s' = issued s.
Proof.
  intros Hd.
  assert (Hne : bigint_description z <> "").
  { unfold bigint_description. destruct (decimal_digits (Z.abs_N z)) as [_ Hne].
    destruct (z <? 0)%Z; destruct (decimal (Z.abs_N z)); try contradiction; discriminate. }
  destruct (bigint_branch_normal C enableANSIColors utl_inspect bunInspect concat_empty
              remoteObj s _ z Hd Hne (StringToBigInt_description z))
    as (text & out' & _ & Hrun).
  exists text. eexists. split; [exact Hrun|].
  split; [|reflexivity].
  destruct (truthy_bool (wasThrown remoteObj)); simpl; auto.
Qed.

End BigIntRoundTrip.

(** [-42n], thrown. *)
Lemma thrown_negative_bigint_is_stored :
  let remoteObj := set_wasThrown (Some true) (primitive type_bigint (Some "-42n") None) in
  description remoteObj = Some (bigint_description (-42))
  /\ underscore_error
       (GLOBAL (snd (bigint_branch example_colors false example_inspect example_native_inspect
                       example_concat_empty remoteObj fresh_session)))
     = JSBigInt (-42).
Proof.
  intros remoteObj. split; [reflexivity|].
  destruct (bigint_description_round_trip
              example_colors false example_inspect example_native_inspect example_concat_empty
              (-42) remoteObj fresh_session eq_refl) as (text & s' & Hrun & Hstore & _).
  rewrite Hrun. exact (proj1 Hstore).
Defined.

(** ** The rewrite at its edges *)

Lemma strip_prefix_none_app (c : ascii) (q : string) (p s : string) :
  ~ In c (list_ascii_of_string p) ->
  strip_prefix p s = None -> strip_prefix p (s ++ String c q) = None.
Proof.
  revert s. induction p as [|a p IH]; intros s Hc; simpl; [discriminate|].
  simpl in Hc. destruct s as [|b s]; simpl.
  - intros _. destruct (Ascii.eqb_spec a c) as [->|]; [|reflexivity].
    exfalso. apply Hc. now left.
  - destruct (Ascii.eqb a b); [|reflexivity]. apply IH. intros H. apply Hc. now right.
Qed.

Lemma keyword_at_none (s : string) :
  keyword_at s = None
  <-> strip_prefix "var" s = None /\ strip_prefix "let" s = None
      /\ strip_prefix "const" s = None.
Proof.
  unfold keyword_at.
  destruct (strip_prefix "var" s), (strip_prefix "let" s), (strip_prefix "const" s);
    split; try discriminate; try tauto; intros (? & ? & ?); discriminate.
Qed.

Lemma keyword_at_none_app (c : ascii) (q s : string) :
  ~ In c (list_ascii_of_string "varletconst") ->
  keyword_at s = None -> keyword_at (s ++ String c q) = None.
Proof.
  intros Hc H. apply keyword_at_none in H as (Hv & Hl & Hk).
  apply keyword_at_none.
  repeat split; apply strip_prefix_none_app; try assumption;
    intros Hin; apply Hc; simpl in *; tauto.
Qed.

Lemma no_keyword_app (c : ascii) (q s : string) :
  ~ In c (list_ascii_of_string "varletconst") ->
  no_keyword (String c q) = true -> no_keyword s = true ->
  no_keyword (s ++ String c q) = true.
Proof.
  intros Hc Hq. induction s as [|x s IH]; [intros _; exact Hq|].
  cbn [no_keyword]. destruct (keyword_at (String x s)) eqn:Hk; [discriminate|].
  intros Hs.
  change (String x s ++ String c q) with (String x (s ++ String c q)).
  cbn [no_keyword].
  change (String x (s ++ String c q)) with (String x s ++ String c q).
  rewrite (keyword_at_none_app c q _ Hc Hk). now apply IH.
Qed.

Section RewriteMore.

Variable ID_Start : ascii -> bool.
Variable ID_Continue : ascii -> bool.

Lemma regex_at_needs_keyword (s : string) :
  keyword_at s = None -> JSVarDeclRegex_at ID_Start ID_Continue s = None.
Proof. unfold JSVarDeclRegex_at. now intros ->. Qed.

Lemma replace_from_no_keyword (fuel : nat) (s : string) :
  no_keyword s = true -> replace_from ID_Start ID_Continue fuel s = ("", s).
Proof.
  revert s. induction fuel as [|fuel IH]; intros s; [reflexivity|].
  destruct s as [|c r]; [reflexivity|].
  cbn [no_keyword replace_from].
  destruct (keyword_at (String c r)) eqn:Hk; [discriminate|].
  intros Hr. rewrite (regex_at_needs_keyword _ Hk), (IH r Hr). reflexivity.
Qed.

(** X14.  A fragment that is a single line of white space loses its only
    line before the wrapping: the last line read and the first line
    prefixed are both the missing element, and the result is the text
    [(async()=>{undefined], which closes neither the brace nor the
    call. *)
Theorem blank_fragment_is_not_wrapped (src : string) :
  single_line src = true -> all_whitespace src = true ->
  tryProcessTopLevelAwait ID_Start ID_Continue src = "(async()=>{undefined".
Proof.
  intros Hline Hblank. unfold tryProcessTopLevelAwait.
  rewrite (split_single_line src Hline).
  change (array_load [src] (Z.of_nat (length [src]) - 1)) with src.
  apply StringTrim_empty in Hblank. rewrite Hblank. reflexivity.
Qed.

(** X15.  A one-line fragment that is not blank and holds none of the
    words [var], [let], [const] at any position is only wrapped: nothing
    is hoisted, nothing inside the line is changed. *)
Theorem fragment_without_keyword_is_only_wrapped (src : string) :
  single_line src = true -> all_whitespace src = false -> no_keyword src = true ->
  tryProcessTopLevelAwait ID_Start ID_Continue src = "(async()=>{return " ++ src ++ ";})();".
Proof.
  intros Hline Hblank Hkw. unfold tryProcessTopLevelAwait.
  rewrite (split_single_line src Hline).
  change (array_load [src] (Z.of_nat (length [src]) - 1)) with src.
  destruct (StringTrim src) eqn:Ht.
  { apply StringTrim_empty in Ht. congruence. }
  change (ArrayPrototypeJoin _) with ("(async()=>{" ++ "return " ++ src ++ ";})();").
  unfold StringPrototypeReplaceAll.
  rewrite replace_from_no_keyword; [reflexivity|].
  change ("(async()=>{" ++ "return " ++ src ++ ";})();")
    with ("(async()=>{return " ++ (src ++ ";})();")).
  assert (Hbody : no_keyword (src ++ ";})();") = true).
  { apply no_keyword_app; [simpl; intuition discriminate | reflexivity | assumption]. }
  cbn -[no_keyword]. cbn [no_keyword]. 
  destruct (src ++ ";})();") eqn:E; [reflexivity|].
  exact Hbody.
Qed.

End RewriteMore.

(** One blank line, and a line with a call only. *)
Lemma blank_line_through_the_rewrite :
  (single_line "   " = true /\ all_whitespace "   " = true)
  /\ tla "   " = "(async()=>{undefined".
Proof.
  split; [split; reflexivity|].
  exact (blank_fragment_is_not_wrapped latin1_ID_Start latin1_ID_Continue "   "
           eq_refl eq_refl).
Defined.

Lemma call_through_the_rewrite :
  (single_line "await fetch(url)" = true
   /\ all_whitespace "await fetch(url)" = false
   /\ no_keyword "await fetch(url)" = true)
  /\ tla "await fetch(url)" = "(async()=>{return await fetch(url);})();".
Proof.
  split; [repeat split|].
  exact (fragment_without_keyword_is_only_wrapped latin1_ID_Start latin1_ID_Continue
           "await fetch(url)" eq_refl eq_refl eq_refl).
Defined.

(** ** The driver *)

Section DriverFacts.

Variable C : Colors.
Variable enableANSIColors : bool.
Variable utl_inspect : any -> InspectOptions -> Completion string.
Variable bunInspect : any -> InspectOptions -> Completion string.
Variable concat_empty : any -> Completion any.
Variable remote : list RuntimeRequest -> RuntimeRequest -> Globals -> Completion Response.t * Globals.
Variable ID_Start : ascii -> bool.
Variable ID_Continue : ascii -> bool.
Variable T : Type.
Variable preprocess : string -> M T string.
Variable transpile : string -> M T string.
Variable postprocess : string -> M T string.
Variable object_message : N -> option string.
Variable help_text : string.
Variable info_text : string.
Variable unknown_command : string -> string.

Local Abbreviation eval' :=
  (eval C enableANSIColors utl_inspect bunInspect concat_empty remote).
Local Abbreviation evaluate_and_print' :=
  (evaluate_and_print C enableANSIColors utl_inspect bunInspect concat_empty remote).
Local Abbreviation translate' := (translate T preprocess transpile postprocess).
Local Abbreviation detect' := (detect_top_level_await ID_Start ID_Continue).
Local Abbreviation on_line' :=
  (on_line C enableANSIColors utl_inspect bunInspect concat_empty remote ID_Start ID_Continue
     T preprocess transpile postprocess object_message help_text info_text unknown_command).
Local Abbreviation singleshot' :=
  (singleshot C enableANSIColors utl_inspect bunInspect concat_empty remote ID_Start ID_Continue
     T preprocess transpile postprocess object_message).
Local Abbreviation start_singleshot' :=
  (start_singleshot C enableANSIColors utl_inspect bunInspect concat_empty remote
     ID_Start ID_Continue T preprocess transpile postprocess object_message).

Implicit Types (st : Repl T) (s : Session).

(** Evaluation followed by printing ends as the evaluation does, and
    sends what the evaluation sends. *)
Lemma evaluate_and_print_effects (print : ExtraOut -> option string -> Console)
  (code : string) (hasTLA : bool) s :
  let ev := eval' code hasTLA (set_extraOut (Some fresh_extraInfo) s) in
  let run := evaluate_and_print' print code hasTLA s in
  issued (snd run) = issued (snd ev)
  /\ GLOBAL (snd run) = GLOBAL (snd ev)
  /\ match fst ev with
     | Normal evaled =>
         fst run = Normal tt
         /\ out (snd run)
            = (out (snd ev) ++ print (default fresh_extraInfo (extraOut (snd ev))) evaled)%list
     | Throw e => run = (Throw e, snd ev)
     end.
Proof.
  cbv zeta. unfold evaluate_and_print, bind, modify, gets.
  destruct (eval' code hasTLA (set_extraOut (Some fresh_extraInfo) s)) as [[evaled|e] s1];
    simpl; auto.
Qed.

(** The line handler on a line of code. *)
Lemma on_line_code (line : string) (c : ascii) (r : string) st :
  StringTrim line = String c r -> Ascii.eqb c "." = false ->
  on_line' line st =
  match translate' (String c r) (transpiler st) with
  | (Normal code, t) =>
      (on_session (evaluate_and_print' print_line (fst (detect' code)) (snd (detect' code))) ;;
       prompt T) (set_transpiler t st)
  | (Throw e, t) =>
      (Normal tt,
       set_terminal (terminal st ++ [rl_prompt])
         (set_session
            (set_out (emit (console_error (Some (transpiler_error_text object_message e)))
                        (out (session st)))
               (session st))
            (set_transpiler t st)))
  end.
Proof.
  intros Hline Hdot. unfold on_line. rewrite Hline, Hdot.
  unfold bind at 1. unfold try_catch. unfold bind at 1. unfold on_transpiler at 1.
  destruct (translate' (String c r) (transpiler st)) as [[code|e] t]; simpl.
  - destruct (detect' code) as [code' hasTLA]. reflexivity.
  - reflexivity.
Qed.

(** X16.  A line that is blank after trimming, or that starts with a
    dot, is never handed to the transpiler or to the remote end: the
    transpiler, the requests sent, the global object and the flags are
    as before, the handler ends normally, and the outcome is the same
    under every transpiler and every remote end. *)
Theorem lines_that_are_not_code_leave_the_session_alone (line : string) st :
  (StringTrim line = "" \/ exists r, StringTrim line = String "." r) ->
  let st' := snd (on_line' line st) in
  fst (on_line' line st) = Normal tt
  /\ transpiler st' = transpiler st
  /\ issued (session st') = issued (session st)
  /\ GLOBAL (session st') = GLOBAL (session st)
  /\ extraOut (session st') = extraOut (session st)
  /\ forall remote2 preprocess2 transpile2 postprocess2,
       on_line C enableANSIColors utl_inspect bunInspect concat_empty remote2
         ID_Start ID_Continue T preprocess2 transpile2 postprocess2 object_message
         help_text info_text unknown_command line st
       = on_line' line st.
Proof.
  intros Hline. cbv zeta. unfold on_line.
  destruct Hline as [-> | [r ->]]; [repeat split|].
  change (Ascii.eqb "." ".") with true. cbv iota.
  destruct (String.eqb (String "." r) ".help");
    [repeat split|].
  destruct (String.eqb (String "." r) ".info");
    [repeat split|].
  destruct (String.eqb (String "." r) ".clear");
    [repeat split|].
  destruct (String.eqb (String "." r) ".exit"); repeat split.
Qed.

(** X17.  When the transpiler throws on a line of code, the handler
    prints the text of the error (its message up to the first
    [Caused by:] line, trimmed; a fixed text when the thrown value has no
    message) to standard error, shows the prompt and ends normally;
    nothing is sent to the remote end and the global object is not
    touched. *)
Theorem failed_translation_is_reported (line : string) (c : ascii) (r : string) st
  (e : exn) (t : T) :
  StringTrim line = String c r -> Ascii.eqb c "." = false ->
  translate' (String c r) (transpiler st) = (Throw e, t) ->
  let st' := snd (on_line' line st) in
  fst (on_line' line st) = Normal tt
  /\ out (session st')
     = emit (console_error (Some (transpiler_error_text object_message e))) (out (session st))
  /\ terminal st' = (terminal st ++ [rl_prompt])%list
  /\ issued (session st') = issued (session st)
  /\ GLOBAL (session st') = GLOBAL (session st)
  /\ (error_message object_message e = None ->
      transpiler_error_text object_message e = "Unknown transpiler error.").
Proof.
  intros Hline Hdot Ht. cbv zeta.
  rewrite (on_line_code line c r st Hline Hdot), Ht. simpl.
  repeat split. intros Hm. unfold transpiler_error_text. rewrite Hm. reflexivity.
Qed.

(** X18.  The prompt is shown again after every line whose handler ends
    normally, once and as the last action, except after [.exit], where
    the history is written and the process ends with code 0.  When the
    evaluation throws, the handler ends with that error and the prompt
    is not shown again. *)
Theorem prompt_follows_every_line_but_exit (line : string) st :
  let run := on_line' line st in
  match fst run with
  | Normal _ =>
      terminal (snd run) =
      (terminal st ++
       if String.eqb (StringTrim line) ".exit"
       then [Bun_write (history_path st) (history_text (history_lines st)); process_exit 0]
       else if String.eqb (StringTrim line) ".clear"
       then [console_clear; rl_prompt]
       else [rl_prompt])%list
  | Throw e =>
      terminal (snd run) = terminal st
      /\ exists code hasTLA s, fst (eval' code hasTLA s) = Throw e
  end.
Proof.
  cbv zeta.
  destruct (StringTrim line) as [|c r] eqn:Hline.
  { unfold on_line. rewrite Hline. reflexivity. }
  destruct (Ascii.eqb c ".") eqn:Hdot.
  - unfold on_line. rewrite Hline, Hdot.
    apply Ascii.eqb_eq in Hdot. subst c.
    destruct (String.eqb (String "." r) ".help") eqn:Hhelp.
    { apply String.eqb_eq in Hhelp. rewrite Hhelp. reflexivity. }
    destruct (String.eqb (String "." r) ".info") eqn:Hinfo.
    { apply String.eqb_eq in Hinfo. rewrite Hinfo. reflexivity. }
    destruct (String.eqb (String "." r) ".clear") eqn:Hclear.
    { apply String.eqb_eq in Hclear. rewrite Hclear. simpl. now rewrite <- app_assoc. }
    destruct (String.eqb (String "." r) ".exit") eqn:Hexit; [|reflexivity].
    simpl. now rewrite <- app_assoc.
  - rewrite (on_line_code line c r st Hline Hdot).
    assert (Hexit : String.eqb (String c r) ".exit" = false).
    { apply String.eqb_neq. intros [= -> _]. discriminate Hdot. }
    assert (Hclear : String.eqb (String c r) ".clear" = false).
    { apply String.eqb_neq. intros [= -> _]. discriminate Hdot. }
    rewrite Hexit, Hclear.
    destruct (translate' (String c r) (transpiler st)) as [[code|e] t]; [|reflexivity].
    unfold bind, on_session.
    pose proof (evaluate_and_print_effects print_line (fst (detect' code)) (snd (detect' code))
                  (session (set_transpiler t st))) as (_ & _ & Hev).
    destruct (evaluate_and_print' print_line (fst (detect' code)) (snd (detect' code))
                (session (set_transpiler t st))) as [[[]|e] s1] eqn:Hrun; simpl.
    + reflexivity.
    + split; [reflexivity|].
      exists (fst (detect' code)), (snd (detect' code)),
        (set_extraOut (Some fresh_extraInfo) (session (set_transpiler t st))).
      destruct (fst (eval' _ _ _)) as [evaled|e'].
      * destruct Hev as [Hn _]. discriminate Hn.
      * now injection Hev as -> _.
Qed.

(** X19.  On a line of code that the transpiler accepts, the first
    request is [Runtime.evaluate] on the translated code, rewritten by
    [tryProcessTopLevelAwait] exactly when the text [await] occurs
    somewhere in it; at most two requests follow, and
    [Runtime.awaitPromise] is among them only if [await] occurs in the
    translated code. *)
Theorem await_is_detected_in_the_translated_code
  (line : string) (c : ascii) (r : string) st (code : string) (t : T) :
  StringTrim line = String c r -> Ascii.eqb c "." = false ->
  translate' (String c r) (transpiler st) = (Normal code, t) ->
  let hasTLA := StringPrototypeIncludes code "await" in
  let sent := if hasTLA then tryProcessTopLevelAwait ID_Start ID_Continue code else code in
  exists rest,
    issued (session (snd (on_line' line st)))
    = (issued (session st) ++ Runtime_evaluate sent true :: rest)%list
    /\ (length rest <= 2)%nat
    /\ (forall id b, In (Runtime_awaitPromise id b) rest -> hasTLA = true).
Proof.
  intros Hline Hdot Ht. cbv zeta.
  rewrite (on_line_code line c r st Hline Hdot), Ht.
  assert (Hd : detect' code
               = (if StringPrototypeIncludes code "await"
                  then tryProcessTopLevelAwait ID_Start ID_Continue code else code,
                  StringPrototypeIncludes code "await")).
  { unfold detect_top_level_await. now destruct (StringPrototypeIncludes code "await"). }
  rewrite Hd. cbn [fst snd].
  set (hasTLA := StringPrototypeIncludes code "await").
  set (sent := if hasTLA then tryProcessTopLevelAwait ID_Start ID_Continue code else code).
  unfold bind, on_session.
  pose proof (evaluate_and_print_effects print_line sent hasTLA
                (session (set_transpiler t st))) as (Hi & _).
  destruct (evaluate_and_print' print_line sent hasTLA (session (set_transpiler t st)))
    as [[[]|e] s1] eqn:Hrun; simpl in Hi |- *;
    (rewrite Hi;
     destruct (eval_requests C enableANSIColors utl_inspect bunInspect concat_empty remote
                 sent hasTLA (set_extraOut (Some fresh_extraInfo) (session st)))
       as (aw & cf & Hissued & Haw & Hcf);
     exists (aw ++ cf)%list; split; [exact Hissued|];
     split;
     [ destruct Haw as [-> | (_ & id & ->)]; destruct Hcf as [-> | (q & -> & _)]; simpl; lia
     | intros id b Hin; apply in_app_or in Hin as [Hin | Hin];
       [ destruct Haw as [-> | (Htla & _)]; [destruct Hin | exact Htla]
       | destruct Hcf as [-> | (q & -> & Hq)]; [destruct Hin|];
         destruct Hin as [Hin | []]; subst q; discriminate Hq ] ]).
Qed.

(** The single-shot branch. *)
Lemma singleshot_unfold (singleshotCode : string) (printSingleshot : bool) st :
  singleshot' singleshotCode printSingleshot st =
  match translate' singleshotCode (transpiler st) with
  | (Normal code, t) =>
      (on_session
         (evaluate_and_print' (fun extraInfo => print_singleshot extraInfo printSingleshot)
            (fst (detect' code)) (snd (detect' code))) ;;
       exit T 0) (set_transpiler t st)
  | (Throw e, t) =>
      (Normal tt,
       set_terminal (terminal st ++ [process_exit 1])
         (set_session
            (set_out (emit (console_error (Some (transpiler_error_text object_message e)))
                        (out (session st)))
               (session st))
            (set_transpiler t st)))
  end.
Proof.
  unfold singleshot.
  unfold bind at 1. unfold try_catch. unfold bind at 1. unfold on_transpiler at 1.
  destruct (translate' singleshotCode (transpiler st)) as [[code|e] t]; simpl.
  - destruct (detect' code) as [code' hasTLA]. reflexivity.
  - reflexivity.
Qed.

(** X20.  In single-shot mode the process ends exactly once, as the last
    action.  The exit code is 1 when the transpiler throws (the error
    text goes to standard error and nothing is sent) and when the
    evaluation itself throws (reported as an internal error); it is 0 in
    every other case, also when the evaluated code threw and its error
    was printed to standard error. *)
Theorem singleshot_exit_code (singleshotCode : string) (printSingleshot : bool) st :
  let run := start_singleshot' singleshotCode printSingleshot st in
  fst run = Normal tt
  /\ match translate' singleshotCode (transpiler st) with
     | (Throw e, t) =>
         terminal (snd run) = (terminal st ++ [process_exit 1])%list
         /\ issued (session (snd run)) = issued (session st)
         /\ out (session (snd run))
            = emit (console_error (Some (transpiler_error_text object_message e)))
                (out (session st))
     | (Normal code, t) =>
         match fst (eval' (fst (detect' code)) (snd (detect' code))
                      (set_extraOut (Some fresh_extraInfo) (session st))) with
         | Normal evaled => terminal (snd run) = (terminal st ++ [process_exit 0])%list
         | Throw err =>
             terminal (snd run) = (terminal st ++ [internal_error err; process_exit 1])%list
         end
     end.
Proof.
  cbv zeta. unfold start_singleshot, try_catch.
  rewrite !singleshot_unfold.
  destruct (translate' singleshotCode (transpiler st)) as [[code|e] t]; [|repeat split].
  unfold bind, on_session.
  change (session (set_transpiler t st)) with (session st).
  pose proof (evaluate_and_print_effects
                (fun extraInfo => print_singleshot extraInfo printSingleshot)
                (fst (detect' code)) (snd (detect' code)) (session st)) as (_ & _ & Hev).
  cbv zeta in Hev.
  destruct (evaluate_and_print' _ (fst (detect' code)) (snd (detect' code)) (session st))
    as [[[]|e] s1] eqn:Hrun;
    destruct (fst (eval' (fst (detect' code)) (snd (detect' code))
                     (set_extraOut (Some fresh_extraInfo) (session st))))
      as [evaled|err]; simpl in Hev |- *.
  - split; reflexivity.
  - discriminate Hev.
  - destruct Hev as [Hn _]. discriminate Hn.
  - injection Hev as -> _. split; [reflexivity|]. now rewrite <- app_assoc.
Qed.

End DriverFacts.

(** ** The history file *)

Lemma split_nonempty (s : string) : StringPrototypeSplit s <> [].
Proof.
  induction s as [|c r IH]; simpl; [discriminate|].
  destruct (Ascii.eqb c "010"); [discriminate|].
  destruct (StringPrototypeSplit r); discriminate.
Qed.

Section HistoryFacts.

Variable FS : Type.
Variable file_exists : string -> M FS bool.
Variable Bun_file_write : string -> string -> M FS unit.
Variable file_text : string -> M FS string.
Variable join : list string -> string.
Variable homedir : string.

Local Abbreviation tryLoadHistory' :=
  (tryLoadHistory FS file_exists Bun_file_write file_text join).
Local Abbreviation loadHistoryData' :=
  (loadHistoryData FS file_exists Bun_file_write file_text join homedir).

(** [tryLoadHistory] catches whatever the file system throws; what it
    loads has the path it was asked for and at least one line. *)
Lemma tryLoadHistory_total (dir : list string) (fs : FS) :
  exists r fs',
    tryLoadHistory' dir fs = (Normal r, fs')
    /\ forall h, r = Some h -> path h = join (dir ++ [history_file]) /\ lines h <> [].
Proof.
  unfold tryLoadHistory, try_catch, bind, ret.
  destruct (file_exists (join (dir ++ [history_file])) fs) as [[present|e] fs1].
  2:{ eexists _, _. split; [reflexivity | discriminate]. }
  assert (Hread : forall fs2,
    exists r fs',
      match file_text (join (dir ++ [history_file])) fs2 with
      | (Normal a, w') =>
          (Normal (Some {| path := join (dir ++ [history_file]);
                           lines := StringPrototypeSplit a |}), w')
      | (Throw e, w') => (Throw e, w')
      end = (r, fs')
      /\ match r with
         | Normal (Some h) => path h = join (dir ++ [history_file]) /\ lines h <> []
         | Normal None => False
         | Throw _ => True
         end).
  { intros fs2. destruct (file_text _ fs2) as [[text|e] fs3]; eexists _, _;
      (split; [reflexivity|]); simpl; auto using split_nonempty. }
  destruct present; simpl.
  - destruct (Hread fs1) as (r & fs' & -> & Hr).
    destruct r as [[h|]|e]; [|contradiction|].
    + eexists _, _. split; [reflexivity|]. now intros ? [= <-].
    + eexists _, _. split; [reflexivity | discriminate].
  - destruct (Bun_file_write _ _ fs1) as [[[]|e] fs2].
    2:{ eexists _, _. split; [reflexivity | discriminate]. }
    destruct (Hread fs2) as (r & fs' & -> & Hr).
    destruct r as [[h|]|e]; [|contradiction|].
    + eexists _, _. split; [reflexivity|]. now intros ? [= <-].
    + eexists _, _. split; [reflexivity | discriminate].
Qed.

(** X21.  [loadHistoryData] never rejects, whatever the file system
    does.  Its result names the history file under [XDG_DATA_HOME/bun],
    under [BUN_INSTALL] or under the home directory; a variable that is
    unset or empty is never the source; and the result has no lines at
    all only as the last resort under the home directory, a history that
    was read from a file having at least one line. *)
Theorem loadHistoryData_never_fails (XDG_DATA_HOME BUN_INSTALL : option string) (fs : FS) :
  exists h fs',
    loadHistoryData' XDG_DATA_HOME BUN_INSTALL fs = (Normal h, fs')
    /\ ((truthy_string XDG_DATA_HOME = true
         /\ path h = join [default "" XDG_DATA_HOME; "bun"; history_file] /\ lines h <> [])
        \/ (truthy_string BUN_INSTALL = true
            /\ path h = join [default "" BUN_INSTALL; history_file] /\ lines h <> [])
        \/ path h = join [homedir; history_file])
    /\ (lines h = [] -> path h = join [homedir; history_file]).
Proof.
  assert (Hmain : exists h fs',
    loadHistoryData' XDG_DATA_HOME BUN_INSTALL fs = (Normal h, fs')
    /\ ((truthy_string XDG_DATA_HOME = true
         /\ path h = join [default "" XDG_DATA_HOME; "bun"; history_file] /\ lines h <> [])
        \/ (truthy_string BUN_INSTALL = true
            /\ path h = join [default "" BUN_INSTALL; history_file] /\ lines h <> [])
        \/ path h = join [homedir; history_file])).
  { unfold loadHistoryData.
    assert (Hhome : forall fs1, exists h fs',
      (out <- tryLoadHistory' [homedir] ;;
       ret (default {| path := join [homedir; history_file]; lines := [] |} out)) fs1
      = (Normal h, fs') /\ path h = join [homedir; history_file]).
    { intros fs1. unfold bind at 1.
      destruct (tryLoadHistory_total [homedir] fs1) as (r & fs' & -> & Hr).
      destruct r as [h|]; eexists _, _; (split; [reflexivity|]); simpl; [|reflexivity].
      now destruct (Hr h eq_refl). }
    assert (Hbun : forall fs1, exists h fs',
      (out <- (if truthy_string BUN_INSTALL
               then tryLoadHistory' [default "" BUN_INSTALL] else ret None) ;;
       match out with
       | Some out => ret out
       | None =>
           out <- tryLoadHistory' [homedir] ;;
           ret (default {| path := join [homedir; history_file]; lines := [] |} out)
       end) fs1 = (Normal h, fs')
      /\ ((truthy_string BUN_INSTALL = true
           /\ path h = join [default "" BUN_INSTALL; history_file] /\ lines h <> [])
          \/ path h = join [homedir; history_file])).
    { intros fs1. unfold bind at 1.
      destruct (truthy_string BUN_INSTALL) eqn:Hb.
      - destruct (tryLoadHistory_total [default "" BUN_INSTALL] fs1) as (r & fs2 & -> & Hr).
        destruct r as [h|].
        + eexists _, _. split; [reflexivity|]. left. split; [reflexivity|].
          exact (Hr h eq_refl).
        + destruct (Hhome fs2) as (h & fs' & -> & Hp). eauto.
      - unfold ret at 1. destruct (Hhome fs1) as (h & fs' & -> & Hp). eauto. }
    unfold bind at 1.
    destruct (truthy_string XDG_DATA_HOME) eqn:Hx.
    - destruct (tryLoadHistory_total [default "" XDG_DATA_HOME; "bun"] fs)
        as (r & fs1 & -> & Hr).
      destruct r as [h|].
      + eexists _, _. split; [reflexivity|]. left. split; [reflexivity|].
        exact (Hr h eq_refl).
      + destruct (Hbun fs1) as (h & fs' & -> & Hp). eexists _, _.
        split; [reflexivity|]. right. exact Hp.
    - unfold ret at 1. destruct (Hbun fs) as (h & fs' & -> & Hp). eexists _, _.
      split; [reflexivity|]. right. exact Hp. }
  destruct Hmain as (h & fs' & Hrun & Hsrc).
  exists h, fs'. split; [exact Hrun|]. split; [exact Hsrc|].
  intros Hempty. destruct Hsrc as [(_ & _ & Hne) | [(_ & _ & Hne) | Hp]];
    [contradiction | contradiction | exact Hp].
Qed.

(** X22.  What the handler of [close] writes is read back at the next
    start: if the history file exists and holds the text written for the
    lines [ls], none of which contains a line feed, [tryLoadHistory]
    returns those lines in the same order without the entries [.exit].
    When nothing is left after removing them, one empty line is
    returned. *)
Theorem saved_history_is_loaded_back (dir : list string) (ls : list string) (fs fs1 fs2 : FS) :
  let p := join (dir ++ [history_file]) in
  let kept := filter (fun l => negb (String.eqb l ".exit")) ls in
  Forall (fun l => single_line l = true) ls ->
  file_exists p fs = (Normal true, fs1) ->
  file_text p fs1 = (Normal (history_text ls), fs2) ->
  tryLoadHistory' dir fs
  = (Normal (Some {| path := p; lines := match kept with [] => [""] | _ => kept end |}), fs2)
    /\ ".exit" ∉ kept.
Proof.
  intros p kept Hlines Hex Htext. split.
  - assert (Hkept : Forall (fun l => single_line l = true) kept).
    { apply Forall_forall. intros l Hl. apply list_elem_of_filter in Hl as [_ Hl].
      rewrite Forall_forall in Hlines. now apply Hlines. }
    assert (Hsplit : StringPrototypeSplit (history_text ls)
                     = match kept with [] => [""] | _ => kept end).
    { unfold history_text. fold kept. destruct kept as [|l kept']; [reflexivity|].
      now apply split_join. }
    unfold tryLoadHistory, try_catch, bind, ret. fold p. rewrite Hex. simpl. rewrite Htext.
    now rewrite Hsplit.
  - intros Hin. apply list_elem_of_filter in Hin as [Hne _]. simpl in Hne. exact Hne.
Qed.

End HistoryFacts.

(** ** [require] and [require.resolve] *)

Lemma includes_app (a b needle : string) :
  StringPrototypeIncludes b needle = true -> StringPrototypeIncludes (a ++ b) needle = true.
Proof.
  intros Hb. induction a as [|c a IH]; [exact Hb|].
  change (String c a ++ b) with (String c (a ++ b)). cbn [StringPrototypeIncludes].
  destruct (strip_prefix needle (String c (a ++ b))); [reflexivity | exact IH].
Qed.

Lemma ArrayIncludes_spec (l : list string) (x : string) : ArrayIncludes l x = true <-> x ∈ l.
Proof.
  unfold ArrayIncludes. rewrite existsb_exists. split.
  - intros (y & Hy & Heq). apply String.eqb_eq in Heq. subst y. now apply list_elem_of_In.
  - intros Hx. exists x. split; [now apply list_elem_of_In | apply String.eqb_refl].
Qed.

Section RequireFacts.

Variable builtinModules : list string.
Variable resolveSync : string -> string -> Completion string.
Variable import_meta_require : string -> Completion any.
Variable cwd : string.
Variable join : string -> string -> string.
Variable swcrc_filename : string.
Variable repl_module : any.
Variable bun_module : any.

Local Abbreviation nodePrefixed := (nodePrefixedModules builtinModules).
Local Abbreviation require' :=
  (require builtinModules resolveSync import_meta_require cwd join swcrc_filename
     repl_module bun_module).

(** The modules that receive the prefix: builtin names that do not start
    with an underscore, hold no colon and are none of the four names set
    aside. *)
Lemma nodePrefixed_spec (x : string) :
  x ∈ nodePrefixed <->
  x ∈ builtinModules
  /\ (match x with String c _ => Ascii.eqb c "_" | EmptyString => false end) = false
  /\ StringPrototypeIncludes x ":" = false
  /\ ArrayIncludes ["undici"; "ws"; "detect-libc"; "bun"] x = false.
Proof.
  unfold nodePrefixedModules. rewrite list_elem_of_filter.
  rewrite !andb_True, !negb_True, !Is_true_false. tauto.
Qed.

Lemma prefixed_name_is_not_prefixed_again (m : string) :
  ArrayIncludes nodePrefixed ("node:" ++ m) = false.
Proof.
  destruct (ArrayIncludes nodePrefixed ("node:" ++ m)) eqn:H; [|reflexivity].
  apply ArrayIncludes_spec, nodePrefixed_spec in H as (_ & _ & Hcolon & _).
  change ("node:" ++ m) with ("node" ++ String ":" m) in Hcolon.
  rewrite includes_app in Hcolon; [discriminate|].
  reflexivity.
Qed.

(** X23.  Two modules are served without any resolution, whatever the
    resolver and the loader do: [require('bun')] is the module [bun]
    (the name is never prefixed, being set aside from the builtin
    names), and [require('node:repl')] is the REPL's own module;
    [require('repl')] is that module too as soon as [repl] is a builtin
    name. *)
Theorem require_serves_bun_and_repl_directly :
  let require :=
    require builtinModules resolveSync import_meta_require cwd join swcrc_filename
      repl_module bun_module in
  require "bun" = inr bun_module
  /\ require "node:repl" = inr repl_module
  /\ ("repl" ∈ builtinModules -> require "repl" = inr repl_module).
Proof.
  cbv zeta. split; [|split].
  - unfold require.
    destruct (ArrayIncludes nodePrefixed "bun") eqn:H; [|reflexivity].
    apply ArrayIncludes_spec, nodePrefixed_spec in H as (_ & _ & _ & H). discriminate H.
  - unfold require. change "node:repl" with ("node:" ++ "repl") at 1.
    now rewrite prefixed_name_is_not_prefixed_again.
  - intros Hin. unfold require.
    assert (H : ArrayIncludes nodePrefixed "repl" = true).
    { apply ArrayIncludes_spec, nodePrefixed_spec. repeat split; [assumption | reflexivity ..]. }
    now rewrite H.
Qed.

(** X24.  Prefixing happens once: for a name [m] that receives the
    prefix, [require(m)] is [require('node:' + m)], and when the module
    cannot be resolved the error names the prefixed specifier, not the
    one the caller wrote. *)
Theorem require_prefixes_once (m : string) :
  m ∈ nodePrefixedModules builtinModules ->
  require' m = require' ("node:" ++ m)
  /\ forall message specifier,
       require' m = inl (ResolveError message specifier) -> specifier = "node:" ++ m.
Proof.
  intros Hm.
  assert (Hin : ArrayIncludes nodePrefixed m = true) by now apply ArrayIncludes_spec.
  split.
  - unfold require. now rewrite Hin, prefixed_name_is_not_prefixed_again.
  - intros message specifier. unfold require. rewrite Hin.
    destruct (String.eqb ("node:" ++ m) "node:repl"); [discriminate|].
    destruct (String.eqb ("node:" ++ m) "bun"); [discriminate|].
    destruct (resolveSync ("node:" ++ m) cwd) as [resolved|e].
    + destruct (import_meta_require resolved); discriminate.
    + now intros [= _ <-].
Qed.

Variable pathresolve : string -> string -> string.

Local Abbreviation resolve_loop' := (resolve_loop resolveSync cwd pathresolve).
Local Abbreviation require_resolve' := (require_resolve resolveSync cwd pathresolve).

Lemma resolve_loop_spec (moduleID : string) (paths : list string) :
  match resolve_loop' moduleID paths with
  | Some resolved =>
      exists before path after,
        paths = (before ++ path :: after)%list
        /\ resolveSync moduleID (pathresolve cwd path) = Normal resolved
        /\ Forall (fun q => exists e, resolveSync moduleID (pathresolve cwd q) = Throw e) before
  | None =>
      Forall (fun q => exists e, resolveSync moduleID (pathresolve cwd q) = Throw e) paths
  end.
Proof.
  induction paths as [|p paths IH]; simpl; [constructor|].
  destruct (resolveSync moduleID (pathresolve cwd p)) as [resolved|e] eqn:Hp.
  - exists [], p, paths. auto.
  - destruct (resolve_loop' moduleID paths) as [resolved|].
    + destruct IH as (before & q & after & -> & Hq & Hbefore).
      exists (p :: before), q, after. split; [reflexivity|]. split; [assumption|].
      constructor; eauto.
    + constructor; eauto.
Qed.

(** X25.  [require.resolve] returns what the resolver finds from the
    first of the given paths that resolves, every path before it having
    failed, and throws a [ResolveError] naming the module exactly when
    every path fails.  A call with an empty array of paths behaves as
    one from the current directory, and leaves ['.'] in the caller's
    array; a call without paths does the same. *)
Theorem require_resolve_takes_the_first_path_that_resolves
  (moduleID : string) (paths : list string) :
  paths <> [] ->
  snd (require_resolve' moduleID (Some paths)) = paths
  /\ match fst (require_resolve' moduleID (Some paths)) with
     | inr resolved =>
         exists before path after,
           paths = (before ++ path :: after)%list
           /\ resolveSync moduleID (pathresolve cwd path) = Normal resolved
           /\ Forall (fun q => exists e, resolveSync moduleID (pathresolve cwd q) = Throw e)
                before
     | inl err =>
         err = ResolveError ("Cannot find module " ++ quoted moduleID) moduleID
         /\ Forall (fun q => exists e, resolveSync moduleID (pathresolve cwd q) = Throw e)
              paths
     end
  /\ require_resolve' moduleID (Some []) = require_resolve' moduleID (Some ["."])
  /\ require_resolve' moduleID None = require_resolve' moduleID (Some ["."]).
Proof.
  intros Hne.
  assert (Hrun : require_resolve' moduleID (Some paths)
                 = (match resolve_loop' moduleID paths with
                    | Some resolved => inr resolved
                    | None =>
                        inl (ResolveError ("Cannot find module " ++ quoted moduleID) moduleID)
                    end, paths)).
  { destruct paths; [contradiction | reflexivity]. }
  rewrite Hrun. cbn [fst snd].
  split; [reflexivity|]. split; [|split; reflexivity].
  pose proof (resolve_loop_spec moduleID paths) as H.
  destruct (resolve_loop' moduleID paths); [exact H | split; [reflexivity | exact H]].
Qed.

End RequireFacts.

(** ** The driver, the history and the modules at work *)

(** [.help], with blanks around it. *)
Lemma help_leaves_the_session_alone :
  let run := example_on_line [] "  .help " fresh_repl in
  (StringTrim "  .help " = "" \/ exists r, StringTrim "  .help " = String "." r)
  /\ fst run = Normal tt
  /\ issued (session (snd run)) = []
  /\ out (session (snd run)) = [console_log (Some "Commands & keybinds")].
Proof.
  intros run.
  assert (Hline : StringTrim "  .help " = "" \/ exists r, StringTrim "  .help " = String "." r)
    by (right; eexists; reflexivity).
  split; [exact Hline|].
  destruct (lines_that_are_not_code_leave_the_session_alone
              example_colors false example_inspect example_native_inspect example_concat_empty
              (scripted []) latin1_ID_Start latin1_ID_Continue unit ret example_transpile ret
              (fun _ => None) "Commands & keybinds" "Running on Bun"
              (fun line => "Unknown REPL command " ++ line)
              "  .help " fresh_repl Hline) as (Hnormal & _ & Hissued & _).
  split; [exact Hnormal|]. split; [exact Hissued | reflexivity].
Defined.

(** A line the transpiler rejects. *)
Lemma rejected_line_is_reported :
  let run := example_on_line [] "let # = 1" fresh_repl in
  (StringTrim "let # = 1" = String "l" "et # = 1"
   /\ Ascii.eqb "l" "." = false
   /\ translate unit ret example_transpile ret "let # = 1" tt
      = (Throw (SyntaxError ("Unexpected token" ++ caused_by ++ "0: failed to parse")), tt))
  /\ out (session (snd run)) = [console_error (Some "Unexpected token")]
  /\ terminal (snd run) = [rl_prompt]
  /\ issued (session (snd run)) = [].
Proof.
  intros run. split; [repeat split|].
  destruct (failed_translation_is_reported
              example_colors false example_inspect example_native_inspect example_concat_empty
              (scripted []) latin1_ID_Start latin1_ID_Continue unit ret example_transpile ret
              (fun _ => None) "Commands & keybinds" "Running on Bun"
              (fun line => "Unknown REPL command " ++ line)
              "let # = 1" "l" "et # = 1" fresh_repl _ tt eq_refl eq_refl eq_refl)
    as (_ & Hout & Hterminal & Hissued & _).
  split; [exact Hout|]. split; [exact Hterminal | exact Hissued].
Defined.

(** [await f()]: the wrapped text is evaluated and the promise awaited. *)
Lemma awaited_line_is_wrapped :
  let run := example_on_line awaited_undefined_script " await f()" fresh_repl in
  (StringTrim " await f()" = String "a" "wait f()"
   /\ Ascii.eqb "a" "." = false
   /\ translate unit ret example_transpile ret "await f()" tt = (Normal "await f()", tt))
  /\ exists rest,
       issued (session (snd run))
       = Runtime_evaluate "(async()=>{return await f();})();" true :: rest
       /\ (length rest <= 2)%nat.
Proof.
  intros run. split; [repeat split|].
  destruct (await_is_detected_in_the_translated_code
              example_colors false example_inspect example_native_inspect example_concat_empty
              (scripted awaited_undefined_script) latin1_ID_Start latin1_ID_Continue
              unit ret example_transpile ret
              (fun _ => None) "Commands & keybinds" "Running on Bun"
              (fun line => "Unknown REPL command " ++ line)
              " await f()" "a" "wait f()" fresh_repl "await f()" tt eq_refl eq_refl eq_refl)
    as (rest & Hissued & Hlen & _).
  exists rest. split; [exact Hissued | exact Hlen].
Defined.

(** Three lines typed, one of them [.exit]: two are read back. *)
Lemma typed_lines_are_loaded_back :
  let p := example_join (["/home/user"] ++ [history_file]) in
  (Forall (fun l => single_line l = true) typed_lines
   /\ example_file_exists p example_disk = (Normal true, example_disk)
   /\ example_file_text p example_disk = (Normal (history_text typed_lines), example_disk))
  /\ tryLoadHistory example_FS example_file_exists example_file_write example_file_text
       example_join ["/home/user"] example_disk
     = (Normal (Some {| path := "/home/user/.bun_repl_history";
                        lines := ["let x = 2"; "1 + 1"] |}), example_disk).
Proof.
  intros p.
  assert (Hlines : Forall (fun l => single_line l = true) typed_lines)
    by (repeat constructor).
  split; [repeat split; exact Hlines|].
  exact (proj1 (saved_history_is_loaded_back
                  example_FS example_file_exists example_file_write example_file_text
                  example_join ["/home/user"] typed_lines example_disk example_disk
                  example_disk Hlines eq_refl eq_refl)).
Defined.

(** [require('repl')] among the builtin names of the examples. *)
Lemma repl_is_served_directly :
  "repl" ∈ example_builtinModules /\ example_require "repl" = inr (JSObject 2).
Proof.
  assert (Hin : "repl" ∈ example_builtinModules) by (apply list_elem_of_In; simpl; tauto).
  split; [exact Hin|].
  exact (proj2 (proj2 (require_serves_bun_and_repl_directly
                         example_builtinModules example_resolveSync
                         (fun _ => Normal (JSObject 1)) "/work" (fun a b => a ++ "/" ++ b)
                         "$bun$repl.ts" (JSObject 2) (JSObject 3))) Hin).
Defined.

(** [require('fs')] fails to resolve as [node:fs]. *)
Lemma fs_is_required_as_node_fs :
  "fs" ∈ nodePrefixedModules example_builtinModules
  /\ example_require "fs" = example_require "node:fs"
  /\ exists message, example_require "fs" = inl (ResolveError message "node:fs").
Proof.
  assert (Hin : "fs" ∈ nodePrefixedModules example_builtinModules)
    by (apply list_elem_of_In; vm_compute; tauto).
  split; [exact Hin|].
  destruct (require_prefixes_once
              example_builtinModules example_resolveSync
              (fun _ => Normal (JSObject 1)) "/work" (fun a b => a ++ "/" ++ b)
              "$bun$repl.ts" (JSObject 2) (JSObject 3) "fs" Hin) as [Hsame _].
  split; [exact Hsame|]. eexists. reflexivity.
Defined.

(** Two paths, the second of which resolves. *)
Lemma second_path_resolves :
  ["src"; "lib"] <> []
  /\ fst (require_resolve example_resolveSync "/work" example_pathresolve
            "left-pad" (Some ["src"; "lib"]))
     = inr "/work/lib/node_modules/left-pad/index.js"
  /\ require_resolve example_resolveSync "/work" example_pathresolve "left-pad" (Some [])
     = require_resolve example_resolveSync "/work" example_pathresolve "left-pad" None.
Proof.
  assert (Hne : ["src"; "lib"] <> ([] : list string)) by discriminate.
  split; [exact Hne|].
  destruct (require_resolve_takes_the_first_path_that_resolves
              example_resolveSync "/work" example_pathresolve "left-pad" ["src"; "lib"] Hne)
    as (_ & _ & Hempty & Hnone).
  split; [reflexivity|]. now rewrite Hempty, Hnone.
Defined.

(** Options with a [null] depth: the strict inspector is as good as the
    permissive one. *)
Lemma strict_inspector_is_enough :
  let opts := {| depth := DepthNull; sorted := SortedFunction;
                 colors := Some true; showProxy := None |} in
  SafeInspect example_colors (fun _ _ => Throw (TypeError "unavailable"))
    example_native_inspect example_concat_empty JSNull opts []
  = SafeInspect example_colors (fun _ _ => Throw (TypeError "unavailable"))
      strict_native_inspect example_concat_empty JSNull opts [].
Proof.
  intros opts.
  apply (proj2 (native_inspector_sees_adjusted_options
                  example_colors (fun _ _ => Throw (TypeError "unavailable"))
                  example_native_inspect strict_native_inspect example_concat_empty
                  JSNull opts [])).
  intros v o Hd Hs. unfold strict_native_inspect.
  destruct (depth o); destruct (sorted o); congruence.
Defined.
